(** * The Tacotron2 decoder of [layers/tacotron2.py]

    A shallow embedding of the [Decoder] class: its fields, the tensor
    plumbing it does itself (slicing, stacking, reshaping), its step
    function [decode] and its four driving loops.  The learned layers
    and the attention module are collaborators, taken through the
    interface [Modules]; scalars are taken through [Scalar]. *)

From Stdlib Require Import String.
From Stdlib Require Import List ZArith QArith Qabs Bool Lia Arith PeanoNat.
Import ListNotations.

Set Implicit Arguments.
Unset Strict Implicit.

Local Open Scope Z_scope.

(* ================================================================== *)
(** ** Exceptions and results *)

(** The Python exceptions the modelled code can raise.  [Unsupported]
    marks a tensor of more than three axes, which the decoder never
    builds and the model does not represent; [OutOfFuel] is the
    model's mark for a loop that was not given enough iterations. *)
Inductive exn : Set :=
| RuntimeError | IndexError | AttributeError | TypeError
| ZeroDivisionError | Unsupported | OutOfFuel.

Inductive result (A : Type) : Type :=
| Ok (a : A)
| Raise (e : exn).
Arguments Ok {A} a.
Arguments Raise {A} e.

Definition rbind {A B} (x : result A) (f : A -> result B) : result B :=
  match x with
  | Ok a => f a
  | Raise e => Raise e
  end.

(* ================================================================== *)
(** ** Python lists and slices *)

Module Py.

(** [l[k:]], with Python's reading of a negative bound. *)
Definition slice_from {A} (k : Z) (l : list A) : list A :=
  if k <? 0
  then skipn (Z.to_nat (Z.of_nat (length l) + k)) l
  else skipn (Z.to_nat k) l.

(** [l[:k]]. *)
Definition slice_to {A} (k : Z) (l : list A) : list A :=
  if k <? 0
  then firstn (Z.to_nat (Z.of_nat (length l) + k)) l
  else firstn (Z.to_nat k) l.

(** [len(l)] as a Python integer. *)
Definition len {A} (l : list A) : Z := Z.of_nat (length l).

(** [a // b] on integers. *)
Definition floordiv (a b : Z) : result Z :=
  if b =? 0 then Raise ZeroDivisionError else Ok (a / b).

End Py.

(* ================================================================== *)
(** ** Scalars *)

(** The floating-point numbers of the tensor runtime, through the few
  operations the decoder needs. *)
Class Scalar : Type := {
F : Type;
(** the float a decimal literal of the source denotes *)
const : Q -> F;
(** [x > y] *)
gtb : F -> F -> bool;
(** [torch.sigmoid] on one element *)
sigmoid : F -> F
}.

(* ================================================================== *)
(** ** Tensors of one, two or three axes *)

Section Tensor.
Context {SC : Scalar}.

Inductive tensor : Type :=
| T1 (v : list F)
| T2 (m : list (list F))
| T3 (c : list (list (list F))).

(** Length of the first row: the second extent of a matrix. *)
Definition width {A} (m : list (list A)) : nat :=
  match m with
  | [] => O
  | r :: _ => length r
  end.

(** [t.shape]; an extent behind an empty axis reads as 0. *)
Definition shape (t : tensor) : list nat :=
  match t with
  | T1 v => [length v]
  | T2 m => [length m; width m]
  | T3 c => [length c; width c; width (hd [] c)]
  end.

(** [len(t.shape)] *)
Definition ndim (t : tensor) : nat := length (shape t).

(** [t.size(i)] for [i >= 0]. *)
Definition size (i : nat) (t : tensor) : result Z :=
  match nth_error (shape t) i with
  | Some n => Ok (Z.of_nat n)
  | None => Raise IndexError
  end.

(** [t.size(-1)] *)
Definition size_last (t : tensor) : Z := Z.of_nat (last (shape t) O).

(** A tensor is rectangular with the given extents. *)
Definition has_shape (t : tensor) (s : list nat) : Prop :=
  match t, s with
  | T1 v, [a] => length v = a
  | T2 m, [a; b] => length m = a /\ Forall (fun r => length r = b) m
  | T3 c, [a; b; k] =>
      length c = a /\
      Forall (fun m => length m = b /\ Forall (fun r => length r = k) m) c
  | _, _ => False
  end.

(** All elements in row-major order: the contiguous storage. *)
Definition flatten (t : tensor) : list F :=
  match t with
  | T1 v => v
  | T2 m => concat m
  | T3 c => concat (map (@concat F) c)
  end.

Definition numel (t : tensor) : nat := length (flatten t).

(** [torch.zeros(1).repeat(b, w)] *)
Definition zeros_repeat (b w : Z) : result tensor :=
  if (b <? 0) || (w <? 0) then Raise RuntimeError
  else Ok (T2 (repeat (repeat (const 0%Q) (Z.to_nat w)) (Z.to_nat b))).

(** [t.unsqueeze(0)] *)
Definition unsqueeze0 (t : tensor) : result tensor :=
  match t with
  | T1 v => Ok (T2 [v])
  | T2 m => Ok (T3 [m])
  | T3 _ => Raise Unsupported
  end.

(** Matrix transposition of a list of rows. *)
Definition zip_cons {A} (r : list A) (acc : list (list A)) : list (list A) :=
  map (fun p => fst p :: snd p) (combine r acc).

Definition transpose {A} (m : list (list A)) : list (list A) :=
  fold_right zip_cons (repeat [] (width m)) m.

(** [t.transpose(0, 1)] *)
Definition transpose01 (t : tensor) : result tensor :=
  match t with
  | T1 _ => Raise IndexError
  | T2 m => Ok (T2 (transpose m))
  | T3 c => Ok (T3 (transpose c))
  end.

(** [t.transpose(1, 2)] *)
Definition transpose12 (t : tensor) : result tensor :=
  match t with
  | T3 c => Ok (T3 (map (@transpose F) c))
  | _ => Raise IndexError
  end.

(** [k] consecutive chunks of [n] elements each. *)
Fixpoint chunks {A} (n k : nat) (l : list A) : list (list A) :=
  match k with
  | O => []
  | S k' => firstn n l :: chunks n k' (skipn n l)
  end.

(** [t.view(a, -1, c)] on contiguous storage. *)
Definition view_mid (a c : Z) (t : tensor) : result tensor :=
  let n := Z.of_nat (numel t) in
  if (a <=? 0) || (c <=? 0) then Raise RuntimeError
  else if negb (n mod (a * c) =? 0) then Raise RuntimeError
  else
    let b := Z.to_nat (n / (a * c)) in
    let c' := Z.to_nat c in
    Ok (T3 (map (chunks c' b) (chunks (b * c')%nat (Z.to_nat a) (flatten t)))).

(** [t.view(a, b, -1)] on contiguous storage. *)
Definition view_last (a b : Z) (t : tensor) : result tensor :=
  let n := Z.of_nat (numel t) in
  if (a <=? 0) || (b <=? 0) then Raise RuntimeError
  else if negb (n mod (a * b) =? 0) then Raise RuntimeError
  else
    let c := Z.to_nat (n / (a * b)) in
    let b' := Z.to_nat b in
    Ok (T3 (map (chunks c b') (chunks (b' * c)%nat (Z.to_nat a) (flatten t)))).

(** The shape without its [i]-th extent: what [torch.cat] compares. *)
Definition drop_axis (i : nat) (s : list nat) : list nat :=
  firstn i s ++ skipn (S i) s.

Fixpoint eqb_shape (s s' : list nat) : bool :=
  match s, s' with
  | [], [] => true
  | a :: s, b :: s' => Nat.eqb a b && eqb_shape s s'
  | _, _ => false
  end.

Definition same_but (i : nat) (a b : tensor) : bool :=
  Nat.eqb (ndim a) (ndim b) &&
  eqb_shape (drop_axis i (shape a)) (drop_axis i (shape b)).

Definition app2 {A} (x y : list (list A)) : list (list A) :=
  map (fun p => fst p ++ snd p) (combine x y).

(** [torch.cat((a, b), dim)] for [dim >= 0]. *)
Definition cat_axis (i : nat) (a b : tensor) : result tensor :=
  if negb (same_but i a b) then Raise RuntimeError
  else
    match i, a, b with
    | O, T1 x, T1 y => Ok (T1 (x ++ y))
    | O, T2 x, T2 y => Ok (T2 (x ++ y))
    | O, T3 x, T3 y => Ok (T3 (x ++ y))
    | 1%nat, T2 x, T2 y => Ok (T2 (app2 x y))
    | 1%nat, T3 x, T3 y => Ok (T3 (app2 x y))
    | 2%nat, T3 x, T3 y =>
        Ok (T3 (map (fun p => app2 (fst p) (snd p)) (combine x y)))
    | _, _, _ => Raise IndexError
    end.

(** [torch.cat((a, b), dim)], [dim] possibly negative. *)
Definition cat (dim : Z) (a b : tensor) : result tensor :=
  let d := if dim <? 0 then Z.of_nat (ndim a) + dim else dim in
  if d <? 0 then Raise IndexError else cat_axis (Z.to_nat d) a b.

(** [t[:, k:]] *)
Definition index_1_from (k : Z) (t : tensor) : result tensor :=
  match t with
  | T1 _ => Raise IndexError
  | T2 m => Ok (T2 (map (Py.slice_from k) m))
  | T3 c => Ok (T3 (map (Py.slice_from k) c))
  end.

(** [t[:, :, k:]] *)
Definition index_2_from (k : Z) (t : tensor) : result tensor :=
  match t with
  | T3 c => Ok (T3 (map (map (Py.slice_from k)) c))
  | _ => Raise IndexError
  end.

(** [t[:, :k]] *)
Definition index_1_to (k : Z) (t : tensor) : result tensor :=
  match t with
  | T1 _ => Raise IndexError
  | T2 m => Ok (T2 (map (Py.slice_to k) m))
  | T3 c => Ok (T3 (map (Py.slice_to k) c))
  end.

(** [t[i]] for [i >= 0]; a one-axis tensor would give a scalar. *)
Definition index_0 (i : nat) (t : tensor) : result tensor :=
  match t with
  | T1 _ => Raise Unsupported
  | T2 m => match nth_error m i with
            | Some v => Ok (T1 v)
            | None => Raise IndexError
            end
  | T3 c => match nth_error c i with
            | Some m => Ok (T2 m)
            | None => Raise IndexError
            end
  end.

(** [t.squeeze(1)]: axis 1 is removed when its extent is 1. *)
Definition squeeze1 (t : tensor) : result tensor :=
  match t with
  | T1 _ => Raise IndexError
  | T2 m => Ok (if Nat.eqb (width m) 1 then T1 (concat m) else T2 m)
  | T3 c => Ok (if Nat.eqb (width c) 1 then T2 (map (@concat F) c) else T3 c)
  end.

Definition same_shape (a b : tensor) : bool := eqb_shape (shape a) (shape b).

Fixpoint rows1 (l : list tensor) : result (list (list F)) :=
  match l with
  | [] => Ok []
  | T1 v :: l' => rbind (rows1 l') (fun r => Ok (v :: r))
  | _ :: _ => Raise RuntimeError
  end.

Fixpoint rows2 (l : list tensor) : result (list (list (list F))) :=
  match l with
  | [] => Ok []
  | T2 m :: l' => rbind (rows2 l') (fun r => Ok (m :: r))
  | _ :: _ => Raise RuntimeError
  end.

(** [torch.stack(l)]: a new leading axis over equally shaped tensors. *)
Definition stack (l : list tensor) : result tensor :=
  match l with
  | [] => Raise RuntimeError
  | t :: _ =>
      if negb (forallb (same_shape t) l) then Raise RuntimeError
      else match t with
           | T1 _ => rbind (rows1 l) (fun r => Ok (T2 r))
           | T2 _ => rbind (rows2 l) (fun r => Ok (T3 r))
           | T3 _ => Raise Unsupported
           end
  end.

(** An elementwise function. *)
Definition tmap (f : F -> F) (t : tensor) : tensor :=
  match t with
  | T1 v => T1 (map f v)
  | T2 m => T2 (map (map f) m)
  | T3 c => T3 (map (map (map f)) c)
  end.

(** [torch.sigmoid(t)] *)
Definition tsigmoid : tensor -> tensor := tmap sigmoid.

(** [bool(t > x)]: the truth value of a comparison, defined only for
    a tensor of exactly one element. *)
Definition truth_gt (t : tensor) (x : F) : result bool :=
  match flatten t with
  | [y] => Ok (gtb y x)
  | _ => Raise RuntimeError
  end.

(** [t.data] and [t.detach()] share the values. *)
Definition data (t : tensor) : tensor := t.
Definition detach (t : tensor) : tensor := t.

End Tensor.

(* ================================================================== *)
(** ** Collaborators *)

(** The arguments [Decoder.__init__] hands to [init_attn]. *)
Record AttnArgs : Type := {
  a_attn_type : string;
  a_query_dim : Z;
  a_embedding_dim : Z;
  a_attention_dim : Z;
  a_location_attention : bool;
  a_attention_location_n_filters : Z;
  a_attention_location_kernel_size : Z;
  a_windowing : bool;
  a_norm : string;
  a_forward_attn : bool;
  a_trans_agent : bool;
  a_forward_attn_mask : bool;
  a_attn_K : Z
}.

(** The layers the decoder is built from, each as an object with its
    constructor and its call.  A layer that draws a dropout mask
    threads the state of the random generator; the attention object
    holds its own state (alignment history, window index, the weights
    of its last call) and is replaced by each call. *)
Class Modules {SC : Scalar} : Type := {
  Rng : Type;
  (** [F.dropout(x, p, training)] *)
  F_dropout : tensor -> Q -> bool -> Rng -> tensor * Rng;
  (** [common_layers.Prenet] *)
  Prenet : Type;
  Prenet_new : Z -> string -> bool -> list Z -> bool -> Prenet;
  Prenet_call : Prenet -> tensor -> Rng -> tensor * Rng;
  (** [nn.LSTMCell] *)
  LSTMCell : Type;
  LSTMCell_new : Z -> Z -> bool -> LSTMCell;
  LSTMCell_call : LSTMCell -> tensor -> tensor * tensor -> tensor * tensor;
  (** the attention object [common_layers.init_attn] returns *)
  Attention : Type;
  init_attn : AttnArgs -> Attention;
  preprocess_inputs : Attention -> tensor -> tensor;
  init_states : Attention -> tensor -> Attention;
  init_win_idx : Attention -> Attention;
  Attention_call :
    Attention -> tensor -> tensor -> tensor -> option tensor ->
    tensor * Attention;
  attention_weights : Attention -> tensor;
  (** [common_layers.Linear] *)
  Linear : Type;
  (** [Linear(in, out, bias, init_gain)]; [None] leaves a default *)
  Linear_new : Z -> Z -> option bool -> option string -> Linear;
  Linear_call : Linear -> tensor -> tensor
}.

(* ================================================================== *)
(** ** The decoder object *)

Section Decoder.
Context {SC : Scalar} {MD : Modules}.

(** [nn.Sequential(nn.Dropout(p), Linear(..))] *)
Record Stopnet : Type := {
  stop_dropout : Q;
  stop_linear : Linear
}.

(** The attributes of a [Decoder].  Those assigned outside [__init__]
    (by [_init_states]) are absent until then. *)
Record Decoder : Type := {
  frame_dim : Z;
  r_init : Z;
  r : Z;
  encoder_embedding_dim : Z;
  separate_stopnet : bool;
  max_decoder_steps : Z;
  gate_threshold : Q;
  query_dim : Z;
  decoder_rnn_dim : Z;
  prenet_dim : Z;
  attn_dim : Z;
  p_attention_dropout : Q;
  p_decoder_dropout : Q;
  training : bool;
  prenet : Prenet;
  attention_rnn : LSTMCell;
  attention : Attention;
  decoder_rnn : LSTMCell;
  linear_projection : Linear;
  stopnet : Stopnet;
  memory_truncated : option tensor;
  query : option tensor;
  attention_rnn_cell_state : option tensor;
  decoder_hidden : option tensor;
  decoder_cell : option tensor;
  context : option tensor;
  inputs : option tensor;
  processed_inputs : option tensor;
  mask : option (option tensor)
}.

(** Assignment to one attribute. *)
Definition with_r (v : Z) (d : Decoder) : Decoder :=
    {| frame_dim := frame_dim d; r_init := r_init d; r := v;
       encoder_embedding_dim := encoder_embedding_dim d;
       separate_stopnet := separate_stopnet d;
       max_decoder_steps := max_decoder_steps d;
       gate_threshold := gate_threshold d; query_dim := query_dim d;
       decoder_rnn_dim := decoder_rnn_dim d; prenet_dim := prenet_dim d;
       attn_dim := attn_dim d; p_attention_dropout := p_attention_dropout d;
       p_decoder_dropout := p_decoder_dropout d; training := training d;
       prenet := prenet d; attention_rnn := attention_rnn d;
       attention := attention d; decoder_rnn := decoder_rnn d;
       linear_projection := linear_projection d; stopnet := stopnet d;
       memory_truncated := memory_truncated d; query := query d;
       attention_rnn_cell_state := attention_rnn_cell_state d;
       decoder_hidden := decoder_hidden d; decoder_cell := decoder_cell d;
       context := context d; inputs := inputs d;
       processed_inputs := processed_inputs d; mask := mask d |}.

Definition with_gate_threshold (v : Q) (d : Decoder) : Decoder :=
    {| frame_dim := frame_dim d; r_init := r_init d; r := r d;
       encoder_embedding_dim := encoder_embedding_dim d;
       separate_stopnet := separate_stopnet d;
       max_decoder_steps := max_decoder_steps d; gate_threshold := v;
       query_dim := query_dim d; decoder_rnn_dim := decoder_rnn_dim d;
       prenet_dim := prenet_dim d; attn_dim := attn_dim d;
       p_attention_dropout := p_attention_dropout d;
       p_decoder_dropout := p_decoder_dropout d; training := training d;
       prenet := prenet d; attention_rnn := attention_rnn d;
       attention := attention d; decoder_rnn := decoder_rnn d;
       linear_projection := linear_projection d; stopnet := stopnet d;
       memory_truncated := memory_truncated d; query := query d;
       attention_rnn_cell_state := attention_rnn_cell_state d;
       decoder_hidden := decoder_hidden d; decoder_cell := decoder_cell d;
       context := context d; inputs := inputs d;
       processed_inputs := processed_inputs d; mask := mask d |}.

Definition with_attention (v : Attention) (d : Decoder) : Decoder :=
    {| frame_dim := frame_dim d; r_init := r_init d; r := r d;
       encoder_embedding_dim := encoder_embedding_dim d;
       separate_stopnet := separate_stopnet d;
       max_decoder_steps := max_decoder_steps d;
       gate_threshold := gate_threshold d; query_dim := query_dim d;
       decoder_rnn_dim := decoder_rnn_dim d; prenet_dim := prenet_dim d;
       attn_dim := attn_dim d; p_attention_dropout := p_attention_dropout d;
       p_decoder_dropout := p_decoder_dropout d; training := training d;
       prenet := prenet d; attention_rnn := attention_rnn d; attention := v;
       decoder_rnn := decoder_rnn d;
       linear_projection := linear_projection d; stopnet := stopnet d;
       memory_truncated := memory_truncated d; query := query d;
       attention_rnn_cell_state := attention_rnn_cell_state d;
       decoder_hidden := decoder_hidden d; decoder_cell := decoder_cell d;
       context := context d; inputs := inputs d;
       processed_inputs := processed_inputs d; mask := mask d |}.

Definition with_memory_truncated (v : option tensor) (d : Decoder) : Decoder :=
    {| frame_dim := frame_dim d; r_init := r_init d; r := r d;
       encoder_embedding_dim := encoder_embedding_dim d;
       separate_stopnet := separate_stopnet d;
       max_decoder_steps := max_decoder_steps d;
       gate_threshold := gate_threshold d; query_dim := query_dim d;
       decoder_rnn_dim := decoder_rnn_dim d; prenet_dim := prenet_dim d;
       attn_dim := attn_dim d; p_attention_dropout := p_attention_dropout d;
       p_decoder_dropout := p_decoder_dropout d; training := training d;
       prenet := prenet d; attention_rnn := attention_rnn d;
       attention := attention d; decoder_rnn := decoder_rnn d;
       linear_projection := linear_projection d; stopnet := stopnet d;
       memory_truncated := v; query := query d;
       attention_rnn_cell_state := attention_rnn_cell_state d;
       decoder_hidden := decoder_hidden d; decoder_cell := decoder_cell d;
       context := context d; inputs := inputs d;
       processed_inputs := processed_inputs d; mask := mask d |}.

Definition with_query (v : option tensor) (d : Decoder) : Decoder :=
    {| frame_dim := frame_dim d; r_init := r_init d; r := r d;
       encoder_embedding_dim := encoder_embedding_dim d;
       separate_stopnet := separate_stopnet d;
       max_decoder_steps := max_decoder_steps d;
       gate_threshold := gate_threshold d; query_dim := query_dim d;
       decoder_rnn_dim := decoder_rnn_dim d; prenet_dim := prenet_dim d;
       attn_dim := attn_dim d; p_attention_dropout := p_attention_dropout d;
       p_decoder_dropout := p_decoder_dropout d; training := training d;
       prenet := prenet d; attention_rnn := attention_rnn d;
       attention := attention d; decoder_rnn := decoder_rnn d;
       linear_projection := linear_projection d; stopnet := stopnet d;
       memory_truncated := memory_truncated d; query := v;
       attention_rnn_cell_state := attention_rnn_cell_state d;
       decoder_hidden := decoder_hidden d; decoder_cell := decoder_cell d;
       context := context d; inputs := inputs d;
       processed_inputs := processed_inputs d; mask := mask d |}.

Definition with_attention_rnn_cell_state (v : option tensor) (d : Decoder) : Decoder :=
    {| frame_dim := frame_dim d; r_init := r_init d; r := r d;
       encoder_embedding_dim := encoder_embedding_dim d;
       separate_stopnet := separate_stopnet d;
       max_decoder_steps := max_decoder_steps d;
       gate_threshold := gate_threshold d; query_dim := query_dim d;
       decoder_rnn_dim := decoder_rnn_dim d; prenet_dim := prenet_dim d;
       attn_dim := attn_dim d; p_attention_dropout := p_attention_dropout d;
       p_decoder_dropout := p_decoder_dropout d; training := training d;
       prenet := prenet d; attention_rnn := attention_rnn d;
       attention := attention d; decoder_rnn := decoder_rnn d;
       linear_projection := linear_projection d; stopnet := stopnet d;
       memory_truncated := memory_truncated d; query := query d;
       attention_rnn_cell_state := v; decoder_hidden := decoder_hidden d;
       decoder_cell := decoder_cell d; context := context d;
       inputs := inputs d; processed_inputs := processed_inputs d;
       mask := mask d |}.

Definition with_decoder_hidden (v : option tensor) (d : Decoder) : Decoder :=
    {| frame_dim := frame_dim d; r_init := r_init d; r := r d;
       encoder_embedding_dim := encoder_embedding_dim d;
       separate_stopnet := separate_stopnet d;
       max_decoder_steps := max_decoder_steps d;
       gate_threshold := gate_threshold d; query_dim := query_dim d;
       decoder_rnn_dim := decoder_rnn_dim d; prenet_dim := prenet_dim d;
       attn_dim := attn_dim d; p_attention_dropout := p_attention_dropout d;
       p_decoder_dropout := p_decoder_dropout d; training := training d;
       prenet := prenet d; attention_rnn := attention_rnn d;
       attention := attention d; decoder_rnn := decoder_rnn d;
       linear_projection := linear_projection d; stopnet := stopnet d;
       memory_truncated := memory_truncated d; query := query d;
       attention_rnn_cell_state := attention_rnn_cell_state d;
       decoder_hidden := v; decoder_cell := decoder_cell d;
       context := context d; inputs := inputs d;
       processed_inputs := processed_inputs d; mask := mask d |}.

Definition with_decoder_cell (v : option tensor) (d : Decoder) : Decoder :=
    {| frame_dim := frame_dim d; r_init := r_init d; r := r d;
       encoder_embedding_dim := encoder_embedding_dim d;
       separate_stopnet := separate_stopnet d;
       max_decoder_steps := max_decoder_steps d;
       gate_threshold := gate_threshold d; query_dim := query_dim d;
       decoder_rnn_dim := decoder_rnn_dim d; prenet_dim := prenet_dim d;
       attn_dim := attn_dim d; p_attention_dropout := p_attention_dropout d;
       p_decoder_dropout := p_decoder_dropout d; training := training d;
       prenet := prenet d; attention_rnn := attention_rnn d;
       attention := attention d; decoder_rnn := decoder_rnn d;
       linear_projection := linear_projection d; stopnet := stopnet d;
       memory_truncated := memory_truncated d; query := query d;
       attention_rnn_cell_state := attention_rnn_cell_state d;
       decoder_hidden := decoder_hidden d; decoder_cell := v;
       context := context d; inputs := inputs d;
       processed_inputs := processed_inputs d; mask := mask d |}.

Definition with_context (v : option tensor) (d : Decoder) : Decoder :=
    {| frame_dim := frame_dim d; r_init := r_init d; r := r d;
       encoder_embedding_dim := encoder_embedding_dim d;
       separate_stopnet := separate_stopnet d;
       max_decoder_steps := max_decoder_steps d;
       gate_threshold := gate_threshold d; query_dim := query_dim d;
       decoder_rnn_dim := decoder_rnn_dim d; prenet_dim := prenet_dim d;
       attn_dim := attn_dim d; p_attention_dropout := p_attention_dropout d;
       p_decoder_dropout := p_decoder_dropout d; training := training d;
       prenet := prenet d; attention_rnn := attention_rnn d;
       attention := attention d; decoder_rnn := decoder_rnn d;
       linear_projection := linear_projection d; stopnet := stopnet d;
       memory_truncated := memory_truncated d; query := query d;
       attention_rnn_cell_state := attention_rnn_cell_state d;
       decoder_hidden := decoder_hidden d; decoder_cell := decoder_cell d;
       context := v; inputs := inputs d;
       processed_inputs := processed_inputs d; mask := mask d |}.

Definition with_inputs (v : option tensor) (d : Decoder) : Decoder :=
    {| frame_dim := frame_dim d; r_init := r_init d; r := r d;
       encoder_embedding_dim := encoder_embedding_dim d;
       separate_stopnet := separate_stopnet d;
       max_decoder_steps := max_decoder_steps d;
       gate_threshold := gate_threshold d; query_dim := query_dim d;
       decoder_rnn_dim := decoder_rnn_dim d; prenet_dim := prenet_dim d;
       attn_dim := attn_dim d; p_attention_dropout := p_attention_dropout d;
       p_decoder_dropout := p_decoder_dropout d; training := training d;
       prenet := prenet d; attention_rnn := attention_rnn d;
       attention := attention d; decoder_rnn := decoder_rnn d;
       linear_projection := linear_projection d; stopnet := stopnet d;
       memory_truncated := memory_truncated d; query := query d;
       attention_rnn_cell_state := attention_rnn_cell_state d;
       decoder_hidden := decoder_hidden d; decoder_cell := decoder_cell d;
       context := context d; inputs := v;
       processed_inputs := processed_inputs d; mask := mask d |}.

Definition with_processed_inputs (v : option tensor) (d : Decoder) : Decoder :=
    {| frame_dim := frame_dim d; r_init := r_init d; r := r d;
       encoder_embedding_dim := encoder_embedding_dim d;
       separate_stopnet := separate_stopnet d;
       max_decoder_steps := max_decoder_steps d;
       gate_threshold := gate_threshold d; query_dim := query_dim d;
       decoder_rnn_dim := decoder_rnn_dim d; prenet_dim := prenet_dim d;
       attn_dim := attn_dim d; p_attention_dropout := p_attention_dropout d;
       p_decoder_dropout := p_decoder_dropout d; training := training d;
       prenet := prenet d; attention_rnn := attention_rnn d;
       attention := attention d; decoder_rnn := decoder_rnn d;
       linear_projection := linear_projection d; stopnet := stopnet d;
       memory_truncated := memory_truncated d; query := query d;
       attention_rnn_cell_state := attention_rnn_cell_state d;
       decoder_hidden := decoder_hidden d; decoder_cell := decoder_cell d;
       context := context d; inputs := inputs d; processed_inputs := v;
       mask := mask d |}.

Definition with_mask (v : option (option tensor)) (d : Decoder) : Decoder :=
    {| frame_dim := frame_dim d; r_init := r_init d; r := r d;
       encoder_embedding_dim := encoder_embedding_dim d;
       separate_stopnet := separate_stopnet d;
       max_decoder_steps := max_decoder_steps d;
       gate_threshold := gate_threshold d; query_dim := query_dim d;
       decoder_rnn_dim := decoder_rnn_dim d; prenet_dim := prenet_dim d;
       attn_dim := attn_dim d; p_attention_dropout := p_attention_dropout d;
       p_decoder_dropout := p_decoder_dropout d; training := training d;
       prenet := prenet d; attention_rnn := attention_rnn d;
       attention := attention d; decoder_rnn := decoder_rnn d;
       linear_projection := linear_projection d; stopnet := stopnet d;
       memory_truncated := memory_truncated d; query := query d;
       attention_rnn_cell_state := attention_rnn_cell_state d;
       decoder_hidden := decoder_hidden d; decoder_cell := decoder_cell d;
       context := context d; inputs := inputs d;
       processed_inputs := processed_inputs d; mask := v |}.

(** What a run can touch: the decoder, the random generator and the
    standard output. *)
Record World : Type := {
  self : Decoder;
  rng : Rng;
  stdout : list string
}.

Definition with_self (d : Decoder) (w : World) : World :=
  {| self := d; rng := rng w; stdout := stdout w |}.

Definition with_rng (g : Rng) (w : World) : World :=
  {| self := self w; rng := g; stdout := stdout w |}.

Definition with_stdout (o : list string) (w : World) : World :=
  {| self := self w; rng := rng w; stdout := o |}.

(** *** The monad of methods: state and exceptions *)

Definition M (A : Type) : Type := World -> result (A * World).

Definition ret {A} (a : A) : M A := fun w => Ok (a, w).

Definition bind {A B} (m : M A) (k : A -> M B) : M B :=
  fun w =>
    match m w with
    | Ok (a, w') => k a w'
    | Raise e => Raise e
    end.

Definition raise {A} (e : exn) : M A := fun _ => Raise e.

Definition lift {A} (x : result A) : M A :=
  fun w =>
    match x with
    | Ok a => Ok (a, w)
    | Raise e => Raise e
    end.

(** Reading [self.f] *)
Definition get {A} (f : Decoder -> A) : M A := fun w => Ok (f (self w), w).

(** Reading an attribute that may not have been assigned yet *)
Definition attr {A} (f : Decoder -> option A) : M A :=
  fun w =>
    match f (self w) with
    | Some a => Ok (a, w)
    | None => Raise AttributeError
    end.

(** [self.f = v] *)
Definition assign (upd : Decoder -> Decoder) : M unit :=
  fun w => Ok (tt, with_self (upd (self w)) w).

(** A call that draws from the random generator *)
Definition draw {A} (f : Rng -> A * Rng) : M A :=
  fun w => let (a, g) := f (rng w) in Ok (a, with_rng g w).

(** [print(s)] *)
Definition print (s : string) : M unit :=
  fun w => Ok (tt, with_stdout (stdout w ++ [s]) w).

End Decoder.

Declare Scope method_scope.
Delimit Scope method_scope with method.
Notation "x <- m ;; k" := (bind m (fun x => k))
  (at level 100, m at next level, right associativity) : method_scope.
Notation "' p <- m ;; k" := (bind m (fun x => match x with p => k end))
  (at level 100, p pattern, m at next level, right associativity) : method_scope.
Notation "m ;;; k" := (bind m (fun _ => k))
  (at level 100, right associativity) : method_scope.

Local Open Scope method_scope.

(* ================================================================== *)
(** ** The methods of [Decoder] *)

Section Methods.
Context {SC : Scalar} {MD : Modules}.

(** [Decoder.__init__]; [nn.Module.__init__] leaves the module in
    training mode. *)
Definition __init__
  (input_dim frame_dim r : Z) (attn_type : string) (attn_win : bool)
  (attn_norm prenet_type : string)
  (prenet_dropout forward_attn trans_agent forward_attn_mask
     location_attn : bool)
  (attn_K : Z) (separate_stopnet : bool) (speaker_embedding_dim : Z)
  : Decoder :=
  let query_dim := 1024 in
  let decoder_rnn_dim := 1024 in
  let prenet_dim := 256 in
  {| frame_dim := frame_dim;
     r_init := r;
     r := r;
     encoder_embedding_dim := input_dim;
     separate_stopnet := separate_stopnet;
     max_decoder_steps := 1000000;
     gate_threshold := 0.5%Q;
     query_dim := query_dim;
     decoder_rnn_dim := decoder_rnn_dim;
     prenet_dim := prenet_dim;
     attn_dim := 128;
     p_attention_dropout := 0.1%Q;
     p_decoder_dropout := 0.1%Q;
     training := true;
     prenet :=
       Prenet_new frame_dim prenet_type prenet_dropout
                  [prenet_dim; prenet_dim] false;
     attention_rnn := LSTMCell_new (prenet_dim + input_dim) query_dim true;
     attention :=
       init_attn
         {| a_attn_type := attn_type;
            a_query_dim := query_dim;
            a_embedding_dim := input_dim;
            a_attention_dim := 128;
            a_location_attention := location_attn;
            a_attention_location_n_filters := 32;
            a_attention_location_kernel_size := 31;
            a_windowing := attn_win;
            a_norm := attn_norm;
            a_forward_attn := forward_attn;
            a_trans_agent := trans_agent;
            a_forward_attn_mask := forward_attn_mask;
            a_attn_K := attn_K |};
     decoder_rnn := LSTMCell_new (query_dim + input_dim) decoder_rnn_dim true;
     linear_projection :=
       Linear_new (decoder_rnn_dim + input_dim) (frame_dim * r) None None;
     stopnet :=
       {| stop_dropout := 0.1%Q;
          stop_linear :=
            Linear_new (decoder_rnn_dim + frame_dim * r) 1
                       (Some true) (Some "sigmoid"%string) |};
     memory_truncated := None;
     query := None;
     attention_rnn_cell_state := None;
     decoder_hidden := None;
     decoder_cell := None;
     context := None;
     inputs := None;
     processed_inputs := None;
     mask := None |}.


(** [get_go_frame] *)
Definition get_go_frame (inputs : tensor) : M tensor :=
  B <- lift (size 0 inputs) ;;
  fd <- get frame_dim ;;
  r_ <- get r ;;
  lift (zeros_repeat B (fd * r_)).

(** [_init_states] *)
Definition _init_states
  (inputs : tensor) (mask : option tensor) (keep_states : bool) : M unit :=
  B <- lift (size 0 inputs) ;;
  (if negb keep_states then
     qd <- get query_dim ;;
     z <- lift (zeros_repeat B qd) ;;
     assign (with_query (Some z)) ;;;
     qd <- get query_dim ;;
     z <- lift (zeros_repeat B qd) ;;
     assign (with_attention_rnn_cell_state (Some z)) ;;;
     dd <- get decoder_rnn_dim ;;
     z <- lift (zeros_repeat B dd) ;;
     assign (with_decoder_hidden (Some z)) ;;;
     dd <- get decoder_rnn_dim ;;
     z <- lift (zeros_repeat B dd) ;;
     assign (with_decoder_cell (Some z)) ;;;
     ed <- get encoder_embedding_dim ;;
     z <- lift (zeros_repeat B ed) ;;
     assign (with_context (Some z))
   else ret tt) ;;;
  assign (with_inputs (Some inputs)) ;;;
  att <- get attention ;;
  assign (with_processed_inputs (Some (preprocess_inputs att inputs))) ;;;
  assign (with_mask (Some mask)).

(** [_reshape_memory] *)
Definition _reshape_memory (memory : tensor) : M tensor :=
  fd <- get frame_dim ;;
  memory <-
    (if size_last memory =? fd then
       s0 <- lift (size 0 memory) ;;
       s1 <- lift (size 1 memory) ;;
       r_ <- get r ;;
       groups <- lift (Py.floordiv s1 r_) ;;
       lift (view_last s0 groups memory)
     else ret memory) ;;
  lift (transpose01 memory).

(** [_parse_outputs] *)
Definition _parse_outputs
  (outputs stop_tokens alignments : list tensor)
  : M (tensor * tensor * tensor) :=
  alignments <- lift (rbind (stack alignments) transpose01) ;;
  stop_tokens <- lift (rbind (stack stop_tokens) transpose01) ;;
  outputs <- lift (rbind (stack outputs) transpose01) ;;
  s0 <- lift (size 0 outputs) ;;
  fd <- get frame_dim ;;
  outputs <- lift (view_mid s0 fd outputs) ;;
  outputs <- lift (transpose12 outputs) ;;
  ret (outputs, stop_tokens, alignments).

(** [_update_memory] *)
Definition _update_memory (memory : tensor) : M tensor :=
  fd <- get frame_dim ;;
  r_ <- get r ;;
  if Nat.eqb (ndim memory) 2
  then lift (index_1_from (fd * (r_ - 1)) memory)
  else lift (index_2_from (fd * (r_ - 1)) memory).

(** [self.stopnet(x)]: the dropout, then the linear layer. *)
Definition call_stopnet (x : tensor) : M tensor :=
  sn <- get stopnet ;;
  tr <- get training ;;
  y <- draw (F_dropout x (stop_dropout sn) tr) ;;
  ret (Linear_call (stop_linear sn) y).

(** [decode] *)
Definition decode (memory : tensor) : M (tensor * tensor * tensor) :=
  ctx <- attr context ;;
  query_input <- lift (cat (-1) memory ctx) ;;
  cell <- get attention_rnn ;;
  q <- attr query ;;
  c <- attr attention_rnn_cell_state ;;
  let (q, c) := LSTMCell_call cell query_input (q, c) in
  assign (with_query (Some q)) ;;;
  assign (with_attention_rnn_cell_state (Some c)) ;;;
  p <- get p_attention_dropout ;;
  tr <- get training ;;
  q <- draw (F_dropout q p tr) ;;
  assign (with_query (Some q)) ;;;
  c <- attr attention_rnn_cell_state ;;
  p <- get p_attention_dropout ;;
  tr <- get training ;;
  c <- draw (F_dropout c p tr) ;;
  assign (with_attention_rnn_cell_state (Some c)) ;;;
  att <- get attention ;;
  q <- attr query ;;
  inp <- attr inputs ;;
  pin <- attr processed_inputs ;;
  msk <- attr mask ;;
  let (ctx, att) := Attention_call att q inp pin msk in
  assign (with_attention att) ;;;
  assign (with_context (Some ctx)) ;;;
  q <- attr query ;;
  ctx <- attr context ;;
  decoder_rnn_input <- lift (cat (-1) q ctx) ;;
  cell <- get decoder_rnn ;;
  h <- attr decoder_hidden ;;
  dc <- attr decoder_cell ;;
  let (h, dc) := LSTMCell_call cell decoder_rnn_input (h, dc) in
  assign (with_decoder_hidden (Some h)) ;;;
  assign (with_decoder_cell (Some dc)) ;;;
  p <- get p_decoder_dropout ;;
  tr <- get training ;;
  h <- draw (F_dropout h p tr) ;;
  assign (with_decoder_hidden (Some h)) ;;;
  ctx <- attr context ;;
  decoder_hidden_context <- lift (cat 1 h ctx) ;;
  lp <- get linear_projection ;;
  let decoder_output := Linear_call lp decoder_hidden_context in
  h <- attr decoder_hidden ;;
  stopnet_input <- lift (cat 1 h decoder_output) ;;
  sep <- get separate_stopnet ;;
  stop_token <-
    (if sep then call_stopnet (detach stopnet_input)
     else call_stopnet stopnet_input) ;;
  r_ <- get r ;;
  fd <- get frame_dim ;;
  decoder_output <- lift (index_1_to (r_ * fd) decoder_output) ;;
  att <- get attention ;;
  ret (decoder_output, attention_weights att, stop_token).

End Methods.

(* ================================================================== *)
(** ** The driving loops *)

Section Runs.
Context {SC : Scalar} {MD : Modules}.

(** The three lists every loop collects. *)
Record Collected : Type := {
  outputs : list tensor;
  stop_tokens : list tensor;
  alignments : list tensor
}.

Definition nothing : Collected :=
  {| outputs := []; stop_tokens := []; alignments := [] |}.

(** [outputs += [o]; stop_tokens += [s]; alignments += [a]] *)
Definition collect (o s a : tensor) (acc : Collected) : Collected :=
  {| outputs := outputs acc ++ [o];
     stop_tokens := stop_tokens acc ++ [s];
     alignments := alignments acc ++ [a] |}.

(** *** Teacher forcing *)

(** The [while] loop of [forward].  Every iteration lengthens
    [outputs], so [memories.size(0)] iterations always suffice. *)
Fixpoint forward_loop (fuel : nat) (memories : tensor) (acc : Collected)
  : M Collected :=
  n <- lift (size 0 memories) ;;
  if Py.len (outputs acc) <? n - 1 then
    match fuel with
    | O => raise OutOfFuel
    | S fuel' =>
        memory <- lift (index_0 (length (outputs acc)) memories) ;;
        ' (decoder_output, attention_weights, stop_token) <- decode memory ;;
        o <- lift (squeeze1 decoder_output) ;;
        s <- lift (squeeze1 stop_token) ;;
        forward_loop fuel' memories (collect o s attention_weights acc)
    end
  else ret acc.

(** Lines 250 to 259 of [forward]: the teacher inputs of all steps
    and the reset of the state. *)
Definition forward_setup
  (inputs memories : tensor) (mask speaker_embeddings : option tensor)
  : M tensor :=
  go <- get_go_frame inputs ;;
  memory <- lift (unsqueeze0 go) ;;
  memories <- _reshape_memory memories ;;
  memories <- lift (cat 0 memory memories) ;;
  memories <- _update_memory memories ;;
  memories <-
    match speaker_embeddings with
    | Some e => lift (cat (-1) memories e)
    | None => ret memories
    end ;;
  pn <- get prenet ;;
  memories <- draw (Prenet_call pn memories) ;;
  _init_states inputs mask false ;;;
  att <- get attention ;;
  assign (with_attention (init_states att inputs)) ;;;
  ret memories.

(** [forward], up to the end of its loop. *)
Definition forward_run
  (inputs memories : tensor) (mask speaker_embeddings : option tensor)
  : M Collected :=
  memories <- forward_setup inputs memories mask speaker_embeddings ;;
  forward_loop (hd O (shape memories)) memories nothing.

(** [forward] *)
Definition forward
  (inputs memories : tensor) (mask speaker_embeddings : option tensor)
  : M (tensor * tensor * tensor) :=
  acc <- forward_run inputs memories mask speaker_embeddings ;;
  ' (outputs, stop_tokens, alignments) <-
    _parse_outputs (outputs acc) (stop_tokens acc) (alignments acc) ;;
  ret (outputs, alignments, stop_tokens).

(** *** Free-running inference *)

(** How one iteration of an inference loop ends. *)
Inductive ctl : Set :=
| Break_gate      (* the stop-gate [break] *)
| Break_ceiling   (* the [max_decoder_steps] [break] *)
| Continue.

(** The local variables of an inference loop. *)
Record Locals : Type := {
  memory : tensor;
  collected : Collected;
  t : Z
}.

(** [t > n / 2], an integer against a true quotient. *)
Definition gt_half (t n : Z) : bool :=
  negb (Qle_bool (inject_Z t) (inject_Z n / 2)).

Definition diagnostic : string :=
  "   | > Decoder stopped with 'max_decoder_steps"%string.

(** One iteration of the loop of [inference]. *)
Definition inference_body
  (inputs : tensor) (speaker_embeddings : option tensor) (l : Locals)
  : M (ctl * Locals) :=
  pn <- get prenet ;;
  memory <- draw (Prenet_call pn (memory l)) ;;
  memory <-
    match speaker_embeddings with
    | Some e => lift (cat (-1) memory e)
    | None => ret memory
    end ;;
  ' (decoder_output, alignment, stop_token) <- decode memory ;;
  let stop_token := tsigmoid (data stop_token) in
  o <- lift (squeeze1 decoder_output) ;;
  let acc := collect o stop_token alignment (collected l) in
  above <- lift (truth_gt stop_token (const 0.7%Q)) ;;
  gate <-
    (if above then
       n <- lift (size 0 inputs) ;;
       ret (gt_half (t l) n)
     else ret false) ;;
  if gate then
    ret (Break_gate, {| memory := memory; collected := acc; t := t l |})
  else
    mx <- get max_decoder_steps ;;
    if Py.len (outputs acc) =? mx then
      print diagnostic ;;;
      ret (Break_ceiling, {| memory := memory; collected := acc; t := t l |})
    else
      memory <- _update_memory decoder_output ;;
      ret (Continue, {| memory := memory; collected := acc; t := t l + 1 |}).

(** [while True: ...] *)
Fixpoint inference_loop
  (fuel : nat) (inputs : tensor) (speaker_embeddings : option tensor)
  (l : Locals) : M Locals :=
  match fuel with
  | O => raise OutOfFuel
  | S fuel' =>
      ' (c, l') <- inference_body inputs speaker_embeddings l ;;
      match c with
      | Continue => inference_loop fuel' inputs speaker_embeddings l'
      | _ => ret l'
      end
  end.

(** Lines 274 to 280 of [inference]: the first input and the reset
    of the state. *)
Definition inference_setup (inputs : tensor) : M Locals :=
  memory <- get_go_frame inputs ;;
  memory <- _update_memory memory ;;
  _init_states inputs None false ;;;
  att <- get attention ;;
  assign (with_attention (init_states att inputs)) ;;;
  ret {| memory := memory; collected := nothing; t := 0 |}.

(** [inference], up to the end of its loop. *)
Definition inference_run
  (fuel : nat) (inputs : tensor) (speaker_embeddings : option tensor)
  : M Locals :=
  l <- inference_setup inputs ;;
  inference_loop fuel inputs speaker_embeddings l.

(** [inference] *)
Definition inference
  (fuel : nat) (inputs : tensor) (speaker_embeddings : option tensor)
  : M (tensor * tensor * tensor) :=
  l <- inference_run fuel inputs speaker_embeddings ;;
  let acc := collected l in
  ' (outputs, stop_tokens, alignments) <-
    _parse_outputs (outputs acc) (stop_tokens acc) (alignments acc) ;;
  ret (outputs, alignments, stop_tokens).

(** *** Truncated inference *)

(** What [inference_truncated] does before its loop. *)
Definition inference_truncated_entry (inputs : tensor) : M unit :=
  mt <- get memory_truncated ;;
  match mt with
  | None =>
      go <- get_go_frame inputs ;;
      assign (with_memory_truncated (Some go)) ;;;
      _init_states inputs None false
  | Some _ => _init_states inputs None true
  end ;;;
  att <- get attention ;;
  assign (with_attention (init_win_idx att)) ;;;
  att <- get attention ;;
  assign (with_attention (init_states att inputs)).

(** One iteration of the loop of [inference_truncated]; the local
    [stop_flags] is never read. *)
Definition inference_truncated_body (acc : Collected) (t : Z)
  : M (ctl * (Collected * Z)) :=
  pn <- get prenet ;;
  mt <- attr memory_truncated ;;
  memory <- draw (Prenet_call pn mt) ;;
  ' (decoder_output, alignment, stop_token) <- decode memory ;;
  let stop_token := tsigmoid (data stop_token) in
  o <- lift (squeeze1 decoder_output) ;;
  let acc := collect o stop_token alignment acc in
  above <- lift (truth_gt stop_token (const 0.7%Q)) ;;
  if above then ret (Break_gate, (acc, t))
  else
    mx <- get max_decoder_steps ;;
    if Py.len (outputs acc) =? mx then
      print diagnostic ;;;
      ret (Break_ceiling, (acc, t))
    else
      assign (with_memory_truncated (Some decoder_output)) ;;;
      ret (Continue, (acc, t + 1)).

Fixpoint inference_truncated_loop (fuel : nat) (acc : Collected) (t : Z)
  : M (Collected * Z) :=
  match fuel with
  | O => raise OutOfFuel
  | S fuel' =>
      ' (c, (acc', t')) <- inference_truncated_body acc t ;;
      match c with
      | Continue => inference_truncated_loop fuel' acc' t'
      | _ => ret (acc', t')
      end
  end.

(** [inference_truncated], up to the end of its loop. *)
Definition inference_truncated_run (fuel : nat) (inputs : tensor)
  : M Collected :=
  inference_truncated_entry inputs ;;;
  ' (acc, _) <- inference_truncated_loop fuel nothing 0 ;;
  ret acc.

(** [inference_truncated] *)
Definition inference_truncated (fuel : nat) (inputs : tensor)
  : M (tensor * tensor * tensor) :=
  acc <- inference_truncated_run fuel inputs ;;
  ' (outputs, stop_tokens, alignments) <-
    _parse_outputs (outputs acc) (stop_tokens acc) (alignments acc) ;;
  ret (outputs, alignments, stop_tokens).

(** *** The single-step entry point *)

(** [inference_step]; the names on the left of the unpacking are the
    source's. *)
Definition inference_step (inputs : tensor) (t : Z) (memory : option tensor)
  : M (tensor * tensor * tensor) :=
  memory <-
    (if t =? 0 then
       go <- get_go_frame inputs ;;
       _init_states inputs None false ;;;
       ret (Some go)
     else ret memory) ;;
  memory <-
    match memory with
    | Some m => pn <- get prenet ;; draw (Prenet_call pn m)
    | None => raise TypeError
    end ;;
  ' (decoder_output, stop_token, alignment) <- decode memory ;;
  let stop_token := tsigmoid (data stop_token) in
  let memory := decoder_output in
  ret (decoder_output, stop_token, alignment).

End Runs.

(* ================================================================== *)
(** ** A small network to run the decoder on *)

(** Rational scalars and layers simple enough to evaluate by hand.
    The stop layer has zero weights and bias [logit], so every step
    predicts the same stop-logit; the projection has zero weights and
    bias 0; the recurrent cells keep their state; attention puts all
    its weight on the first encoder position; a dropout in training
    mode drops nothing and rescales. *)
Module Toy.

Local Open Scope Q_scope.

(** An increasing map onto (0, 1) with value 1/2 at 0; it lies on the
    same side of 0.7 as the logistic function for every logit used
    below (0 and 20). *)
Definition soft_sigmoid (x : Q) : Q :=
  (1 # 2) + x / (2 * (1 + Qabs x)).

#[export] Instance scalar : Scalar := {|
  F := Q;
  const := fun q => q;
  gtb := fun x y => negb (Qle_bool x y);
  sigmoid := soft_sigmoid
|}.

Definition zero_rows (w : Z) (m : list (list Q)) : list (list Q) :=
  map (fun _ => repeat 0 (Z.to_nat w)) m.

Record linear : Type := { l_in : Z; l_out : Z; l_bias : Q }.

Record attn : Type := { a_weights : tensor }.

(** Weight 1 on position 0 of each of [n] positions. *)
Definition one_hot (n : nat) : list Q :=
  match n with
  | O => []
  | S n' => 1 :: repeat 0 n'
  end.

Definition first_position (x : tensor) : tensor :=
  match x with
  | T3 c => T2 (map (fun m => hd [] m) c)
  | _ => x
  end.

Definition first_weights (x : tensor) : tensor :=
  match x with
  | T3 c => T2 (map (fun m => one_hot (length m)) c)
  | _ => x
  end.

Definition modules (logit : Q) : Modules := {|
  Rng := nat;
  F_dropout := fun x p training g =>
    if training then (tmap (fun v => v / (1 - p)) x, S g) else (x, g);
  Prenet := list Z;
  Prenet_new := fun _ _ _ out _ => out;
  Prenet_call := fun p x g =>
    (match x with
     | T1 v => T1 (repeat 0 (Z.to_nat (last p 0%Z)))
     | T2 m => T2 (zero_rows (last p 0%Z) m)
     | T3 c => T3 (map (zero_rows (last p 0%Z)) c)
     end, S g);
  LSTMCell := Z * Z;
  LSTMCell_new := fun i h _ => (i, h);
  LSTMCell_call := fun _ _ hc => hc;
  Attention := attn;
  init_attn := fun _ => {| a_weights := T2 [] |};
  preprocess_inputs := fun _ x => x;
  init_states := fun a x => {| a_weights := first_weights x |};
  init_win_idx := fun a => a;
  Attention_call := fun a q x px msk =>
    (first_position x, {| a_weights := first_weights x |});
  attention_weights := a_weights;
  Linear := linear;
  Linear_new := fun i o _ gain =>
    {| l_in := i; l_out := o;
       l_bias := match gain with Some _ => logit | None => 0 end |};
  Linear_call := fun l x =>
    match x with
    | T1 v => T1 (repeat (l_bias l) (Z.to_nat (l_out l)))
    | T2 m => T2 (map (fun _ => repeat (l_bias l) (Z.to_nat (l_out l))) m)
    | T3 c =>
        T3 (map (map (fun _ => repeat (l_bias l) (Z.to_nat (l_out l)))) c)
    end
|}.

(** [Decoder(input_dim=2, frame_dim=2, r=2, ...)] *)
Definition decoder (logit : Q) : @Decoder scalar (modules logit) :=
  @__init__ scalar (modules logit)
    2 2 2 "original" false "sigmoid" "original"
    true false false false true 5 true 0.

Definition world (logit : Q) : @World scalar (modules logit) :=
  {| self := decoder logit; rng := O; stdout := [] |}.

(** The world a first call of [inference_truncated] on three encoder
    positions finds at the top of its loop. *)
Definition started (logit : Q) : @World scalar (modules logit) :=
  match @inference_truncated_entry scalar (modules logit)
          (T3 [[[1; 2]; [1; 2]; [1; 2]]]) (world logit) with
  | Ok (_, w) => w
  | Raise _ => world logit
  end.

(** Ground truth for a batch of [b]: [n] frames of width 2. *)
Definition frames (b n : nat) : tensor :=
  T3 (repeat (repeat [3; 4] n) b).

(** Encoder outputs for a batch of [b] sequences of [n] positions. *)
Definition encoded (b n : nat) : tensor :=
  T3 (repeat (repeat [1; 2] n) b).

End Toy.

(* ================================================================== *)
(** ** Notions the statements use *)

Section Notions.
Context {SC : Scalar} {MD : Modules}.

(** The last [n] elements of a list. *)
Definition lastn {A} (n : nat) (l : list A) : list A :=
  skipn (length l - n) l.

(** The last [n] columns along the trailing axis. *)
Definition last_columns (n : nat) (t : tensor) : tensor :=
  match t with
  | T1 v => T1 (lastn n v)
  | T2 m => T2 (map (lastn n) m)
  | T3 c => T3 (map (map (lastn n)) c)
  end.

(** A three-axis block of extents [a], [b] and [k]. *)
Definition cube (a b k : nat) (c : list (list (list F))) : Prop :=
  length c = a /\
  Forall (fun m => length m = b /\ Forall (fun r => length r = k) m) c.

(** Lines 215 to 244 of [decode]: everything before the slice that
    selects the frames of the current [r].  It yields the output of
    the linear projection and the stop-logit. *)
Definition decode_projection (memory : tensor) : M (tensor * tensor) :=
  ctx <- attr context ;;
  query_input <- lift (cat (-1) memory ctx) ;;
  cell <- get attention_rnn ;;
  q <- attr query ;;
  c <- attr attention_rnn_cell_state ;;
  let (q, c) := LSTMCell_call cell query_input (q, c) in
  assign (with_query (Some q)) ;;;
  assign (with_attention_rnn_cell_state (Some c)) ;;;
  p <- get p_attention_dropout ;;
  tr <- get training ;;
  q <- draw (F_dropout q p tr) ;;
  assign (with_query (Some q)) ;;;
  c <- attr attention_rnn_cell_state ;;
  p <- get p_attention_dropout ;;
  tr <- get training ;;
  c <- draw (F_dropout c p tr) ;;
  assign (with_attention_rnn_cell_state (Some c)) ;;;
  att <- get attention ;;
  q <- attr query ;;
  inp <- attr inputs ;;
  pin <- attr processed_inputs ;;
  msk <- attr mask ;;
  let (ctx, att) := Attention_call att q inp pin msk in
  assign (with_attention att) ;;;
  assign (with_context (Some ctx)) ;;;
  q <- attr query ;;
  ctx <- attr context ;;
  decoder_rnn_input <- lift (cat (-1) q ctx) ;;
  cell <- get decoder_rnn ;;
  h <- attr decoder_hidden ;;
  dc <- attr decoder_cell ;;
  let (h, dc) := LSTMCell_call cell decoder_rnn_input (h, dc) in
  assign (with_decoder_hidden (Some h)) ;;;
  assign (with_decoder_cell (Some dc)) ;;;
  p <- get p_decoder_dropout ;;
  tr <- get training ;;
  h <- draw (F_dropout h p tr) ;;
  assign (with_decoder_hidden (Some h)) ;;;
  ctx <- attr context ;;
  decoder_hidden_context <- lift (cat 1 h ctx) ;;
  lp <- get linear_projection ;;
  let decoder_output := Linear_call lp decoder_hidden_context in
  h <- attr decoder_hidden ;;
  stopnet_input <- lift (cat 1 h decoder_output) ;;
  sep <- get separate_stopnet ;;
  stop_token <-
    (if sep then call_stopnet (detach stopnet_input)
     else call_stopnet stopnet_input) ;;
  ret (decoder_output, stop_token).

(** The last lines of [decode], from the projection's output on. *)
Definition decode_select (raw stop_token : tensor)
  : M (tensor * tensor * tensor) :=
  r_ <- get r ;;
  fd <- get frame_dim ;;
  decoder_output <- lift (index_1_to (r_ * fd) raw) ;;
  att <- get attention ;;
  ret (decoder_output, attention_weights att, stop_token).

End Notions.

Section Frames.
Context {SC : Scalar} {MD : Modules}.

(** The world after an update [u] of the decoder's attributes. *)
Definition touch (u : Decoder -> Decoder) (w : World) : World :=
  with_self (u (self w)) w.

(** The outcome of a run, with [u] applied to the decoder it leaves. *)
Definition carry (u : Decoder -> Decoder) {A} (x : result (A * World))
  : result (A * World) :=
  match x with
  | Ok (a, w) => Ok (a, touch u w)
  | Raise e => Raise e
  end.

(** A method is blind to [u] when running it after [u] is running it
    before [u]: it neither reads nor writes what [u] changes. *)
Definition blind (u : Decoder -> Decoder) {A} (m : M A) : Prop :=
  forall w, m (touch u w) = carry u (m w).

(** What a run returned, without the world it left. *)
Definition returned {A} (x : result (A * World)) : result A :=
  match x with
  | Ok (a, _) => Ok a
  | Raise e => Raise e
  end.

(** A method maintains the property [P] of the world. *)
Definition preserves (P : World -> Prop) {A} (m : M A) : Prop :=
  forall w a w', P w -> m w = Ok (a, w') -> P w'.

(** A method keeps the observation [f] of the world. *)
Definition keeps {X} (f : World -> X) {A} (m : M A) : Prop :=
  forall w a w', m w = Ok (a, w') -> f w' = f w.

End Frames.

Section Same.
Context {SC : Scalar} {MD : Modules}.


(** A truncated-memory buffer exists. *)
Definition buffered (w : World) : Prop := memory_truncated (self w) <> None.

(** The recurrent state of the decoder. *)
Definition recurrent_state (d : Decoder)
  : option tensor * option tensor * option tensor * option tensor
    * option tensor :=
  (query d, attention_rnn_cell_state d, decoder_hidden d, decoder_cell d,
   context d).

(** A matrix of [b] rows of [n] zeros. *)
Definition zeros (b : nat) (n : Z) : tensor :=
  T2 (repeat (repeat (const 0%Q) (Z.to_nat n)) b).

(** The recurrent state right after a reset for the batch of [x]. *)
Definition zero_state (x : tensor) (d : Decoder)
  : option tensor * option tensor * option tensor * option tensor
    * option tensor :=
  let b := hd O (shape x) in
  (Some (zeros b (query_dim d)), Some (zeros b (query_dim d)),
   Some (zeros b (decoder_rnn_dim d)), Some (zeros b (decoder_rnn_dim d)),
   Some (zeros b (encoder_embedding_dim d))).

(** *** Batches *)

(** A matrix of [b] rows. *)
Definition rows (b : nat) (x : tensor) : Prop :=
  match x with
  | T2 m => length m = b
  | _ => False
  end.

(** A block of [n] matrices of [b] rows each. *)
Definition groups (n b : nat) (x : tensor) : Prop :=
  match x with
  | T3 c => length c = n /\ Forall (fun m => length m = b) c
  | _ => False
  end.

(** A batch of [b] sequences of vectors: the encoder's output. *)
Definition batch (b : nat) (x : tensor) : Prop :=
  match x with
  | T3 c => length c = b
  | _ => False
  end.

Definition set_batch (b : nat) (o : option tensor) : Prop :=
  match o with
  | Some x => batch b x
  | None => False
  end.

Definition set_rows (b : nat) (o : option tensor) : Prop :=
  match o with
  | Some x => rows b x
  | None => False
  end.

(** The contract of the layers on a batch of [b]: each maps [b] rows
    to [b] rows. *)
Record Batched (b : nat) : Prop := {
  dropout_rows :
    forall x p tr g, rows b x -> rows b (fst (F_dropout x p tr g));
  prenet_rows :
    forall pn x g, rows b x -> rows b (fst (Prenet_call pn x g));
  prenet_groups :
    forall pn x g n, groups n b x -> groups n b (fst (Prenet_call pn x g));
  lstm_rows :
    forall cell x h c, rows b x -> rows b h -> rows b c ->
      rows b (fst (LSTMCell_call cell x (h, c))) /\
      rows b (snd (LSTMCell_call cell x (h, c)));
  attention_rows :
    forall att q x px msk,
      rows b q -> batch b x ->
      rows b (fst (Attention_call att q x px msk));
  linear_rows :
    forall lin x, rows b x -> rows b (Linear_call lin x)
}.

(** The state [_init_states] sets up is in place, for a batch of [b]. *)
Definition ready (b : nat) (w : World) : Prop :=
  set_rows b (query (self w)) /\
  set_rows b (attention_rnn_cell_state (self w)) /\
  set_rows b (decoder_hidden (self w)) /\
  set_rows b (decoder_cell (self w)) /\
  set_rows b (context (self w)) /\
  set_batch b (inputs (self w)) /\
  processed_inputs (self w) <> None /\
  mask (self w) <> None.

(** The extents [_init_states] and [get_go_frame] ask zeros for. *)
Definition extents_ok (w : World) : Prop :=
  0 <= frame_dim (self w) * r (self w) /\
  0 <= query_dim (self w) /\
  0 <= decoder_rnn_dim (self w) /\
  0 <= encoder_embedding_dim (self w).

(** The stop layer yields one logit per row. *)
Definition stop_single (b : nat) (w : World) : Prop :=
  forall x, rows b x ->
    has_shape (Linear_call (stop_linear (stopnet (self w))) x) [b; 1%nat].

(** A speaker embedding, when given, has one row. *)
Definition embedding_ok (e : option tensor) : Prop :=
  match e with
  | Some s => rows 1 s
  | None => True
  end.

(** What a call of [inference_truncated] needs to find: nothing but
    sound extents on the first call, and afterwards the buffer and the
    recurrent state of a batch of one. *)
Definition startable (w : World) : Prop :=
  match memory_truncated (self w) with
  | None => extents_ok w
  | Some mt =>
      rows 1 mt /\
      set_rows 1 (query (self w)) /\
      set_rows 1 (attention_rnn_cell_state (self w)) /\
      set_rows 1 (decoder_hidden (self w)) /\
      set_rows 1 (decoder_cell (self w)) /\
      set_rows 1 (context (self w))
  end.

(** Speaker embeddings, when given, come one matrix of [b] rows per
    teacher input. *)
Definition embeddings_ok (n b : nat) (e : option tensor) : Prop :=
  match e with
  | Some s => groups n b s
  | None => True
  end.

(** What a run never assigns, among the attributes the loops read. *)
Definition fixed (w : World) : Z * Stopnet * Prenet * Z * Z * Linear :=
  (max_decoder_steps (self w), stopnet (self w), prenet (self w),
   frame_dim (self w), r (self w), linear_projection (self w)).

(** The projection yields one row of at least [k] columns. *)
Definition projection_wide (k : nat) (w : World) : Prop :=
  forall x, rows 1 x ->
    exists k', (k <= k')%nat /\
      has_shape (Linear_call (linear_projection (self w)) x) [1%nat; k'].

(** On the encoder outputs [x] the attention weights are one row of
    [n] weights. *)
Definition weights_shape (n : nat) (x : tensor) : Prop :=
  forall att q px msk, rows 1 q ->
    has_shape (attention_weights (snd (Attention_call att q x px msk)))
              [1%nat; n].

(** A frame-group of [k] columns after [squeeze(1)]. *)
Definition squeezed (k : nat) (o : tensor) : Prop :=
  if Nat.eqb k 1 then has_shape o [1%nat] else has_shape o [1%nat; k].

(** What an inference loop has collected, step by step, on a batch of
    one: frame-groups of [k] columns, single stop tokens, [n]
    attention weights. *)
Definition shaped (k n : nat) (acc : Collected) : Prop :=
  Forall (squeezed k) (outputs acc) /\
  Forall (fun s => has_shape s [1; 1]%nat) (stop_tokens acc) /\
  Forall (fun a => has_shape a [1%nat; n]) (alignments acc) /\
  length (stop_tokens acc) = length (outputs acc) /\
  length (alignments acc) = length (outputs acc).

(** The decoder in [w] suits a run on the encoder outputs [x] with
    frames of width [fd] grouped by [rr]. *)
Definition suited (fd rr n : nat) (x : tensor) (w : World) : Prop :=
  frame_dim (self w) = Z.of_nat fd /\
  r (self w) = Z.of_nat rr /\
  projection_wide (fd * rr) w /\
  weights_shape n x /\
  stop_single 1 w.

(** *** Runs of the inference loops *)

(** [follows x e s s']: the loop of [inference], started with locals
    and world [s], reaches [s'] at the top of an iteration. *)
Inductive follows (x : tensor) (e : option tensor)
  : Locals * World -> Locals * World -> Prop :=
| follows_here s : follows x e s s
| follows_next l w l1 w1 s :
    inference_body x e l w = Ok ((Continue, l1), w1) ->
    follows x e (l1, w1) s ->
    follows x e (l, w) s.

(** On the run from [s] the stop-gate never fires. *)
Definition gate_silent (x : tensor) (e : option tensor)
  (s : Locals * World) : Prop :=
  forall l w l' w',
    follows x e s (l, w) ->
    inference_body x e l w <> Ok ((Break_gate, l'), w').

(** The stop layer never predicts a logit whose sigmoid is above 0.7:
    a network on which no input makes the gate fire. *)
Definition quiet (w : World) : Prop :=
  forall y,
    truth_gt (tsigmoid (data (Linear_call (stop_linear (stopnet (self w))) y)))
             (const 0.7%Q) <> Ok true.

(** The same for the loop of [inference_truncated]. *)
Inductive follows_truncated
  : Collected * Z * World -> Collected * Z * World -> Prop :=
| follows_truncated_here s : follows_truncated s s
| follows_truncated_next a t w a1 t1 w1 s :
    inference_truncated_body a t w = Ok ((Continue, (a1, t1)), w1) ->
    follows_truncated (a1, t1, w1) s ->
    follows_truncated (a, t, w) s.

Definition gate_silent_truncated (s : Collected * Z * World) : Prop :=
  forall a t w a' t' w',
    follows_truncated s (a, t, w) ->
    inference_truncated_body a t w <> Ok ((Break_gate, (a', t')), w').

End Same.

(* ================================================================== *)
(** ** Notions for runs on a batch *)

Section BatchRuns.
Context {SC : Scalar} {MD : Modules}.

(** A method establishes the property [Q] of the world. *)
Definition ensures (Q : World -> Prop) {A} (m : M A) : Prop :=
  forall w a w', m w = Ok (a, w') -> Q w'.

(** The projection yields [b] rows of at least [k] columns. *)
Definition projection_covers (b k : nat) (w : World) : Prop :=
  forall x, rows b x ->
    exists k', (k <= k')%nat /\
      has_shape (Linear_call (linear_projection (self w)) x) [b; k'].

(** On the encoder outputs [x] the attention weights are [b] rows of
    [n] weights. *)
Definition weights_cover (b n : nat) (x : tensor) : Prop :=
  forall att q px msk, rows b q ->
    has_shape (attention_weights (snd (Attention_call att q x px msk)))
              [b; n].

(** A frame-group of [b] rows of [k] columns after [squeeze(1)]. *)
Definition squeezed_rows (b k : nat) (o : tensor) : Prop :=
  if Nat.eqb k 1 then has_shape o [b] else has_shape o [b; k].

(** What the loop of [forward] has collected, step by step, on a
    batch of [b]: frame-groups of [k] columns, one stop-logit per
    sequence, [n] attention weights per sequence. *)
Definition taught (b k n : nat) (acc : Collected) : Prop :=
  Forall (squeezed_rows b k) (outputs acc) /\
  Forall (fun s => has_shape s [b]) (stop_tokens acc) /\
  Forall (fun a => has_shape a [b; n]) (alignments acc) /\
  length (stop_tokens acc) = length (outputs acc) /\
  length (alignments acc) = length (outputs acc).

(** What [decode] cuts from the projection's output is [b] rows of
    [k] columns. *)
Definition cut_to (b k : nat) (w : World) : Prop :=
  forall x o, rows b x ->
    index_1_to (r (self w) * frame_dim (self w))
               (Linear_call (linear_projection (self w)) x) = Ok o ->
    has_shape o [b; k].

(** The decoder in [w] drives a run on the encoder outputs [x] of a
    batch of [b], each step giving [k] output columns. *)
Definition driven (b k n : nat) (x : tensor) (w : World) : Prop :=
  cut_to b k w /\ weights_cover b n x /\ stop_single b w.

(** The projection yields [b] rows of exactly [p] columns. *)
Definition projection_exact (b p : nat) (w : World) : Prop :=
  forall x, rows b x ->
    has_shape (Linear_call (linear_projection (self w)) x) [b; p].

(** The decoder in [w] suits a run on the encoder outputs [x] of a
    batch of [b], with frames of width [fd] grouped by [rr]. *)
Definition suited_batch (b fd rr n : nat) (x : tensor) (w : World) : Prop :=
  frame_dim (self w) = Z.of_nat fd /\
  r (self w) = Z.of_nat rr /\
  projection_covers b (fd * rr) w /\
  weights_cover b n x /\
  stop_single b w.

End BatchRuns.

(* ================================================================== *)
(** ** What an entry point resets *)

Section Resets.
Context {SC : Scalar} {MD : Modules}.

(** The attributes [_init_states] assigns, with arbitrary values: the
    state an earlier run has left. *)
Definition stale
  (q c h dc ctx inp pin : option tensor) (msk : option (option tensor))
  (d : Decoder) : Decoder :=
  with_query q
    (with_attention_rnn_cell_state c
       (with_decoder_hidden h
          (with_decoder_cell dc
             (with_context ctx
                (with_inputs inp
                   (with_processed_inputs pin (with_mask msk d))))))).

(** A method forgets [u]: it runs after [u] as it runs without, to
    the same result and the same world. *)
Definition forgets (u : Decoder -> Decoder) {A} (m : M A) : Prop :=
  forall w, m (touch u w) = m w.

End Resets.

(* ================================================================== *)
(** ** What the steps of a run leave alone *)

Section Kept.
Context {SC : Scalar} {MD : Modules}.

(** The hyper-parameters and layers a run reads, and the output
    stream. *)
Definition kept (w : World)
  : (Z * Stopnet * Prenet * Z * Z * Linear) * list string :=
  (fixed w, stdout w).

End Kept.

(* ================================================================== *)
(** ** The configuration of a decoder *)

Section Configuration.
Context {SC : Scalar} {MD : Modules}.

(** The hyper-parameters and the learned layers. *)
Definition configuration (w : World) :=
  (frame_dim (self w), r_init (self w), r (self w),
   encoder_embedding_dim (self w), separate_stopnet (self w),
   max_decoder_steps (self w), gate_threshold (self w),
   query_dim (self w), decoder_rnn_dim (self w), prenet_dim (self w),
   attn_dim (self w), p_attention_dropout (self w),
   p_decoder_dropout (self w), training (self w),
   prenet (self w), attention_rnn (self w), decoder_rnn (self w),
   linear_projection (self w), stopnet (self w)).

(** What lies beyond a decode step: the configuration, the
    truncated-memory buffer, the stored encoder outputs with their
    processed form and mask, and the output stream. *)
Definition beyond_decode (w : World) :=
  (configuration w, memory_truncated (self w), inputs (self w),
   processed_inputs (self w), mask (self w), stdout w).

End Configuration.

(* ================================================================== *)
(** * The convolution blocks, the post-net and the encoder

    [ConvBNBlock], [Postnet] and [Encoder] of [layers/tacotron2.py],
    over the layers of [torch.nn] they are built from. *)

(** The outcome of a constructor that asserts. *)
Inductive built (A : Type) : Type :=
| Built (a : A)
| AssertionError.
Arguments Built {A} a.
Arguments AssertionError {A}.

Definition bbind {A B} (x : built A) (f : A -> built B) : built B :=
  match x with
  | Built a => f a
  | AssertionError => AssertionError
  end.

(** [int(d / 2)]: the true quotient, truncated.  The source divides
    as floats; the quotient by two is exact for [|d| <= 2^53], and
    this definition stands for [int(d / 2)] in that range only. *)
Definition int_half (d : Z) : Z := Z.quot d 2.

(** [torch.nn.functional] and the initialisers of parameters: what
    the layers of [torch.nn] compute with. *)
Module functional.

Class Functional {SC : Scalar} : Type := {
  (** the generator that initialises parameters and draws dropout
      masks *)
  Gen : Type;
  (** weight and bias of a convolution of [in_channels],
      [out_channels] and [kernel_size] *)
  ConvParams : Type;
  Conv1d_init : Z -> Z -> Z -> Gen -> ConvParams * Gen;
  (** [F.conv1d(x, weight, bias, padding=p)] *)
  conv1d : tensor -> ConvParams -> Z -> result tensor;
  (** affine parameters and running statistics of a batch
      normalisation over [num_features] channels *)
  NormState : Type;
  BatchNorm1d_init : Z -> NormState;
  (** [F.batch_norm(x, ..., training, momentum, eps)]; in training
      mode it updates the running statistics *)
  batch_norm :
    tensor -> NormState -> bool -> Q -> Q -> result (tensor * NormState);
  (** [F.dropout(x, p, training)] *)
  dropout : tensor -> Q -> bool -> Gen -> tensor * Gen;
  (** [torch.relu] and [torch.tanh] on one element *)
  relu : F -> F;
  tanh : F -> F;
  (** the weights of an LSTM of [input_size], [hidden_size],
      [num_layers], [bias] and [bidirectional] *)
  LSTMParams : Type;
  LSTM_init : Z -> Z -> Z -> bool -> bool -> Gen -> LSTMParams * Gen;
  (** the LSTM on a padded batch, from the zero state: the output
      sequence and the final hidden and cell states *)
  lstm :
    tensor -> LSTMParams -> bool -> result (tensor * (tensor * tensor))
}.

End functional.

(** The layers of [torch.nn]: each keeps the arguments of its
    constructor as attributes. *)
Module nn.
Section Layers.
Context {SC : Scalar} {FN : functional.Functional}.

Record Conv1d : Type := {
  in_channels : Z;
  out_channels : Z;
  kernel_size : Z;
  padding : Z;
  conv_params : functional.ConvParams
}.

(** [nn.Conv1d(in_channels, out_channels, kernel_size, padding=p)],
    for [in_channels >= 1], [out_channels >= 1] and
    [kernel_size >= 1].  [torch] raises RuntimeError on a negative
    channel count or kernel size; this definition stands for the
    constructor on positive arguments only, and the statements below
    that build layers keep to them. *)
Definition Conv1d_new (i o k p : Z) (g : functional.Gen)
  : Conv1d * functional.Gen :=
  let (ps, g') := functional.Conv1d_init i o k g in
  ({| in_channels := i; out_channels := o; kernel_size := k; padding := p;
      conv_params := ps |}, g').

Definition Conv1d_call (c : Conv1d) (x : tensor) : result tensor :=
  functional.conv1d x (conv_params c) (padding c).

Record BatchNorm1d : Type := {
  num_features : Z;
  momentum : Q;
  eps : Q;
  norm_state : functional.NormState
}.

(** [nn.BatchNorm1d(num_features, momentum=m, eps=e)] *)
Definition BatchNorm1d_new (n : Z) (m e : Q) : BatchNorm1d :=
  {| num_features := n; momentum := m; eps := e;
     norm_state := functional.BatchNorm1d_init n |}.

Definition BatchNorm1d_call (bn : BatchNorm1d) (training : bool) (x : tensor)
  : result (tensor * BatchNorm1d) :=
  rbind (functional.batch_norm x (norm_state bn) training
                               (momentum bn) (eps bn))
        (fun ys =>
           Ok (fst ys,
               {| num_features := num_features bn; momentum := momentum bn;
                  eps := eps bn; norm_state := snd ys |})).

Record Dropout : Type := { p : Q }.

Definition Dropout_call (d : Dropout) (training : bool) (x : tensor)
  (g : functional.Gen) : tensor * functional.Gen :=
  functional.dropout x (p d) training g.

(** [nn.ReLU()], [nn.Tanh()] and [nn.Identity()] *)
Inductive Activation : Set := ReLU | Tanh | Identity.

Definition Activation_call (a : Activation) (x : tensor) : tensor :=
  match a with
  | ReLU => tmap functional.relu x
  | Tanh => tmap functional.tanh x
  | Identity => x
  end.

Record LSTM : Type := {
  input_size : Z;
  hidden_size : Z;
  num_layers : Z;
  batch_first : bool;
  bias : bool;
  bidirectional : bool;
  lstm_params : functional.LSTMParams
}.

(** [nn.LSTM(input_size, hidden_size, num_layers=.., batch_first=..,
    bias=.., bidirectional=..)], for [input_size >= 1] and
    [hidden_size >= 1].  [torch] raises ValueError on a hidden size
    of 0 and fails on negative sizes; this definition stands for the
    constructor on positive sizes only. *)
Definition LSTM_new (i h layers : Z) (bf b bi : bool) (g : functional.Gen)
  : LSTM * functional.Gen :=
  let (ps, g') := functional.LSTM_init i h layers b bi g in
  ({| input_size := i; hidden_size := h; num_layers := layers;
      batch_first := bf; bias := b; bidirectional := bi;
      lstm_params := ps |}, g').

Definition LSTM_call (l : LSTM) (x : tensor)
  : result (tensor * (tensor * tensor)) :=
  functional.lstm x (lstm_params l) (batch_first l).

End Layers.
End nn.

(** [ConvBNBlock] *)
Module ConvBNBlock.
Section Class.
Context {SC : Scalar} {FN : functional.Functional}.

Record t : Type := {
  convolution1d : nn.Conv1d;
  batch_normalization : nn.BatchNorm1d;
  dropout : nn.Dropout;
  activation : nn.Activation;
  (** the mode [nn.Module] keeps; a new module is in training mode *)
  training : bool
}.

(** [ConvBNBlock.__init__]; the assertion comes before any layer is
    built, so an even [kernel_size] gives AssertionError whatever the
    other arguments. *)
Definition __init__
  (in_channels out_channels kernel_size : Z) (activation : option string)
  (g : functional.Gen) : built (t * functional.Gen) :=
  if negb ((kernel_size - 1) mod 2 =? 0) then AssertionError
  else
    let padding := (kernel_size - 1) / 2 in
    let (conv, g) :=
      nn.Conv1d_new in_channels out_channels kernel_size padding g in
    Built
      ({| convolution1d := conv;
          batch_normalization :=
            nn.BatchNorm1d_new out_channels 0.1%Q (1 # 100000)%Q;
          dropout := {| nn.p := 0.5%Q |};
          activation :=
            match activation with
            | Some s =>
                if String.eqb s "relu" then nn.ReLU
                else if String.eqb s "tanh" then nn.Tanh
                else nn.Identity
            | None => nn.Identity
            end;
          training := true |}, g).

(** [ConvBNBlock.forward]; the block comes back with the running
    statistics its normalisation has updated. *)
Definition forward (block : t) (x : tensor) (g : functional.Gen)
  : result (tensor * t * functional.Gen) :=
  rbind (nn.Conv1d_call (convolution1d block) x) (fun o =>
  rbind (nn.BatchNorm1d_call (batch_normalization block) (training block) o)
        (fun obn =>
  let o := nn.Activation_call (activation block) (fst obn) in
  let (o, g) := nn.Dropout_call (dropout block) (training block) o g in
  Ok (o,
      {| convolution1d := convolution1d block;
         batch_normalization := snd obn;
         dropout := dropout block;
         activation := activation block;
         training := training block |},
      g))).

(** [for layer in layers: o = layer(o)] *)
Fixpoint through (layers : list t) (o : tensor) (g : functional.Gen)
  : result (tensor * list t * functional.Gen) :=
  match layers with
  | [] => Ok (o, [], g)
  | layer :: rest =>
      rbind (forward layer o g) (fun r1 =>
      rbind (through rest (fst (fst r1)) (snd r1)) (fun r2 =>
      Ok (fst (fst r2), snd (fst r1) :: snd (fst r2), snd r2)))
  end.

End Class.
End ConvBNBlock.

(** [Postnet] *)
Module Postnet.
Section Class.
Context {SC : Scalar} {FN : functional.Functional}.

Record t : Type := { convolutions : list ConvBNBlock.t }.

(** [for _ in range(..): self.convolutions.append(ConvBNBlock(512,
    512, kernel_size=5, activation='tanh'))], [n] times *)
Fixpoint append_inner (n : nat) (acc : list ConvBNBlock.t)
  (g : functional.Gen) : built (list ConvBNBlock.t * functional.Gen) :=
  match n with
  | O => Built (acc, g)
  | S n' =>
      bbind (ConvBNBlock.__init__ 512 512 5 (Some "tanh"%string) g)
            (fun bg => append_inner n' (acc ++ [fst bg]) (snd bg))
  end.

(** [Postnet.__init__], for [output_dim >= 1];
    [range(1, num_convs - 1)] has [num_convs - 2] elements, none when
    that is negative. *)
Definition __init__ (output_dim num_convs : Z) (g : functional.Gen)
  : built (t * functional.Gen) :=
  bbind (ConvBNBlock.__init__ output_dim 512 5 (Some "tanh"%string) g)
        (fun bg =>
  bbind (append_inner (Z.to_nat (num_convs - 1 - 1)) [fst bg] (snd bg))
        (fun lg =>
  bbind (ConvBNBlock.__init__ 512 output_dim 5 None (snd lg))
        (fun bg' =>
  Built ({| convolutions := fst lg ++ [fst bg'] |}, snd bg')))).

(** [Postnet.forward] *)
Definition forward (net : t) (x : tensor) (g : functional.Gen)
  : result (tensor * t * functional.Gen) :=
  rbind (ConvBNBlock.through (convolutions net) x g) (fun r =>
  Ok (fst (fst r), {| convolutions := snd (fst r) |}, snd r)).

End Class.
End Postnet.

(** [Encoder] *)
Module Encoder.
Section Class.
Context {SC : Scalar} {FN : functional.Functional}.

Record t : Type := {
  convolutions : list ConvBNBlock.t;
  lstm : nn.LSTM;
  rnn_state : option tensor
}.

(** [for _ in range(3): self.convolutions.append(ConvBNBlock(d, d, 5,
    'relu'))], [n] times *)
Fixpoint append_blocks (d : Z) (n : nat) (acc : list ConvBNBlock.t)
  (g : functional.Gen) : built (list ConvBNBlock.t * functional.Gen) :=
  match n with
  | O => Built (acc, g)
  | S n' =>
      bbind (ConvBNBlock.__init__ d d 5 (Some "relu"%string) g)
            (fun bg => append_blocks d n' (acc ++ [fst bg]) (snd bg))
  end.

(** [Encoder.__init__], for [2 <= output_input_dim <= 2^53], where
    the LSTM's hidden size [int(output_input_dim / 2)] is at least 1
    and [int_half] gives it. *)
Definition __init__ (output_input_dim : Z) (g : functional.Gen)
  : built (t * functional.Gen) :=
  bbind (append_blocks output_input_dim 3 [] g) (fun lg =>
  let (rnn, g) :=
    nn.LSTM_new output_input_dim (int_half output_input_dim) 1
                true true true (snd lg) in
  Built ({| convolutions := fst lg; lstm := rnn; rnn_state := None |}, g)).

(** [Encoder.inference] *)
Definition inference (enc : t) (x : tensor) (g : functional.Gen)
  : result (tensor * t * functional.Gen) :=
  rbind (ConvBNBlock.through (convolutions enc) x g) (fun r =>
  rbind (transpose12 (fst (fst r))) (fun o =>
  rbind (nn.LSTM_call (lstm enc) o) (fun os =>
  Ok (fst os,
      {| convolutions := snd (fst r); lstm := lstm enc;
         rnn_state := rnn_state enc |},
      snd r)))).

End Class.
End Encoder.

(* ================================================================== *)
(** ** Notions for the convolution blocks *)

Section BlockNotions.
Context {SC : Scalar} {FN : functional.Functional}.

(** Which parameters belong to which attributes: the weights of a
    convolution of [in_channels], [out_channels] and [kernel_size],
    the state of a normalisation over [num_features] channels, the
    weights of a one-layer bidirectional LSTM of [input_size] and
    [hidden_size]. *)
Record Fits : Type := {
  conv_fits : Z -> Z -> Z -> functional.ConvParams -> Prop;
  norm_fits : Z -> functional.NormState -> Prop;
  lstm_fits : Z -> Z -> functional.LSTMParams -> Prop
}.

(** The contract of the layers of [torch.nn] on shapes.  A
    convolution of stride 1 maps (B, in_channels, L) to
    (B, out_channels, L + 2 * padding - (kernel_size - 1)); a batch
    normalisation keeps the shape of (B, num_features, L), given more
    than one value per channel; a dropout keeps any shape; a
    batch-first bidirectional LSTM maps (B, L, input_size) to
    (B, L, 2 * hidden_size). *)
Record Shapely (fits : Fits) : Prop := {
  conv_init_fits :
    forall i o k g,
      conv_fits fits i o k (fst (functional.Conv1d_init i o k g));
  conv1d_shape :
    forall i o k ps p x (B L : nat),
      conv_fits fits i o k ps ->
      1 <= i -> 1 <= o -> 1 <= k -> 0 <= p -> (1 <= B)%nat ->
      1 <= Z.of_nat L + 2 * p - (k - 1) ->
      has_shape x [B; Z.to_nat i; L] ->
      exists y,
        functional.conv1d x ps p = Ok y /\
        has_shape y [B; Z.to_nat o;
                     Z.to_nat (Z.of_nat L + 2 * p - (k - 1))];
  norm_init_fits :
    forall n, norm_fits fits n (functional.BatchNorm1d_init n);
  batch_norm_shape :
    forall n s tr m e x (B L : nat),
      norm_fits fits n s -> 1 <= n -> (2 <= B * L)%nat ->
      has_shape x [B; Z.to_nat n; L] ->
      exists y s',
        functional.batch_norm x s tr m e = Ok (y, s') /\
        has_shape y [B; Z.to_nat n; L] /\
        norm_fits fits n s';
  dropout_shape :
    forall x p tr g s,
      has_shape x s -> has_shape (fst (functional.dropout x p tr g)) s;
  lstm_init_fits :
    forall i h g,
      lstm_fits fits i h (fst (functional.LSTM_init i h 1 true true g));
  lstm_shape :
    forall i h ps x (B L : nat),
      lstm_fits fits i h ps ->
      1 <= i -> 1 <= h -> (1 <= B)%nat -> (1 <= L)%nat ->
      has_shape x [B; L; Z.to_nat i] ->
      exists y st,
        functional.lstm x ps true = Ok (y, st) /\
        has_shape y [B; L; Z.to_nat (2 * h)]
}.

(** A block whose parameters belong to its attributes, with the
    padding that keeps lengths and the normalisation over its output
    channels. *)
Definition block_fits (fits : Fits) (b : ConvBNBlock.t) : Prop :=
  let c := ConvBNBlock.convolution1d b in
  let n := ConvBNBlock.batch_normalization b in
  conv_fits fits (nn.in_channels c) (nn.out_channels c) (nn.kernel_size c)
            (nn.conv_params c) /\
  norm_fits fits (nn.num_features n) (nn.norm_state n) /\
  nn.num_features n = nn.out_channels c /\
  2 * nn.padding c + 1 = nn.kernel_size c /\
  0 <= nn.padding c /\
  1 <= nn.in_channels c /\
  1 <= nn.out_channels c.

(** Blocks in a row, from [d_in] channels to [d_out]: each takes the
    channels the one before it gives. *)
Fixpoint chained (d_in d_out : Z) (l : list ConvBNBlock.t) : Prop :=
  match l with
  | [] => d_in = d_out
  | b :: rest =>
      nn.in_channels (ConvBNBlock.convolution1d b) = d_in /\
      chained (nn.out_channels (ConvBNBlock.convolution1d b)) d_out rest
  end.

(** A block as [ConvBNBlock(i, o, 5, activation)] makes it, [a] being
    the layer the activation's name stands for. *)
Definition fresh_block (i o : Z) (a : nn.Activation) (b : ConvBNBlock.t)
  : Prop :=
  (exists g, ConvBNBlock.convolution1d b = fst (nn.Conv1d_new i o 5 2 g)) /\
  ConvBNBlock.batch_normalization b
    = nn.BatchNorm1d_new o 0.1%Q (1 # 100000)%Q /\
  ConvBNBlock.dropout b = {| nn.p := 0.5%Q |} /\
  ConvBNBlock.activation b = a /\
  ConvBNBlock.training b = true.

(** A row of fitting blocks from [d_in] channels to [d_out]. *)
Definition row_fits (fits : Fits) (d_in d_out : Z) (l : list ConvBNBlock.t)
  : Prop :=
  Forall (block_fits fits) l /\ chained d_in d_out l.

(** An encoder whose parts fit, over [d] channels. *)
Definition encoder_fits (fits : Fits) (d : Z) (enc : Encoder.t) : Prop :=
  row_fits fits d d (Encoder.convolutions enc) /\
  nn.input_size (Encoder.lstm enc) = d /\
  nn.hidden_size (Encoder.lstm enc) = int_half d /\
  nn.batch_first (Encoder.lstm enc) = true /\
  lstm_fits fits d (int_half d) (nn.lstm_params (Encoder.lstm enc)).

End BlockNotions.

(** Layers simple enough to evaluate: a convolution and an LSTM that
    give zeros of the right shape, a normalisation and a dropout that
    change nothing. *)
Module ToyBlocks.

#[export] Instance layers : @functional.Functional Toy.scalar := {|
  functional.Gen := nat;
  functional.ConvParams := Z * Z;
  functional.Conv1d_init := fun i o k g => ((o, k), S g);
  functional.conv1d := fun x ps p =>
    match x with
    | T3 c =>
        Ok (@T3 Toy.scalar
              (map (fun m =>
                      repeat (repeat 0%Q
                                (Z.to_nat (Z.of_nat (width m) + 2 * p
                                           - (snd ps - 1))))
                             (Z.to_nat (fst ps))) c))
    | _ => Raise RuntimeError
    end;
  functional.NormState := unit;
  functional.BatchNorm1d_init := fun _ => tt;
  functional.batch_norm := fun x s _ _ _ => Ok (x, s);
  functional.dropout := fun x _ _ g => (x, S g);
  functional.relu := fun v : Q => if Qle_bool 0 v then v else 0%Q;
  functional.tanh := fun v : Q => (v / (1 + Qabs v))%Q;
  functional.LSTMParams := Z;
  functional.LSTM_init := fun i h _ _ _ g => (h, S g);
  functional.lstm := fun x h _ =>
    match x with
    | T3 c =>
        Ok (@T3 Toy.scalar
              (map (map (fun _ => repeat 0%Q (Z.to_nat (2 * h)))) c),
            (@T3 Toy.scalar [], @T3 Toy.scalar []))
    | _ => Raise RuntimeError
    end
|}.

Definition fits : @Fits Toy.scalar layers :=
  @Build_Fits Toy.scalar layers
    (fun i o k (ps : Z * Z) => ps = (o, k))
    (fun _ _ => True)
    (fun i h (ps : Z) => ps = h).

(** A batch of [b] inputs of [d] channels and length [n]. *)
Definition signal (b d n : nat) : @tensor Toy.scalar :=
  @T3 Toy.scalar (repeat (repeat (repeat 1%Q n) d) b).

End ToyBlocks.

(* ================================================================== *)
(** ** The prenet in an inference step, and runs of the small network *)

Section PrenetStep.
Context {SC : Scalar} {MD : Modules}.

(** [self.prenet(m)] in the world [w]: what the prenet returns *)
Definition prenet_out (m : tensor) (w : World) : tensor :=
  fst (Prenet_call (prenet (self w)) m (rng w)).

(** and the world it leaves, its random draws made. *)
Definition prenet_world (m : tensor) (w : World) : World :=
  with_rng (snd (Prenet_call (prenet (self w)) m (rng w))) w.

End PrenetStep.

(** The small decoder after [set_r(1)]: [r] is 1, the projection
    still has the [frame_dim * r_init = 4] columns it was built with. *)
Definition toy_after_set_r : @World Toy.scalar (Toy.modules 0) :=
  @touch Toy.scalar (Toy.modules 0) (with_r 1) (Toy.world 0).

(** The world a first call of [inference_truncated] on one sequence
    of three encoder positions finds at the top of its loop, with
    [r = 1]. *)
Definition toy_truncated_start : @World Toy.scalar (Toy.modules 0) :=
  match @inference_truncated_entry Toy.scalar (Toy.modules 0)
          (Toy.encoded 1 3) toy_after_set_r with
  | Ok (_, w) => w
  | Raise _ => toy_after_set_r
  end.

(** The locals and the world a call of [inference] on the same
    sequence finds at the top of its loop, with [r = 2]. *)
Definition toy_inference_start
  : @Locals Toy.scalar * @World Toy.scalar (Toy.modules 0) :=
  match @inference_setup Toy.scalar (Toy.modules 0)
          (Toy.encoded 1 3) (Toy.world 0) with
  | Ok s => s
  | Raise _ =>
      ({| memory := @T2 Toy.scalar []; collected := nothing; t := 0 |},
       Toy.world 0)
  end.

(* ================================================================== *)
(** ** Lists: slices, chunks, transposition *)

Section ListFacts.
Context {A : Type}.

Lemma slice_from_lastn (k : Z) (n : nat) (l : list A) :
  (n <= length l)%nat ->
  k = Z.of_nat (length l) - Z.of_nat n ->
  Py.slice_from k l = lastn n l.
Proof.
  intros Hn ->. unfold Py.slice_from, lastn.
  destruct (Z.ltb_spec (Z.of_nat (length l) - Z.of_nat n) 0); f_equal; lia.
Qed.

Lemma lastn_length (n : nat) (l : list A) :
  (n <= length l)%nat -> length (lastn n l) = n.
Proof. intros. unfold lastn. rewrite length_skipn. lia. Qed.

Lemma chunks_length (n k : nat) (l : list A) : length (chunks n k l) = k.
Proof. revert l. induction k; intros; simpl; auto. Qed.

Lemma chunks_rows (n k : nat) (l : list A) :
  length l = (k * n)%nat -> Forall (fun r => length r = n) (chunks n k l).
Proof.
  revert l. induction k; intros l Hl; simpl; constructor.
  - rewrite length_firstn. simpl in Hl. lia.
  - apply IHk. rewrite length_skipn. simpl in Hl. lia.
Qed.

Lemma zip_cons_length (r : list A) (acc : list (list A)) :
  length acc = length r -> length (zip_cons r acc) = length r.
Proof.
  intros H. unfold zip_cons. rewrite length_map, length_combine. lia.
Qed.

Lemma zip_cons_rows (n : nat) (r : list A) (acc : list (list A)) :
  Forall (fun x => length x = n) acc ->
  Forall (fun x => length x = S n) (zip_cons r acc).
Proof.
  intros H. unfold zip_cons. apply Forall_forall. intros x Hx.
  apply in_map_iff in Hx. destruct Hx as ([a row] & <- & Hin).
  apply in_combine_r in Hin. rewrite Forall_forall in H.
  simpl. f_equal. now apply H.
Qed.

Lemma fold_zip_cons (w : nat) (m : list (list A)) :
  Forall (fun r => length r = w) m ->
  length (fold_right zip_cons (repeat [] w) m) = w /\
  Forall (fun x => length x = length m)
         (fold_right zip_cons (repeat [] w) m).
Proof.
  induction 1 as [|r m Hr Hm [IHl IHr]]; simpl.
  - split; [apply repeat_length|].
    apply Forall_forall. intros x Hx. now apply repeat_spec in Hx; subst.
  - split.
    + rewrite zip_cons_length; lia.
    + now apply zip_cons_rows.
Qed.

(** Transposing [n >= 1] rows of [w] elements gives [w] rows of [n]. *)
Lemma transpose_shape (n w : nat) (m : list (list A)) :
  (1 <= n)%nat -> length m = n -> Forall (fun r => length r = w) m ->
  length (transpose m) = w /\ Forall (fun x => length x = n) (transpose m).
Proof.
  intros Hn Hm Hall. unfold transpose.
  assert (Hw : width m = w).
  { destruct m as [|r m]; simpl in *; [lia|]. now inversion Hall. }
  rewrite Hw. subst n. now apply fold_zip_cons.
Qed.

Lemma concat_length_rows (n w : nat) (m : list (list A)) :
  length m = n -> Forall (fun r => length r = w) m ->
  length (concat m) = (n * w)%nat.
Proof.
  intros <- H. induction H; simpl; auto.
  rewrite length_app. lia.
Qed.

End ListFacts.

(* ================================================================== *)
(** ** [_update_memory] *)

Section UpdateMemory.
Context {SC : Scalar} {MD : Modules}.

(** On a row of [frame_dim * r] elements the slice the code takes is
    the last frame. *)
Lemma slice_last_frame (fd r_ : Z) (row : list F) :
  1 <= r_ ->
  length row = Z.to_nat (fd * r_) ->
  Py.slice_from (fd * (r_ - 1)) row = lastn (Z.to_nat fd) row /\
  length (lastn (Z.to_nat fd) row) = Z.to_nat fd.
Proof.
  intros Hr Hlen. destruct (Z.le_gt_cases 0 fd) as [Hfd|Hfd].
  - assert (Hle : (Z.to_nat fd <= length row)%nat) by (rewrite Hlen; nia).
    split; [|now apply lastn_length].
    apply slice_from_lastn; [exact Hle|]. rewrite Hlen. nia.
  - assert (Hrow : row = []).
    { apply length_zero_iff_nil. rewrite Hlen. nia. }
    subst row. replace (Z.to_nat fd) with O by lia.
    unfold Py.slice_from, lastn. simpl.
    destruct (fd * (r_ - 1) <? 0); now rewrite skipn_nil.
Qed.

Lemma map_slice_last_frame (fd r_ : Z) (m : list (list F)) :
  1 <= r_ ->
  Forall (fun row => length row = Z.to_nat (fd * r_)) m ->
  map (Py.slice_from (fd * (r_ - 1))) m = map (lastn (Z.to_nat fd)) m /\
  Forall (fun row => length row = Z.to_nat fd) (map (lastn (Z.to_nat fd)) m).
Proof.
  intros Hr H. induction H as [|row m Hrow Hm [IH1 IH2]]; simpl.
  - split; [reflexivity|constructor].
  - destruct (slice_last_frame (fd:=fd) Hr Hrow) as [E L].
    split; [now rewrite E, IH1|now constructor].
Qed.

(** C4.  For a reduction factor [r >= 1], [_update_memory] applied to
    a tensor of two or of three axes whose trailing axis has width
    [frame_dim * r] returns, without touching the decoder, exactly the
    last [frame_dim] columns along that axis; the leading extents
    [lead] are kept. *)
Theorem update_memory_returns_last_frame
  (w : World) (memory : tensor) (lead : list nat) :
  1 <= r (self w) ->
  (length lead = 1 \/ length lead = 2)%nat ->
  has_shape memory (lead ++ [Z.to_nat (frame_dim (self w) * r (self w))]) ->
  _update_memory memory w
    = Ok (last_columns (Z.to_nat (frame_dim (self w))) memory, w) /\
  has_shape (last_columns (Z.to_nat (frame_dim (self w))) memory)
            (lead ++ [Z.to_nat (frame_dim (self w))]).
Proof.
  intros Hr Hlead Hshape.
  destruct lead as [|a [|b [|? ?]]]; simpl in Hlead; try lia.
  - (* two axes *)
    destruct memory as [v|m|c]; simpl in Hshape; try contradiction.
    destruct Hshape as [Ha Hrows].
    destruct (map_slice_last_frame (fd:=frame_dim (self w)) Hr Hrows) as [E L].
    split.
    + unfold _update_memory, bind, get, lift. simpl. now rewrite E.
    + simpl. split; [now rewrite length_map|exact L].
  - (* three axes *)
    destruct memory as [v|m|c]; simpl in Hshape; try contradiction.
    destruct Hshape as [Ha Hmats].
    assert (H : map (map (Py.slice_from
                            (frame_dim (self w) * (r (self w) - 1)))) c
                = map (map (lastn (Z.to_nat (frame_dim (self w))))) c /\
                Forall (fun m => length m = b /\
                          Forall (fun row => length row
                                    = Z.to_nat (frame_dim (self w))) m)
                       (map (map (lastn (Z.to_nat (frame_dim (self w))))) c)).
    { clear Ha. induction Hmats as [|m c [Hb Hrows] Hc [IH1 IH2]]; simpl.
      - split; [reflexivity|constructor].
      - destruct (map_slice_last_frame (fd:=frame_dim (self w)) Hr Hrows)
          as [E L].
        split; [now rewrite E, IH1|].
        constructor; [|exact IH2]. split; [now rewrite length_map|exact L]. }
    destruct H as [E L]. split.
    + unfold _update_memory, bind, get, lift. simpl. now rewrite E.
    + simpl. split; [now rewrite length_map|exact L].
Qed.

End UpdateMemory.

(** A decoder with [frame_dim = 2], [r = 2] and a batch of one group
    of two frames. *)
Lemma update_memory_returns_last_frame_witness :
  @_update_memory Toy.scalar (Toy.modules 0)
                  (@T2 Toy.scalar [[1; 2; 3; 4]%Q]) (Toy.world 0)
    = Ok (@T2 Toy.scalar [[3; 4]%Q], Toy.world 0) /\
  has_shape (@T2 Toy.scalar [[3; 4]%Q]) [1; 2]%nat.
Proof.
  apply (@update_memory_returns_last_frame
           Toy.scalar (Toy.modules 0) (Toy.world 0)
           (@T2 Toy.scalar [[1; 2; 3; 4]%Q]) [1%nat]).
  - simpl. lia.
  - left. reflexivity.
  - simpl. repeat constructor.
Defined.

(* ================================================================== *)
(** ** Shapes through [stack], [transpose] and [view] *)

Section Shapes.
Context {SC : Scalar}.

Lemma eqb_shape_refl (s : list nat) : eqb_shape s s = true.
Proof. induction s; simpl; auto. now rewrite Nat.eqb_refl. Qed.

Lemma has_shape1_inv (t : tensor) (a : nat) :
  has_shape t [a] -> exists v, t = T1 v /\ length v = a.
Proof. destruct t; simpl; try contradiction. eauto. Qed.

Lemma has_shape2_inv (t : tensor) (a b : nat) :
  has_shape t [a; b] ->
  exists m, t = T2 m /\ length m = a /\ Forall (fun r => length r = b) m.
Proof. destruct t; simpl; try contradiction. intros []. eauto. Qed.

Lemma width_rows {A} (a b : nat) (m : list (list A)) :
  (1 <= a)%nat -> length m = a -> Forall (fun r => length r = b) m ->
  width m = b.
Proof.
  intros Ha Hm H. destruct m; simpl in *; [lia|]. now inversion H.
Qed.

Lemma shape_of_has_shape2 (t : tensor) (a b : nat) :
  (1 <= a)%nat -> has_shape t [a; b] -> shape t = [a; b].
Proof.
  intros Ha H. apply has_shape2_inv in H. destruct H as (m & -> & Hm & Hr).
  simpl. f_equal; [exact Hm|]. f_equal. eapply width_rows; eauto.
Qed.

Lemma rows1_ok (a : nat) (l : list tensor) :
  Forall (fun t => has_shape t [a]) l ->
  exists m, rows1 l = Ok m /\ length m = length l /\
            Forall (fun r => length r = a) m.
Proof.
  induction 1 as [|t l Ht Hl (m & E & Hlen & Hr)]; simpl.
  - exists []. repeat split; constructor.
  - apply has_shape1_inv in Ht. destruct Ht as (v & -> & Hv).
    rewrite E. simpl. exists (v :: m). repeat split; simpl; auto.
Qed.

Lemma rows2_ok (a b : nat) (l : list tensor) :
  Forall (fun t => has_shape t [a; b]) l ->
  exists c, rows2 l = Ok c /\ length c = length l /\
            Forall (fun m => length m = a /\
                             Forall (fun r => length r = b) m) c.
Proof.
  induction 1 as [|t l Ht Hl (c & E & Hlen & Hr)]; simpl.
  - exists []. repeat split; constructor.
  - apply has_shape2_inv in Ht. destruct Ht as (m & -> & Hm & Hrows).
    rewrite E. simpl. exists (m :: c). repeat split; simpl; auto.
Qed.

Lemma forallb_same_shape (t : tensor) (s : list nat) (l : list tensor) :
  shape t = s -> Forall (fun u => shape u = s) l ->
  forallb (same_shape t) l = true.
Proof.
  intros Ht H. apply forallb_forall. intros u Hu.
  rewrite Forall_forall in H. unfold same_shape.
  rewrite Ht, (H u Hu). apply eqb_shape_refl.
Qed.

(** Stacking [n >= 1] vectors of [a] elements. *)
Lemma stack_vectors (n a : nat) (l : list tensor) :
  (1 <= n)%nat -> length l = n -> Forall (fun t => has_shape t [a]) l ->
  exists m, stack l = Ok (T2 m) /\ length m = n /\
            Forall (fun r => length r = a) m.
Proof.
  intros Hn Hlen H. destruct (rows1_ok H) as (m & E & Hm & Hr).
  destruct l as [|t l]; simpl in Hlen; [lia|].
  unfold stack.
  assert (Hs : forallb (same_shape t) (t :: l) = true).
  { apply forallb_same_shape with (s := [a]).
    - inversion H; subst. destruct t; simpl in *; try contradiction.
      now f_equal.
    - eapply Forall_impl; [|exact H]. intros u Hu.
      destruct u; simpl in *; try contradiction. now f_equal. }
  rewrite Hs. simpl negb. cbv iota.
  inversion H as [|? ? Ht _]; subst.
  destruct (has_shape1_inv Ht) as (v & -> & _).
  rewrite E. simpl. exists m. split; [reflexivity|]. split; [exact Hm|exact Hr].
Qed.

(** Stacking [n >= 1] matrices of [a >= 1] rows and [b] columns. *)
Lemma stack_matrices (n a b : nat) (l : list tensor) :
  (1 <= n)%nat -> (1 <= a)%nat -> length l = n ->
  Forall (fun t => has_shape t [a; b]) l ->
  exists c, stack l = Ok (T3 c) /\ length c = n /\
            Forall (fun m => length m = a /\
                             Forall (fun r => length r = b) m) c.
Proof.
  intros Hn Ha Hlen H. destruct (rows2_ok H) as (c & E & Hc & Hr).
  destruct l as [|t l]; simpl in Hlen; [lia|].
  unfold stack.
  assert (Hs : forallb (same_shape t) (t :: l) = true).
  { apply forallb_same_shape with (s := [a; b]).
    - inversion H; subst. now apply shape_of_has_shape2.
    - eapply Forall_impl; [|exact H]. intros u Hu.
      now apply shape_of_has_shape2. }
  rewrite Hs. simpl negb. cbv iota.
  inversion H as [|? ? Ht _]; subst.
  destruct (has_shape2_inv Ht) as (m & -> & _).
  rewrite E. simpl. exists c. split; [reflexivity|]. split; [exact Hc|exact Hr].
Qed.

End Shapes.

Section TransposeElements.
Context {A : Type}.

(** Transposition only rearranges: whatever sits in a row of the
    result sat in a row of the argument. *)
Lemma fold_zip_cons_elements (P : A -> Prop) (w : nat) (m : list (list A)) :
  Forall (Forall P) m ->
  Forall (Forall P) (fold_right zip_cons (repeat [] w) m).
Proof.
  induction 1 as [|r m Hr Hm IH]; simpl.
  - apply Forall_forall. intros x Hx. apply repeat_spec in Hx. subst.
    constructor.
  - apply Forall_forall. intros x Hx. unfold zip_cons in Hx.
    apply in_map_iff in Hx. destruct Hx as ([a row] & <- & Hin).
    simpl. constructor.
    + apply in_combine_l in Hin. rewrite Forall_forall in Hr. auto.
    + apply in_combine_r in Hin. rewrite Forall_forall in IH. auto.
Qed.

Lemma transpose_elements (P : A -> Prop) (m : list (list A)) :
  Forall (Forall P) m -> Forall (Forall P) (transpose m).
Proof. apply fold_zip_cons_elements. Qed.

End TransposeElements.

(* ================================================================== *)
(** ** [_parse_outputs] *)

Section ParseOutputs.
Context {SC : Scalar} {MD : Modules}.

Lemma cube_both (b k : nat) (c : list (list (list F))) :
  Forall (fun m => length m = b) c ->
  Forall (Forall (fun r : list F => length r = k)) c ->
  Forall (fun m => length m = b /\ Forall (fun r => length r = k) m) c.
Proof.
  intros H1 H2. rewrite Forall_forall in *. intros m Hm. split; auto.
Qed.

Lemma cube_split (a b k : nat) (c : list (list (list F))) :
  cube a b k c ->
  Forall (fun m => length m = b) c /\
  Forall (Forall (fun r : list F => length r = k)) c.
Proof.
  intros [_ H]. split; eapply Forall_impl; try exact H; simpl; intros ? [];
    assumption.
Qed.

(** [torch.stack(l).transpose(0, 1)] on vectors *)
Lemma stack_transpose_vectors (n a : nat) (l : list tensor) :
  (1 <= n)%nat -> length l = n -> Forall (fun t => has_shape t [a]) l ->
  exists m, rbind (stack l) transpose01 = Ok (T2 m) /\
            has_shape (T2 m) [a; n].
Proof.
  intros Hn Hlen H.
  destruct (stack_vectors Hn Hlen H) as (m & -> & Hm & Hr). simpl.
  destruct (transpose_shape Hn Hm Hr) as [L R].
  exists (transpose m). split; [reflexivity|]. simpl. auto.
Qed.

(** [torch.stack(l).transpose(0, 1)] on matrices *)
Lemma stack_transpose_matrices (n a b : nat) (l : list tensor) :
  (1 <= n)%nat -> (1 <= a)%nat -> length l = n ->
  Forall (fun t => has_shape t [a; b]) l ->
  exists c, rbind (stack l) transpose01 = Ok (T3 c) /\ cube a n b c.
Proof.
  intros Hn Ha Hlen H.
  destruct (stack_matrices Hn Ha Hlen H) as (c & -> & Hc & Hr). simpl.
  destruct (cube_split (conj Hc Hr)) as [H1 H2].
  destruct (transpose_shape Hn Hc H1) as [L R].
  exists (transpose c). split; [reflexivity|]. split; [exact L|].
  apply cube_both; [exact R|]. now apply transpose_elements.
Qed.

Lemma cube_numel (a b k : nat) (c : list (list (list F))) :
  cube a b k c -> length (concat (map (@concat F) c)) = (a * (b * k))%nat.
Proof.
  intros [Ha H]. apply concat_length_rows.
  - now rewrite length_map.
  - apply Forall_forall. intros x Hx. apply in_map_iff in Hx.
    destruct Hx as (m & <- & Hm). rewrite Forall_forall in H.
    destruct (H m Hm) as [Hb Hk]. now apply concat_length_rows.
Qed.

(** [x.view(a, -1, fd)] regroups [n] groups of [fd * rr] values into
    [n * rr] frames of [fd] values. *)
Lemma view_mid_frames (a n fd rr : nat) (c : list (list (list F))) :
  (1 <= a)%nat -> (1 <= fd)%nat ->
  cube a n (fd * rr) c ->
  exists c', view_mid (Z.of_nat a) (Z.of_nat fd) (T3 c) = Ok (T3 c') /\
             cube a (n * rr) fd c'.
Proof.
  intros Ha Hfd Hc. unfold view_mid, numel. simpl flatten.
  rewrite (cube_numel Hc).
  assert (E : Z.of_nat (a * (n * (fd * rr)))
              = Z.of_nat (n * rr) * (Z.of_nat a * Z.of_nat fd)) by nia.
  rewrite E, Z_mod_mult, Z_div_mult by nia.
  destruct (Z.leb_spec (Z.of_nat a) 0); [lia|].
  destruct (Z.leb_spec (Z.of_nat fd) 0); [lia|].
  simpl. rewrite !Nat2Z.id.
  eexists. split; [reflexivity|]. split.
  - now rewrite length_map, chunks_length.
  - apply Forall_forall. intros m Hm. apply in_map_iff in Hm.
    destruct Hm as (flat & <- & Hflat). split.
    + apply chunks_length.
    + apply chunks_rows.
      assert (Hrows : Forall (fun r : list F => length r = (n * rr * fd)%nat)
                        (chunks (n * rr * fd) a
                                (concat (map (@concat F) c)))).
      { apply chunks_rows. rewrite (cube_numel Hc). nia. }
      rewrite Forall_forall in Hrows. now apply Hrows.
Qed.

(** [x.transpose(1, 2)] *)
Lemma transpose12_cube (a b k : nat) (c : list (list (list F))) :
  (1 <= b)%nat -> cube a b k c ->
  transpose12 (T3 c) = Ok (T3 (map (@transpose F) c)) /\
  cube a k b (map (@transpose F) c).
Proof.
  intros Hb [Ha H]. split; [reflexivity|]. split.
  - now rewrite length_map.
  - apply Forall_forall. intros m Hm. apply in_map_iff in Hm.
    destruct Hm as (m0 & <- & Hm0). rewrite Forall_forall in H.
    destruct (H m0 Hm0) as [Hlen Hrows].
    now apply transpose_shape.
Qed.

(** C6.  Given, for [T >= 1] steps, [T] output frame-groups of shape
    (batch, frame_dim * r), [T] stop-logits of shape (batch) and [T]
    alignment vectors of shape (batch, encoder_length),
    [_parse_outputs] returns outputs of shape
    (batch, frame_dim, T * r), stop-logits of shape (batch, T) and
    alignments of shape (batch, T, encoder_length), leaving the
    decoder as it was. *)
Theorem parse_outputs_shapes
  (w : World) (os ss als : list tensor)
  (T batch fd rr encoder_length : nat) :
  (1 <= T)%nat -> (1 <= batch)%nat -> (1 <= fd)%nat -> (1 <= rr)%nat ->
  frame_dim (self w) = Z.of_nat fd ->
  length os = T -> Forall (fun o => has_shape o [batch; fd * rr]%nat) os ->
  length ss = T -> Forall (fun s => has_shape s [batch]) ss ->
  length als = T ->
  Forall (fun a => has_shape a [batch; encoder_length]) als ->
  exists o s a,
    _parse_outputs os ss als w = Ok ((o, s, a), w) /\
    has_shape o [batch; fd; T * rr]%nat /\
    has_shape s [batch; T] /\
    has_shape a [batch; T; encoder_length].
Proof.
  intros HT HB Hfd Hrr Hframe Hos Hoshape Hss Hsshape Hals Halshape.
  destruct (stack_transpose_matrices HT HB Hals Halshape) as (a & Ea & Ha).
  destruct (stack_transpose_vectors HT Hss Hsshape) as (s & Es & Hs).
  destruct (stack_transpose_matrices HT HB Hos Hoshape) as (o & Eo & Ho).
  destruct (view_mid_frames HB Hfd Ho) as (o' & Ev & Ho').
  assert (HTr : (1 <= T * rr)%nat) by nia.
  destruct (transpose12_cube HTr Ho') as [Et Ho''].
  exists (T3 (map (@transpose F) o')), (T2 s), (T3 a).
  split; [|split; [exact Ho''|split; [exact Hs|exact Ha]]].
  unfold _parse_outputs, bind, lift, get, ret.
  rewrite Ea, Es, Eo. unfold size. simpl nth_error.
  destruct Ho as [-> _]. rewrite Hframe, Ev, Et. reflexivity.
Qed.

End ParseOutputs.

(** Three steps of a batch of one, [frame_dim = 2], [r = 2] and two
    encoder positions. *)
Lemma parse_outputs_shapes_witness :
  exists o s a,
    @_parse_outputs Toy.scalar (Toy.modules 0)
      (repeat (@T2 Toy.scalar [[1; 2; 3; 4]%Q]) 3)
      (repeat (@T1 Toy.scalar [0%Q]) 3)
      (repeat (@T2 Toy.scalar [[1; 0]%Q]) 3)
      (Toy.world 0) = Ok ((o, s, a), Toy.world 0) /\
    has_shape o [1; 2; 3 * 2]%nat /\
    has_shape s [1; 3]%nat /\
    has_shape a [1; 3; 2]%nat.
Proof.
  apply (@parse_outputs_shapes Toy.scalar (Toy.modules 0) (Toy.world 0)
           (repeat (@T2 Toy.scalar [[1; 2; 3; 4]%Q]) 3)
           (repeat (@T1 Toy.scalar [0%Q]) 3)
           (repeat (@T2 Toy.scalar [[1; 0]%Q]) 3)
           3%nat 1%nat 2%nat 2%nat 2%nat);
    try lia; try reflexivity; simpl; repeat constructor.
Defined.

(* ================================================================== *)
(** ** Reasoning about methods *)

Section MethodLaws.
Context {SC : Scalar} {MD : Modules}.

Lemma bind_Ok {A B} (m : M A) (k : A -> M B) (w : World) (r : B * World) :
  bind m k w = Ok r -> exists a w', m w = Ok (a, w') /\ k a w' = Ok r.
Proof.
  unfold bind. destruct (m w) as [[a w']|e]; [eauto|discriminate].
Qed.

Lemma bind_step {A B} (m : M A) (k : A -> M B) (w w' : World) (a : A) :
  m w = Ok (a, w') -> bind m k w = k a w'.
Proof. unfold bind. now intros ->. Qed.

Lemma lift_Ok {A} (x : result A) (w : World) (r : A * World) :
  lift x w = Ok r -> x = Ok (fst r) /\ snd r = w.
Proof. unfold lift. destruct x; [|discriminate]. now intros [= <-]. Qed.

Lemma attr_Ok {A} (f : Decoder -> option A) (w : World) (r : A * World) :
  attr f w = Ok r -> f (self w) = Some (fst r) /\ snd r = w.
Proof.
  unfold attr. destruct (f (self w)); [|discriminate]. now intros [= <-].
Qed.

(** *** Methods blind to an attribute *)

Section Blind.
Variable u : Decoder -> Decoder.

Lemma blind_ret {A} (a : A) : blind u (ret a).
Proof. intros w. reflexivity. Qed.

Lemma blind_raise {A} (e : exn) : blind u (@raise _ _ A e).
Proof. intros w. reflexivity. Qed.

Lemma blind_lift {A} (x : result A) : blind u (lift x).
Proof. intros w. destruct x; reflexivity. Qed.

Lemma blind_draw {A} (f : Rng -> A * Rng) : blind u (draw f).
Proof. intros w. unfold draw. simpl. now destruct (f (rng w)). Qed.

Lemma blind_print (s : string) : blind u (print s).
Proof. intros w. reflexivity. Qed.

Lemma blind_get {A} (f : Decoder -> A) :
  (forall d, f (u d) = f d) -> blind u (get f).
Proof. intros H w. unfold get, touch. simpl. now rewrite H. Qed.

Lemma blind_attr {A} (f : Decoder -> option A) :
  (forall d, f (u d) = f d) -> blind u (attr f).
Proof.
  intros H w. unfold attr, touch. simpl. rewrite H.
  now destruct (f (self w)).
Qed.

Lemma blind_assign (upd : Decoder -> Decoder) :
  (forall d, upd (u d) = u (upd d)) -> blind u (assign upd).
Proof. intros H w. unfold assign, touch. simpl. now rewrite H. Qed.

Lemma blind_bind {A B} (m : M A) (k : A -> M B) :
  blind u m -> (forall a, blind u (k a)) -> blind u (bind m k).
Proof.
  intros Hm Hk w. unfold bind. rewrite Hm.
  destruct (m w) as [[a w']|e]; simpl; [apply Hk|reflexivity].
Qed.

End Blind.

(** *** Methods that keep an observation *)

Section Keeps.
Context {X : Type}.
Variable f : World -> X.

Lemma keeps_ret {A} (a : A) : keeps f (ret a).
Proof. intros w b w' [= _ <-]. reflexivity. Qed.

Lemma keeps_raise {A} (e : exn) : keeps f (@raise _ _ A e).
Proof. intros w b w' [=]. Qed.

Lemma keeps_lift {A} (x : result A) : keeps f (lift x).
Proof. intros w b w' H. apply lift_Ok in H. simpl in H. now destruct H as [_ ->]. Qed.

Lemma keeps_get {A} (g : Decoder -> A) : keeps f (get g).
Proof. intros w b w' [= _ <-]. reflexivity. Qed.

Lemma keeps_attr {A} (g : Decoder -> option A) : keeps f (attr g).
Proof. intros w b w' H. apply attr_Ok in H. simpl in H. now destruct H as [_ ->]. Qed.

Lemma keeps_assign (upd : Decoder -> Decoder) :
  (forall w, f (touch upd w) = f w) -> keeps f (assign upd).
Proof. intros H w b w' [= _ <-]. apply H. Qed.

Lemma keeps_draw {A} (h : Rng -> A * Rng) :
  (forall w g, f (with_rng g w) = f w) -> keeps f (draw h).
Proof.
  intros H w b w'. unfold draw. destruct (h (rng w)). intros [= _ <-]. apply H.
Qed.

Lemma keeps_print (s : string) :
  (forall w o, f (with_stdout o w) = f w) -> keeps f (print s).
Proof. intros H w b w' [= _ <-]. apply H. Qed.

Lemma keeps_bind {A B} (m : M A) (k : A -> M B) :
  keeps f m -> (forall a, keeps f (k a)) -> keeps f (bind m k).
Proof.
  intros Hm Hk w b w' H. apply bind_Ok in H.
  destruct H as (a & w1 & H1 & H2).
  rewrite (Hk a _ _ _ H2). exact (Hm _ _ _ H1).
Qed.

End Keeps.

(** *** Methods that maintain a property *)

Section Preserves.
Variable P : World -> Prop.

Lemma preserves_ret {A} (a : A) : preserves P (ret a).
Proof. intros w b w' H [= _ <-]. exact H. Qed.

Lemma preserves_raise {A} (e : exn) : preserves P (@raise _ _ A e).
Proof. intros w b w' _ [=]. Qed.

Lemma preserves_lift {A} (x : result A) : preserves P (lift x).
Proof.
  intros w b w' H E. apply lift_Ok in E. simpl in E. now destruct E as [_ ->].
Qed.

Lemma preserves_get {A} (g : Decoder -> A) : preserves P (get g).
Proof. intros w b w' H [= _ <-]. exact H. Qed.

Lemma preserves_attr {A} (g : Decoder -> option A) : preserves P (attr g).
Proof.
  intros w b w' H E. apply attr_Ok in E. simpl in E. now destruct E as [_ ->].
Qed.

Lemma preserves_assign (upd : Decoder -> Decoder) :
  (forall w, P w -> P (touch upd w)) -> preserves P (assign upd).
Proof. intros H w b w' Hw [= _ <-]. now apply H. Qed.

Lemma preserves_draw {A} (h : Rng -> A * Rng) :
  (forall w g, P w -> P (with_rng g w)) -> preserves P (draw h).
Proof.
  intros H w b w' Hw. unfold draw. destruct (h (rng w)).
  intros [= _ <-]. now apply H.
Qed.

Lemma preserves_print (s : string) :
  (forall w o, P w -> P (with_stdout o w)) -> preserves P (print s).
Proof. intros H w b w' Hw [= _ <-]. now apply H. Qed.

Lemma preserves_bind {A B} (m : M A) (k : A -> M B) :
  preserves P m -> (forall a, preserves P (k a)) -> preserves P (bind m k).
Proof.
  intros Hm Hk w b w' Hw H. apply bind_Ok in H.
  destruct H as (a & w1 & H1 & H2).
  exact (Hk a _ _ _ (Hm _ _ _ Hw H1) H2).
Qed.

End Preserves.

End MethodLaws.

(** Decomposes a goal [blind u m] or [keeps f m] along the structure
    of [m]; [side] settles what is asked of an attribute access. *)
Create HintDb frames.

(** Case analysis on the first call that is still to be run: a [match]
    whose scrutinee holds no other [match]. *)
Ltac run_innermost_in H :=
  match type of H with
  | context [match ?x with _ => _ end] =>
      lazymatch x with
      | context [match _ with _ => _ end] => fail
      | _ => destruct x eqn:?; simpl in H
      end
  end.

Ltac run_innermost :=
  match goal with
  | |- context [match ?x with _ => _ end] =>
      lazymatch x with
      | context [match _ with _ => _ end] => fail
      | _ => destruct x; simpl
      end
  end.

Ltac method_frame side :=
  repeat first
    [ solve [auto with frames]
    | apply blind_bind; [|intros]
    | apply blind_ret | apply blind_raise | apply blind_lift
    | apply blind_draw | apply blind_print
    | apply blind_get; side
    | apply blind_attr; side
    | apply blind_assign; side
    | apply keeps_bind; [|intros]
    | apply keeps_ret | apply keeps_raise | apply keeps_lift
    | apply keeps_get | apply keeps_attr
    | apply keeps_assign; side
    | apply keeps_draw; side
    | apply keeps_print; side
    | apply preserves_bind; [|intros]
    | apply preserves_ret | apply preserves_raise | apply preserves_lift
    | apply preserves_get | apply preserves_attr
    | apply preserves_assign; side
    | apply preserves_draw; side
    | apply preserves_print; side
    | match goal with
      | |- preserves _ (if ?b then _ else _) => destruct b
      | |- preserves _ (match ?x with _ => _ end) => destruct x
      | |- blind _ (if ?b then _ else _) => destruct b
      | |- blind _ (match ?x with _ => _ end) => destruct x
      | |- keeps _ (if ?b then _ else _) => destruct b
      | |- keeps _ (match ?x with _ => _ end) => destruct x
      end ].

(* ================================================================== *)
(** ** What no method reads: [gate_threshold] *)

Section GateThreshold.
Context {SC : Scalar} {MD : Modules}.
Variable g : Q.

Local Abbreviation u := (with_gate_threshold g).
Local Ltac side := intros; reflexivity.

Lemma blind_gate_get_go_frame x : blind u (get_go_frame x).
Proof. unfold get_go_frame. method_frame side. Qed.

Lemma blind_gate_init_states x m k : blind u (_init_states x m k).
Proof. unfold _init_states. method_frame side. Qed.

Lemma blind_gate_parse_outputs a b c : blind u (_parse_outputs a b c).
Proof. unfold _parse_outputs. method_frame side. Qed.

Lemma blind_gate_update_memory x : blind u (_update_memory x).
Proof. unfold _update_memory. method_frame side. Qed.

Lemma blind_gate_call_stopnet x : blind u (call_stopnet x).
Proof. unfold call_stopnet. method_frame side. Qed.

Hint Resolve blind_gate_get_go_frame blind_gate_init_states
  blind_gate_parse_outputs blind_gate_update_memory
  blind_gate_call_stopnet : frames.

Lemma blind_gate_decode x : blind u (decode x).
Proof. unfold decode. method_frame side. Qed.

Hint Resolve blind_gate_decode : frames.

Lemma blind_gate_inference_body x e l : blind u (inference_body x e l).
Proof. unfold inference_body. method_frame side. Qed.

Lemma blind_gate_inference_truncated_body a t :
  blind u (inference_truncated_body a t).
Proof. unfold inference_truncated_body. method_frame side. Qed.

Hint Resolve blind_gate_inference_body
  blind_gate_inference_truncated_body : frames.

Lemma blind_gate_inference_loop fuel x e l :
  blind u (inference_loop fuel x e l).
Proof.
  revert l. induction fuel as [|fuel IH]; intros l; simpl.
  - apply blind_raise.
  - method_frame side.
Qed.

Lemma blind_gate_inference_truncated_loop fuel a t :
  blind u (inference_truncated_loop fuel a t).
Proof.
  revert a t. induction fuel as [|fuel IH]; intros a t; simpl.
  - apply blind_raise.
  - method_frame side.
Qed.

Hint Resolve blind_gate_inference_loop
  blind_gate_inference_truncated_loop : frames.

Lemma blind_gate_inference_run fuel x e : blind u (inference_run fuel x e).
Proof. unfold inference_run, inference_setup. method_frame side. Qed.

Lemma blind_gate_inference_truncated_run fuel x :
  blind u (inference_truncated_run fuel x).
Proof.
  unfold inference_truncated_run, inference_truncated_entry.
  method_frame side.
Qed.

Hint Resolve blind_gate_inference_run
  blind_gate_inference_truncated_run : frames.

Lemma blind_gate_inference fuel x e : blind u (inference fuel x e).
Proof. unfold inference. method_frame side. Qed.

Lemma blind_gate_inference_truncated fuel x :
  blind u (inference_truncated fuel x).
Proof. unfold inference_truncated. method_frame side. Qed.

End GateThreshold.

(** C10.  [gate_threshold] is initialised to 0.5 and then never
    consulted: a run of [inference] or of [inference_truncated] started
    with any other value [g] in that attribute raises the same
    exception or returns the same tensors, after the same number of
    steps (the loop leaves the same collected lists and the same [t]),
    and leaves the same world but for that attribute. *)
Theorem gate_threshold_never_consulted
  {SC : Scalar} {MD : Modules}
  (g : Q) (fuel : nat) (inputs : tensor) (speaker_embeddings : option tensor)
  (w : World) :
  (forall input_dim frame_dim r attn_type attn_win attn_norm prenet_type
          prenet_dropout forward_attn trans_agent forward_attn_mask
          location_attn attn_K separate_stopnet speaker_embedding_dim,
      gate_threshold
        (__init__ input_dim frame_dim r attn_type attn_win attn_norm
           prenet_type prenet_dropout forward_attn trans_agent
           forward_attn_mask location_attn attn_K separate_stopnet
           speaker_embedding_dim) = 0.5%Q) /\
  inference fuel inputs speaker_embeddings
      (touch (with_gate_threshold g) w)
    = carry (with_gate_threshold g)
        (inference fuel inputs speaker_embeddings w) /\
  inference_truncated fuel inputs (touch (with_gate_threshold g) w)
    = carry (with_gate_threshold g) (inference_truncated fuel inputs w) /\
  inference_run fuel inputs speaker_embeddings
      (touch (with_gate_threshold g) w)
    = carry (with_gate_threshold g)
        (inference_run fuel inputs speaker_embeddings w) /\
  inference_truncated_run fuel inputs (touch (with_gate_threshold g) w)
    = carry (with_gate_threshold g) (inference_truncated_run fuel inputs w).
Proof.
  split; [reflexivity|].
  split; [apply blind_gate_inference|].
  split; [apply blind_gate_inference_truncated|].
  split; [apply blind_gate_inference_run|].
  apply blind_gate_inference_truncated_run.
Qed.

(* ================================================================== *)
(** ** [set_r] and the static projection *)

Section SetR.
Context {SC : Scalar} {MD : Modules}.

(** [decode] is its projection part followed by the selection. *)
Lemma decode_unfold (memory : tensor) (w : World) :
  decode memory w
  = bind (decode_projection memory)
         (fun p => decode_select (fst p) (snd p)) w.
Proof.
  unfold decode, decode_projection, decode_select, call_stopnet.
  unfold bind, attr, lift, get, assign, draw, ret. simpl.
  repeat match goal with
         | |- context [match ?x with _ => _ end] => destruct x; simpl
         end; reflexivity.
Qed.

Section BlindR.
Variable n : Z.
Local Abbreviation u := (with_r n).
Local Ltac side := intros; reflexivity.

Lemma blind_r_call_stopnet x : blind u (call_stopnet x).
Proof. unfold call_stopnet. method_frame side. Qed.

Hint Resolve blind_r_call_stopnet : frames.


End BlindR.

Local Ltac side := intros; reflexivity.

Lemma keeps_frame_dim_call_stopnet x :
  keeps (fun w => frame_dim (self w)) (call_stopnet x).
Proof. unfold call_stopnet. method_frame side. Qed.

Hint Resolve keeps_frame_dim_call_stopnet : frames.


Lemma keeps_r_call_stopnet x :
  keeps (fun w => (r (self w), frame_dim (self w))) (call_stopnet x).
Proof. unfold call_stopnet. method_frame side. Qed.

Hint Resolve keeps_r_call_stopnet : frames.

Lemma keeps_r_decode_projection x :
  keeps (fun w => (r (self w), frame_dim (self w))) (decode_projection x).
Proof. unfold decode_projection. method_frame side. Qed.

(** A successful [decode], taken apart. *)
Lemma decode_Ok (memory : tensor) (w w1 : World) (o a s : tensor) :
  decode memory w = Ok ((o, a, s), w1) ->
  exists raw,
    decode_projection memory w = Ok ((raw, s), w1) /\
    index_1_to (r (self w) * frame_dim (self w)) raw = Ok o /\
    a = attention_weights (attention (self w1)).
Proof.
  intros H. rewrite decode_unfold in H. apply bind_Ok in H.
  destruct H as ([raw s'] & w2 & Hp & Hs).
  pose proof (keeps_r_decode_projection Hp) as Hk. simpl in Hk.
  injection Hk as Hr Hf.
  unfold decode_select, bind, get, lift, ret in Hs. simpl in Hs.
  rewrite Hr, Hf in Hs.
  destruct (index_1_to (r (self w) * frame_dim (self w)) raw) as [o'|] eqn:E;
    [|discriminate].
  injection Hs as <- <- <- <-. eauto.
Qed.



End SetR.

(* ================================================================== *)
(** ** State carried across calls of [inference_truncated] *)

Section TruncatedState.
Context {SC : Scalar} {MD : Modules}.

Local Ltac side := unfold buffered; intros; simpl; solve [assumption|discriminate].

Lemma buffered_parse_outputs a b c : preserves buffered (_parse_outputs a b c).
Proof. unfold _parse_outputs. method_frame side. Qed.

Lemma buffered_call_stopnet x : preserves buffered (call_stopnet x).
Proof. unfold call_stopnet. method_frame side. Qed.

Hint Resolve buffered_parse_outputs buffered_call_stopnet : frames.

Lemma buffered_decode x : preserves buffered (decode x).
Proof. unfold decode. method_frame side. Qed.

Hint Resolve buffered_decode : frames.

Lemma buffered_body a t : preserves buffered (inference_truncated_body a t).
Proof. unfold inference_truncated_body. method_frame side. Qed.

Hint Resolve buffered_body : frames.

Lemma buffered_loop fuel a t :
  preserves buffered (inference_truncated_loop fuel a t).
Proof.
  revert a t. induction fuel as [|fuel IH]; intros a t; simpl.
  - apply preserves_raise.
  - method_frame side.
Qed.

Lemma size0_ok (x : tensor) : size 0 x = Ok (Z.of_nat (hd O (shape x))).
Proof. destruct x; reflexivity. Qed.

(** What the entry of [inference_truncated] does to the state. *)
Lemma entry_outcome (inputs : tensor) (w : World) :
  match inference_truncated_entry inputs w with
  | Ok (_, w') =>
      memory_truncated (self w') <> None /\
      match memory_truncated (self w) with
      | None => recurrent_state (self w') = zero_state inputs (self w)
      | Some mt =>
          memory_truncated (self w') = Some mt /\
          recurrent_state (self w') = recurrent_state (self w)
      end
  | Raise _ => memory_truncated (self w) = None
  end.
Proof.
  unfold inference_truncated_entry, _init_states, get_go_frame.
  unfold bind at 1. unfold get at 1.
  destruct (memory_truncated (self w)) as [mt|] eqn:E.
  - unfold bind, lift, get, assign, ret. rewrite size0_ok. simpl.
    rewrite E. split; [discriminate|split; reflexivity].
  - unfold bind, lift, get, assign, ret. rewrite size0_ok. simpl.
    unfold zeros_repeat. simpl.
    repeat run_innermost; try reflexivity.
    split; [discriminate|]. unfold zero_state, zeros.
    rewrite !Nat2Z.id. reflexivity.
Qed.

(** C8.  At the entry of [inference_truncated] the recurrent state
    (query, attention_rnn_cell_state, decoder_hidden, decoder_cell,
    context) is reset to zeros when there is no truncated-memory
    buffer, and is left as it was when there is one; the entry can
    only fail when there is none.  The entry leaves a buffer behind and
    a completed call keeps one, so only the very first call resets. *)
Theorem truncated_state_reset_only_first (inputs : tensor) (w : World) :
  match inference_truncated_entry inputs w with
  | Ok (_, w') =>
      memory_truncated (self w') <> None /\
      match memory_truncated (self w) with
      | None => recurrent_state (self w') = zero_state inputs (self w)
      | Some mt =>
          memory_truncated (self w') = Some mt /\
          recurrent_state (self w') = recurrent_state (self w)
      end
  | Raise _ => memory_truncated (self w) = None
  end /\
  (forall fuel res w1 inputs',
      inference_truncated fuel inputs w = Ok (res, w1) ->
      exists w2,
        inference_truncated_entry inputs' w1 = Ok (tt, w2) /\
        recurrent_state (self w2) = recurrent_state (self w1)).
Proof.
  split; [apply entry_outcome|].
  intros fuel res w1 inputs' H.
  assert (Hb : buffered w1).
  { unfold inference_truncated, inference_truncated_run in H.
    apply bind_Ok in H. destruct H as (acc & wa & H & Hp).
    apply bind_Ok in H. destruct H as ([] & we & He & Hl).
    apply bind_Ok in Hl. destruct Hl as ([acc' t'] & wl & Hl & Hr).
    injection Hr as <- <-.
    apply bind_Ok in Hp. destruct Hp as ([[o s] a] & wp & Hp & Hr).
    injection Hr as <- <-.
    eapply buffered_parse_outputs; [|exact Hp].
    eapply buffered_loop; [|exact Hl].
    pose proof (entry_outcome inputs w) as Ho. rewrite He in Ho.
    exact (proj1 Ho). }
  pose proof (entry_outcome inputs' w1) as Ho.
  destruct (inference_truncated_entry inputs' w1) as [[[] w2]|e].
  - exists w2. split; [reflexivity|].
    destruct Ho as [_ Ho]. unfold buffered in Hb.
    destruct (memory_truncated (self w1)); [apply Ho|contradiction].
  - contradiction.
Qed.

End TruncatedState.

(** A first call that stops at its first step (stop-logit 20), then
    the entry of a second call. *)
Lemma truncated_state_reset_only_first_witness :
  exists res w1 w2,
    @inference_truncated Toy.scalar (Toy.modules 20) 3 (Toy.encoded 1 3)
      (Toy.world 20) = Ok (res, w1) /\
    inference_truncated_entry (Toy.encoded 1 3) w1 = Ok (tt, w2) /\
    recurrent_state (self w2) = recurrent_state (self w1).
Proof.
  assert (G : forall (x : @tensor Toy.scalar)
                     (w : @World Toy.scalar (Toy.modules 20))
                     fuel res w1 x',
             inference_truncated fuel x w = Ok (res, w1) ->
             exists w2,
               inference_truncated_entry x' w1 = Ok (tt, w2) /\
               recurrent_state (self w2) = recurrent_state (self w1)).
  { intros x w.
    exact (proj2 (@truncated_state_reset_only_first
                    Toy.scalar (Toy.modules 20) x w)). }
  destruct (@inference_truncated Toy.scalar (Toy.modules 20) 3
              (Toy.encoded 1 3) (Toy.world 20)) as [[res w1]|e] eqn:E.
  - destruct (G _ _ _ _ _ (Toy.encoded 1 3) E) as (w2 & H1 & H2).
    exists res, w1, w2. split; [reflexivity|]. split; assumption.
  - assert (V : returned
                  (@inference_truncated Toy.scalar (Toy.modules 20) 3
                     (Toy.encoded 1 3) (Toy.world 20))
                <> Raise e) by (vm_compute; discriminate).
    rewrite E in V. now elim V.
Defined.


(* ================================================================== *)
(** ** The single-step entry point *)

Section InferenceStep.
Context {SC : Scalar} {MD : Modules}.

(** What [inference_step] returns, in terms of the decode step it
    runs: the second field is the sigmoid of the attention weights and
    the third is the stop-logit itself. *)
Lemma inference_step_returns
  (x : tensor) (t : Z) (memory : option tensor) (w w' : World)
  (f1 f2 f3 : tensor) :
  inference_step x t memory w = Ok ((f1, f2, f3), w') ->
  exists m w0 weights stop_logit,
    decode m w0 = Ok ((f1, weights, stop_logit), w') /\
    weights = attention_weights (attention (self w')) /\
    f2 = tsigmoid weights /\
    f3 = stop_logit.
Proof.
  intros H. unfold inference_step in H.
  apply bind_Ok in H. destruct H as (m1 & w1 & _ & H).
  apply bind_Ok in H. destruct H as (m2 & w2 & _ & H).
  apply bind_Ok in H. destruct H as ([[o a] s] & w3 & Hd & H).
  injection H as <- <- <- <-.
  destruct (decode_Ok Hd) as (raw & _ & _ & Ha).
  exists m2, w2, a, s. auto.
Qed.

End InferenceStep.

(** C2.  On a batch of one sequence of three encoder positions, with a
    stop layer that predicts the logit 20, the decode step of
    [inference_step] returns the frame-group [[0; 0; 0; 0]], the
    attention weights [[1; 0; 0]] and the stop-logit [[20]];
    [inference_step] returns that frame-group first, then the sigmoid
    of the attention weights where the sigmoid of the stop-logit is
    expected, then the raw stop-logit where the attention weights are
    expected. *)
Theorem inference_step_mislabels_fields :
  exists m w0 w',
    @decode Toy.scalar (Toy.modules 20) m w0
      = Ok ((@T2 Toy.scalar [[0; 0; 0; 0]%Q], @T2 Toy.scalar [[1; 0; 0]%Q],
             @T2 Toy.scalar [[20%Q]]), w') /\
    @inference_step Toy.scalar (Toy.modules 20) (Toy.encoded 1 3) 0 None
                    (Toy.world 20)
      = Ok ((@T2 Toy.scalar [[0; 0; 0; 0]%Q],
             tsigmoid (@T2 Toy.scalar [[1; 0; 0]%Q]),
             @T2 Toy.scalar [[20%Q]]), w') /\
    tsigmoid (@T2 Toy.scalar [[1; 0; 0]%Q])
      <> tsigmoid (@T2 Toy.scalar [[20%Q]]) /\
    @T2 Toy.scalar [[20%Q]] <> @T2 Toy.scalar [[1; 0; 0]%Q].
Proof.
  destruct (@inference_step Toy.scalar (Toy.modules 20) (Toy.encoded 1 3)
              0 None (Toy.world 20)) as [[[[f1 f2] f3] w']|e] eqn:E.
  - assert (V : returned
                  (@inference_step Toy.scalar (Toy.modules 20)
                     (Toy.encoded 1 3) 0 None (Toy.world 20))
                = Ok (@T2 Toy.scalar [[0; 0; 0; 0]%Q],
                      tsigmoid (@T2 Toy.scalar [[1; 0; 0]%Q]),
                      @T2 Toy.scalar [[20%Q]]))
      by (vm_compute; reflexivity).
    rewrite E in V. simpl in V. injection V as -> -> ->.
    assert (W : match @inference_step Toy.scalar (Toy.modules 20)
                        (Toy.encoded 1 3) 0 None (Toy.world 20) with
                | Ok (_, w1) =>
                    attention_weights (attention (self w1))
                    = @T2 Toy.scalar [[1; 0; 0]%Q]
                | Raise _ => True
                end)
      by (vm_compute; reflexivity).
    rewrite E in W.
    destruct (inference_step_returns E) as (m & w0 & a & s & Hd & Ha & _ & <-).
    rewrite W in Ha. subst a.
    exists m, w0, w'. repeat split; try assumption; discriminate.
  - assert (V : returned
                  (@inference_step Toy.scalar (Toy.modules 20)
                     (Toy.encoded 1 3) 0 None (Toy.world 20))
                <> Raise e) by (vm_compute; discriminate).
    rewrite E in V. now elim V.
Qed.

(* ================================================================== *)
(** ** The stop-gate of [inference] *)

Section StopGate.
Context {SC : Scalar} {MD : Modules}.

Lemma gt_half_spec (t n : Z) : gt_half t n = true <-> n < 2 * t.
Proof.
  unfold gt_half. rewrite negb_true_iff, <- not_true_iff_false, Qle_bool_iff.
  unfold Qle, Qdiv, Qmult, Qinv, inject_Z. cbn [Qnum Qden Pos.mul]. lia.
Qed.

(** The guard of the stop-gate compares [t] with half of
    [inputs.shape[0]], the extent [_init_states] and [get_go_frame]
    call [B]. *)
Lemma gate_break_guard
  (x : tensor) (e : option tensor) (l l' : Locals) (w w' : World) :
  inference_body x e l w = Ok ((Break_gate, l'), w') ->
  Z.of_nat (hd O (shape x)) < 2 * t l /\ t l' = t l.
Proof.
  intros H. unfold inference_body in H.
  unfold bind, get, attr, draw, lift, ret, assign, print in H.
  simpl in H. rewrite size0_ok in H.
  repeat run_innermost_in H; try discriminate.
  all: injection H as <- <-; simpl; split; [|reflexivity].
  all: now apply gt_half_spec.
Qed.

End StopGate.

(** C1.  A batch of one sequence of ten encoder positions, with a stop
    layer that predicts the logit 20 at every step (its sigmoid is
    above 0.7): whatever fuel is left, the loop of [inference] ends at
    its second iteration, with two decode steps done and [t = 1],
    without the ceiling's diagnostic, although half the input length
    is 5. *)
Theorem inference_stops_before_half_length (fuel : nat) :
  @size Toy.scalar 1 (Toy.encoded 1 10) = Ok 10 /\
  @truth_gt Toy.scalar (tsigmoid (@T2 Toy.scalar [[20%Q]])) (const 0.7%Q)
    = Ok true /\
  exists l w',
    @inference_run Toy.scalar (Toy.modules 20) (S (S fuel))
      (Toy.encoded 1 10) None (Toy.world 20) = Ok (l, w') /\
    Py.len (outputs (collected l)) = 2 /\
    stop_tokens (collected l)
      = [tsigmoid (@T2 Toy.scalar [[20%Q]]);
         tsigmoid (@T2 Toy.scalar [[20%Q]])] /\
    t l = 1 /\
    stdout w' = [].
Proof.
  split; [reflexivity|]. split; [reflexivity|].
  destruct (@inference_run Toy.scalar (Toy.modules 20) (S (S fuel))
              (Toy.encoded 1 10) None (Toy.world 20))
    as [[l w']|e] eqn:E.
  - exists l, w'. split; [reflexivity|].
    assert (V : match @inference_run Toy.scalar (Toy.modules 20)
                        (S (S fuel)) (Toy.encoded 1 10) None
                        (Toy.world 20) with
                | Ok (l, w') =>
                    Py.len (outputs (collected l)) = 2 /\
                    stop_tokens (collected l)
                      = [tsigmoid (@T2 Toy.scalar [[20%Q]]);
                         tsigmoid (@T2 Toy.scalar [[20%Q]])] /\
                    t l = 1 /\
                    stdout w' = []
                | Raise _ => False
                end)
      by (vm_compute; repeat split; reflexivity).
    now rewrite E in V.
  - assert (V : returned
                  (@inference_run Toy.scalar (Toy.modules 20) (S (S fuel))
                     (Toy.encoded 1 10) None (Toy.world 20))
                <> Raise e) by (vm_compute; discriminate).
    rewrite E in V. now elim V.
Qed.

(* ================================================================== *)
(** ** Steps that cannot fail *)

Section Progress.
Context {SC : Scalar} {MD : Modules}.
Variable b : nat.
Hypothesis HB : Batched b.

Lemma rows_inv (x : tensor) : rows b x -> exists m, x = T2 m /\ length m = b.
Proof. destruct x; simpl; try contradiction. eauto. Qed.

Lemma app2_length {A} (x y : list (list A)) :
  length x = b -> length y = b -> length (app2 x y) = b.
Proof.
  intros Hx Hy. unfold app2. rewrite length_map, length_combine. lia.
Qed.

Lemma cat_axis1_rows (x y : tensor) :
  rows b x -> rows b y -> exists z, cat_axis 1 x y = Ok z /\ rows b z.
Proof.
  intros Hx Hy. apply rows_inv in Hx, Hy.
  destruct Hx as (m & -> & Hm), Hy as (m' & -> & Hm').
  unfold cat_axis, same_but. simpl. rewrite Hm, Hm', Nat.eqb_refl. simpl.
  eexists. split; [reflexivity|]. simpl. now apply app2_length.
Qed.

(** [torch.cat((x, y), -1)] and [torch.cat((x, y), dim=1)] on two
    matrices of [b] rows *)
Lemma cat_last_rows (x y : tensor) :
  rows b x -> rows b y -> exists z, cat (-1) x y = Ok z /\ rows b z.
Proof.
  intros Hx Hy. destruct (rows_inv Hx) as (m & -> & _).
  now apply cat_axis1_rows.
Qed.

Lemma cat_one_rows (x y : tensor) :
  rows b x -> rows b y -> exists z, cat 1 x y = Ok z /\ rows b z.
Proof. intros Hx Hy. now apply cat_axis1_rows. Qed.

Lemma squeeze1_rows (x : tensor) : rows b x -> exists y, squeeze1 x = Ok y.
Proof. intros H. destruct (rows_inv H) as (m & -> & _). simpl. eauto. Qed.

Lemma index_1_to_rows (k : Z) (x : tensor) :
  rows b x -> exists y, index_1_to k x = Ok y /\ rows b y.
Proof.
  intros H. destruct (rows_inv H) as (m & -> & Hm). simpl.
  eexists. split; [reflexivity|]. simpl. now rewrite length_map.
Qed.

Lemma update_memory_rows (x : tensor) (w : World) :
  rows b x -> exists y, _update_memory x w = Ok (y, w) /\ rows b y.
Proof.
  intros H. destruct (rows_inv H) as (m & -> & Hm).
  unfold _update_memory, bind, get, lift. simpl.
  eexists. split; [reflexivity|]. simpl. now rewrite length_map.
Qed.

#[local] Arguments cat : simpl never.
#[local] Arguments index_1_to : simpl never.

Local Ltac rows_side :=
  first [assumption | apply (linear_rows HB); assumption].

(** Runs the next call of a layer, or the next [cat], in the goal. *)
Local Ltac decode_step :=
  match goal with
  | |- context [LSTMCell_call ?cell ?x (?h, ?c)] =>
      let H := fresh "Hl" in
      assert (H : rows b (fst (LSTMCell_call cell x (h, c))) /\
                  rows b (snd (LSTMCell_call cell x (h, c))))
        by (apply (lstm_rows HB); rows_side);
      destruct (LSTMCell_call cell x (h, c)) as [? ?];
      simpl in H; destruct H; simpl
  | |- context [F_dropout ?x ?p ?tr ?g] =>
      let H := fresh "Hd" in
      assert (H : rows b (fst (F_dropout x p tr g)))
        by (apply (dropout_rows HB); rows_side);
      destruct (F_dropout x p tr g) as [? ?]; simpl in H; simpl
  | Hal : forall att q px msk, rows b q -> _
    |- context [Attention_call ?att ?q ?x ?px ?m] =>
      let H := fresh "Ha" in
      let H' := fresh "Hw" in
      assert (H : rows b (fst (Attention_call att q x px m)))
        by (apply (attention_rows HB); rows_side);
      assert (H' := Hal att q px m ltac:(rows_side));
      destruct (Attention_call att q x px m) as [? ?];
      simpl in H, H'; simpl
  | |- context [cat (-1) ?x ?y] =>
      let H := fresh "Hc" in
      destruct (@cat_last_rows x y) as (? & -> & H); [rows_side|rows_side|];
      simpl
  | |- context [cat 1 ?x ?y] =>
      let H := fresh "Hc" in
      destruct (@cat_one_rows x y) as (? & -> & H); [rows_side|rows_side|];
      simpl
  | |- context [index_1_to ?k ?x] =>
      let H := fresh "Hi" in
      let E := fresh "Ei" in
      destruct (@index_1_to_rows k x) as (? & E & H); [rows_side|];
      rewrite E; simpl
  end.

(** Under the layers' contract a decode step on a ready decoder
    returns, leaves the decoder ready, and touches neither its
    hyper-parameters nor the output stream.  [Pout] is any property
    of what is cut from the projection's output, [Pal] any property of
    the attention weights after a call on the decoder's inputs. *)
Lemma decode_runs_with (Pout Pal : tensor -> Prop) (x memory : tensor)
      (w : World) :
  ready b w -> rows b memory -> inputs (self w) = Some x ->
  (forall xp o, rows b xp ->
     index_1_to (r (self w) * frame_dim (self w))
                (Linear_call (linear_projection (self w)) xp) = Ok o ->
     Pout o) ->
  (forall att q px msk, rows b q ->
     Pal (attention_weights (snd (Attention_call att q x px msk)))) ->
  exists o a y w',
    decode memory w
      = Ok ((o, a, Linear_call (stop_linear (stopnet (self w))) y), w') /\
    rows b o /\ rows b y /\ ready b w' /\
    stdout w' = stdout w /\
    memory_truncated (self w') = memory_truncated (self w) /\
    inputs (self w') = Some x /\
    Pout o /\ Pal a.
Proof.
  intros (Hq & Hc & Hh & Hdc & Hctx & Hin & Hpin & Hmsk) Hm Ex Hout Hal.
  destruct (query (self w)) as [q|] eqn:Eq; [|contradiction].
  destruct (attention_rnn_cell_state (self w)) as [c|] eqn:Ec; [|contradiction].
  destruct (decoder_hidden (self w)) as [h|] eqn:Eh; [|contradiction].
  destruct (decoder_cell (self w)) as [dc|] eqn:Edc; [|contradiction].
  destruct (context (self w)) as [ctx|] eqn:Ectx; [|contradiction].
  destruct (inputs (self w)) as [inp|] eqn:Einp; [|contradiction].
  injection Ex as ->.
  destruct (processed_inputs (self w)) as [pin|] eqn:Epin; [|contradiction].
  destruct (mask (self w)) as [msk|] eqn:Emsk; [|contradiction].
  simpl in Hq, Hc, Hh, Hdc, Hctx, Hin.
  unfold decode, call_stopnet.
  unfold bind, attr, get, lift, assign, draw, ret. simpl.
  rewrite Ectx.
  destruct (cat_last_rows Hm Hctx) as (qi & -> & Hqi).
  rewrite Eq, Ec.
  repeat first [decode_step
               | rewrite Einp; simpl | rewrite Epin; simpl
               | rewrite Emsk; simpl | rewrite Eh; simpl
               | rewrite Edc; simpl].
  unfold detach.
  destruct (separate_stopnet (self w)); simpl; repeat decode_step.
  all: do 4 eexists; split; [reflexivity|]; simpl.
  all: unfold ready; simpl; rewrite Einp, Epin, Emsk; simpl.
  all: repeat split; try assumption; try discriminate.
  all: match goal with
       | E : index_1_to _ (Linear_call _ ?xp) = Ok ?o |- _ =>
           apply (Hout xp o); [assumption|exact E]
       end.
Qed.

Lemma decode_runs (memory : tensor) (w : World) :
  ready b w -> rows b memory ->
  exists o a y w',
    decode memory w
      = Ok ((o, a, Linear_call (stop_linear (stopnet (self w))) y), w') /\
    rows b o /\ rows b y /\ ready b w' /\
    stdout w' = stdout w /\
    memory_truncated (self w') = memory_truncated (self w).
Proof.
  intros Hready Hm.
  assert (Hin : exists x, inputs (self w) = Some x).
  { destruct Hready as (_ & _ & _ & _ & _ & Hin & _).
    destruct (inputs (self w)) as [x|]; [eauto|contradiction]. }
  destruct Hin as (x & Ex).
  destruct (@decode_runs_with (fun _ => True) (fun _ => True) x memory w)
    as (o & a & y & w' & E & H1 & H2 & H3 & H4 & H5 & _); auto.
  exists o, a, y, w'. repeat (split; [assumption|]). assumption.
Qed.

End Progress.

(* ================================================================== *)
(** ** The step ceiling *)

Section Ceiling.
Context {SC : Scalar} {MD : Modules}.
Hypothesis HB : Batched 1.

Local Ltac side := intros; reflexivity.

Lemma keeps_fixed_call_stopnet x : keeps fixed (call_stopnet x).
Proof. unfold call_stopnet. method_frame side. Qed.

Lemma keeps_fixed_update_memory x : keeps fixed (_update_memory x).
Proof. unfold _update_memory. method_frame side. Qed.

Hint Resolve keeps_fixed_call_stopnet keeps_fixed_update_memory : frames.

Lemma keeps_fixed_decode x : keeps fixed (decode x).
Proof. unfold decode. method_frame side. Qed.

Hint Resolve keeps_fixed_decode : frames.

Lemma keeps_fixed_inference_body x e l : keeps fixed (inference_body x e l).
Proof. unfold inference_body. method_frame side. Qed.

Lemma keeps_fixed_inference_truncated_body a t :
  keeps fixed (inference_truncated_body a t).
Proof. unfold inference_truncated_body. method_frame side. Qed.

Lemma keeps_fixed_get_go_frame x : keeps fixed (get_go_frame x).
Proof. unfold get_go_frame. method_frame side. Qed.

Lemma keeps_fixed_init_states x m k : keeps fixed (_init_states x m k).
Proof. unfold _init_states. method_frame side. Qed.

Hint Resolve keeps_fixed_get_go_frame keeps_fixed_init_states : frames.

Lemma keeps_fixed_inference_setup x : keeps fixed (inference_setup x).
Proof. unfold inference_setup. method_frame side. Qed.

Lemma keeps_fixed_inference_truncated_entry x :
  keeps fixed (inference_truncated_entry x).
Proof. unfold inference_truncated_entry. method_frame side. Qed.

(** The stop-logit [decode] returns is an output of the stop layer. *)
Lemma decode_stop_token (memory : tensor) (w w1 : World) (o a s : tensor) :
  decode memory w = Ok ((o, a, s), w1) ->
  exists y, s = Linear_call (stop_linear (stopnet (self w))) y.
Proof.
  intros H. apply decode_Ok in H. destruct H as (raw & H & _ & _).
  revert H. unfold decode_projection, call_stopnet.
  unfold bind, attr, lift, get, assign, draw, ret. simpl.
  repeat run_innermost; try discriminate; intros [= _ <- _]; eauto.
Qed.

Lemma follows_fixed (x : tensor) (e : option tensor)
      (s s' : Locals * World) :
  follows x e s s' -> fixed (snd s') = fixed (snd s).
Proof.
  induction 1 as [s|l w l1 w1 s Hb Hf IH]; [reflexivity|].
  rewrite IH. simpl. exact (keeps_fixed_inference_body Hb).
Qed.

Lemma follows_truncated_fixed (s s' : Collected * Z * World) :
  follows_truncated s s' -> fixed (snd s') = fixed (snd s).
Proof.
  induction 1 as [s|a t w a1 t1 w1 s Hb Hf IH]; [reflexivity|].
  rewrite IH. simpl. exact (keeps_fixed_inference_truncated_body Hb).
Qed.

Lemma quiet_fixed (w w1 : World) : fixed w1 = fixed w -> quiet w -> quiet w1.
Proof.
  unfold fixed. intros [= _ Hs _ _ _ _] H y. rewrite Hs. apply H.
Qed.

Lemma suited_fixed (fd rr n : nat) (x : tensor) (w w1 : World) :
  fixed w1 = fixed w -> suited fd rr n x w -> suited fd rr n x w1.
Proof.
  unfold fixed. intros [= _ Hs _ Hf Hr Hl] (H1 & H2 & H3 & H4 & H5).
  unfold suited, projection_wide, stop_single.
  rewrite Hs, Hf, Hr, Hl. auto.
Qed.

Lemma max_fixed (w w1 : World) :
  fixed w1 = fixed w -> max_decoder_steps (self w1) = max_decoder_steps (self w).
Proof. unfold fixed. now intros [= H _ _ _ _ _]. Qed.

(** The truth value of [stop_token > 0.7] exists for a single logit. *)
Lemma truth_gt_single (s : tensor) (c : F) :
  has_shape s [1; 1]%nat -> exists v, truth_gt (tsigmoid (data s)) c = Ok v.
Proof.
  intros H. apply has_shape2_inv in H. destruct H as (m & -> & Hm & Hr).
  destruct m as [|row [|? ?]]; try discriminate.
  inversion Hr as [|? ? Hrow _]; subst.
  destruct row as [|v [|? ?]]; try discriminate.
  unfold truth_gt. simpl. eauto.
Qed.

Lemma tsigmoid_shape (s : tensor) (a c : nat) :
  has_shape s [a; c] -> has_shape (tsigmoid (data s)) [a; c].
Proof.
  intros H. apply has_shape2_inv in H. destruct H as (m & -> & Hm & Hr).
  simpl. split; [now rewrite length_map|].
  apply Forall_forall. intros row Hrow. apply in_map_iff in Hrow.
  destruct Hrow as (row0 & <- & Hin). rewrite length_map.
  rewrite Forall_forall in Hr. now apply Hr.
Qed.

(** Cutting a row of at least [rr * fd] columns to that many. *)
Lemma index_1_to_group (fd rr k' : nat) (raw o : tensor) :
  (fd * rr <= k')%nat -> has_shape raw [1%nat; k'] ->
  index_1_to (Z.of_nat rr * Z.of_nat fd) raw = Ok o ->
  has_shape o [1%nat; (fd * rr)%nat].
Proof.
  intros Hk H E. apply has_shape2_inv in H.
  destruct H as (m & -> & Hm & Hr). simpl in E. injection E as <-.
  simpl. split; [now rewrite length_map|].
  apply Forall_forall. intros row Hrow. apply in_map_iff in Hrow.
  destruct Hrow as (row0 & <- & Hin). rewrite Forall_forall in Hr.
  unfold Py.slice_to.
  destruct (Z.ltb_spec (Z.of_nat rr * Z.of_nat fd) 0); [lia|].
  rewrite length_firstn, (Hr row0 Hin). lia.
Qed.

(** [squeeze(1)] of one row of [k] columns *)
Lemma squeeze1_group (k : nat) (o : tensor) :
  has_shape o [1%nat; k] -> exists o', squeeze1 o = Ok o' /\ squeezed k o'.
Proof.
  intros H. pose proof H as H0. apply has_shape2_inv in H.
  destruct H as (m & -> & Hm & Hr).
  destruct m as [|row [|? ?]]; try discriminate.
  inversion Hr as [|? ? Hrow _]; subst.
  unfold squeeze1, squeezed. simpl width.
  eexists. split; [reflexivity|].
  destruct (Nat.eqb (length row) 1) eqn:E; [|exact H0].
  simpl. rewrite app_nil_r. now apply Nat.eqb_eq.
Qed.

Lemma shaped_collect (k n : nat) (o s a : tensor) (acc : Collected) :
  shaped k n acc -> squeezed k o -> has_shape s [1; 1]%nat ->
  has_shape a [1%nat; n] -> shaped k n (collect o s a acc).
Proof.
  intros (H1 & H2 & H3 & H4 & H5) Ho Hs Ha. unfold shaped. simpl.
  repeat split.
  - apply Forall_app. split; [assumption|now constructor].
  - apply Forall_app. split; [assumption|now constructor].
  - apply Forall_app. split; [assumption|now constructor].
  - rewrite !length_app. simpl. lia.
  - rewrite !length_app. simpl. lia.
Qed.

#[local] Arguments cat : simpl never.
#[local] Arguments truth_gt : simpl never.
#[local] Arguments squeeze1 : simpl never.
#[local] Arguments tsigmoid : simpl never.

Section Run.
Variables (fd rr n : nat) (x : tensor).

(** The decode step of an iteration, with what it adds to the
    collected lists. *)
Lemma decode_collects (m : tensor) (w : World) :
  suited fd rr n x w -> ready 1 w -> inputs (self w) = Some x ->
  rows 1 m ->
  exists o a s w1 o',
    decode m w = Ok ((o, a, s), w1) /\
    squeeze1 o = Ok o' /\
    rows 1 o /\ squeezed (fd * rr) o' /\
    has_shape a [1%nat; n] /\ has_shape s [1; 1]%nat /\
    ready 1 w1 /\ inputs (self w1) = Some x /\
    stdout w1 = stdout w /\
    memory_truncated (self w1) = memory_truncated (self w).
Proof.
  intros (Hfd & Hr & Hproj & Hal & Hstop) Hready Hin Hm.
  destruct (@decode_runs_with _ _ 1%nat HB
              (fun o => has_shape o [1%nat; (fd * rr)%nat])
              (fun a => has_shape a [1%nat; n]) x m w)
    as (o & a & y & w1 & Ed & Ho & Hy & Hr1 & Hout & Hmt & Hin1 & Hos & Has);
    try assumption.
  - intros xp o Hxp E. destruct (Hproj xp Hxp) as (k' & Hk & Hs).
    rewrite Hr, Hfd in E. exact (index_1_to_group Hk Hs E).
  - destruct (squeeze1_group Hos) as (o' & Eo & Ho').
    exists o, a, (Linear_call (stop_linear (stopnet (self w))) y), w1, o'.
    repeat (split; [assumption|]). split; [now apply Hstop|].
    repeat (split; [assumption|]). assumption.
Qed.

(** One iteration of the loop of [inference] on a ready decoder
    returns; what it leaves depends on how it ends. *)
Lemma inference_body_runs (e : option tensor) (l : Locals) (w : World) :
  suited fd rr n x w -> ready 1 w -> inputs (self w) = Some x ->
  rows 1 (memory l) -> embedding_ok e ->
  shaped (fd * rr) n (collected l) ->
  exists c l1 w1,
    inference_body x e l w = Ok ((c, l1), w1) /\
    length (outputs (collected l1)) = S (length (outputs (collected l))) /\
    shaped (fd * rr) n (collected l1) /\
    match c with
    | Break_gate => True
    | Break_ceiling =>
        Py.len (outputs (collected l1)) = max_decoder_steps (self w) /\
        stdout w1 = stdout w ++ [diagnostic]
    | Continue =>
        Py.len (outputs (collected l1)) <> max_decoder_steps (self w) /\
        ready 1 w1 /\ inputs (self w1) = Some x /\
        rows 1 (memory l1) /\ stdout w1 = stdout w
    end.
Proof.
  intros Hsuit Hready Hin Hmem He Hshaped.
  unfold inference_body.
  unfold bind at 1. unfold get at 1. cbv beta iota.
  unfold bind at 1. unfold draw at 1.
  assert (Hp : rows 1 (fst (Prenet_call (prenet (self w)) (memory l) (rng w))))
    by (apply (prenet_rows HB); assumption).
  destruct (Prenet_call (prenet (self w)) (memory l) (rng w)) as [m g].
  simpl in Hp. cbv beta iota.
  assert (Hm : exists m', (match e with
                           | Some e0 => lift (cat (-1) m e0)
                           | None => ret m
                           end) (with_rng g w) = Ok (m', with_rng g w)
                          /\ rows 1 m').
  { destruct e as [s|]; simpl in He.
    - destruct (cat_last_rows Hp He) as (z & Ez & Hz).
      exists z. unfold lift. now rewrite Ez.
    - exists m. split; [reflexivity|assumption]. }
  destruct Hm as (m' & Em & Hm').
  rewrite (bind_step _ Em).
  assert (Hs0 : suited fd rr n x (with_rng g w)) by exact Hsuit.
  assert (Hr0 : ready 1 (with_rng g w)) by exact Hready.
  assert (Hi0 : inputs (self (with_rng g w)) = Some x) by exact Hin.
  destruct (decode_collects Hs0 Hr0 Hi0 Hm')
    as (o & a & s & w1 & o' & Ed & Eo & Ho & Ho' & Ha & Hs & Hr1 & Hin1
        & Hout & _).
  rewrite (bind_step _ Ed). cbv beta iota zeta.
  unfold bind at 1. unfold lift at 1. rewrite Eo. cbv beta iota.
  destruct (truth_gt_single (const 0.7%Q) Hs) as (v & Ev).
  unfold bind at 1. unfold lift at 1. rewrite Ev. cbv beta iota.
  assert (Hg : exists gate,
             (if v then k <- lift (size 0 x) ;; ret (gt_half (t l) k)
              else ret false) w1 = Ok (gate, w1)).
  { destruct v; [|now exists false].
    unfold bind, lift, ret. rewrite size0_ok. eauto. }
  destruct Hg as (gate & Eg). rewrite (bind_step _ Eg).
  pose proof (max_fixed (keeps_fixed_decode Ed)) as Hmx. simpl in Hmx.
  assert (Hlen : length (outputs (collect o' (tsigmoid (data s)) a
                                          (collected l)))
                 = S (length (outputs (collected l)))).
  { simpl. rewrite length_app. simpl. lia. }
  assert (Hsh : shaped (fd * rr) n
                  (collect o' (tsigmoid (data s)) a (collected l))).
  { apply shaped_collect; try assumption. now apply tsigmoid_shape. }
  destruct gate.
  - do 3 eexists. split; [reflexivity|]. split; [exact Hlen|].
    split; [exact Hsh|exact I].
  - unfold bind at 1. unfold get at 1. cbv beta iota. rewrite Hmx.
    match goal with
    | |- context [?a =? ?mx] => destruct (Z.eqb_spec a mx) as [Emx|Emx]
    end.
    + do 3 eexists. split; [reflexivity|]. split; [exact Hlen|].
      split; [exact Hsh|]. split; [exact Emx|]. simpl. now rewrite Hout.
    + destruct (update_memory_rows (b:=1) w1 Ho) as (mem & Eu & Hmem').
      rewrite (bind_step _ Eu).
      do 3 eexists. split; [reflexivity|]. split; [exact Hlen|].
      split; [exact Hsh|]. split; [exact Emx|]. simpl. auto.
Qed.

(** One iteration of the loop of [inference_truncated]. *)
Lemma inference_truncated_body_runs (acc : Collected) (t : Z) (w : World) :
  suited fd rr n x w -> ready 1 w -> inputs (self w) = Some x ->
  set_rows 1 (memory_truncated (self w)) ->
  shaped (fd * rr) n acc ->
  exists c acc1 t1 w1,
    inference_truncated_body acc t w = Ok ((c, (acc1, t1)), w1) /\
    length (outputs acc1) = S (length (outputs acc)) /\
    shaped (fd * rr) n acc1 /\
    match c with
    | Break_gate => True
    | Break_ceiling =>
        Py.len (outputs acc1) = max_decoder_steps (self w) /\
        stdout w1 = stdout w ++ [diagnostic]
    | Continue =>
        Py.len (outputs acc1) <> max_decoder_steps (self w) /\
        ready 1 w1 /\ inputs (self w1) = Some x /\
        set_rows 1 (memory_truncated (self w1)) /\
        stdout w1 = stdout w
    end.
Proof.
  intros Hsuit Hready Hin Hmt Hshaped.
  destruct (memory_truncated (self w)) as [mt|] eqn:Emt; [|contradiction].
  simpl in Hmt.
  unfold inference_truncated_body.
  unfold bind at 1. unfold get at 1. cbv beta iota.
  unfold bind at 1. unfold attr at 1. rewrite Emt. cbv beta iota.
  unfold bind at 1. unfold draw at 1.
  assert (Hp : rows 1 (fst (Prenet_call (prenet (self w)) mt (rng w))))
    by (apply (prenet_rows HB); assumption).
  destruct (Prenet_call (prenet (self w)) mt (rng w)) as [m g].
  simpl in Hp. cbv beta iota.
  assert (Hs0 : suited fd rr n x (with_rng g w)) by exact Hsuit.
  assert (Hr0 : ready 1 (with_rng g w)) by exact Hready.
  assert (Hi0 : inputs (self (with_rng g w)) = Some x) by exact Hin.
  destruct (decode_collects Hs0 Hr0 Hi0 Hp)
    as (o & a & s & w1 & o' & Ed & Eo & Ho & Ho' & Ha & Hs & Hr1 & Hin1
        & Hout & _).
  rewrite (bind_step _ Ed). cbv beta iota zeta.
  unfold bind at 1. unfold lift at 1. rewrite Eo. cbv beta iota.
  destruct (truth_gt_single (const 0.7%Q) Hs) as (v & Ev).
  unfold bind at 1. unfold lift at 1. rewrite Ev. cbv beta iota.
  pose proof (max_fixed (keeps_fixed_decode Ed)) as Hmx. simpl in Hmx.
  assert (Hlen : length (outputs (collect o' (tsigmoid (data s)) a acc))
                 = S (length (outputs acc))).
  { simpl. rewrite length_app. simpl. lia. }
  assert (Hsh : shaped (fd * rr) n (collect o' (tsigmoid (data s)) a acc)).
  { apply shaped_collect; try assumption. now apply tsigmoid_shape. }
  destruct v.
  - do 4 eexists. split; [reflexivity|]. split; [exact Hlen|].
    split; [exact Hsh|exact I].
  - unfold bind at 1. unfold get at 1. cbv beta iota. rewrite Hmx.
    match goal with
    | |- context [?a =? ?mx] => destruct (Z.eqb_spec a mx) as [Emx|Emx]
    end.
    + do 4 eexists. split; [reflexivity|]. split; [exact Hlen|].
      split; [exact Hsh|]. split; [exact Emx|]. simpl. now rewrite Hout.
    + do 4 eexists. split; [reflexivity|]. split; [exact Hlen|].
      split; [exact Hsh|]. split; [exact Emx|]. simpl. auto.
Qed.

Lemma gate_silent_next (e : option tensor) (l l1 : Locals) (w w1 : World) :
  inference_body x e l w = Ok ((Continue, l1), w1) ->
  gate_silent x e (l, w) -> gate_silent x e (l1, w1).
Proof.
  intros Hb H l2 w2 l' w' Hf. apply H. eapply follows_next; eauto.
Qed.

(** With [S k] iterations left before the ceiling and the gate
    silent, the loop of [inference] ends at the ceiling. *)
Lemma inference_loop_ceiling (e : option tensor) (k : nat) :
  forall fuel l w,
    suited fd rr n x w -> ready 1 w -> inputs (self w) = Some x ->
    rows 1 (memory l) -> embedding_ok e ->
    shaped (fd * rr) n (collected l) ->
    gate_silent x e (l, w) ->
    Py.len (outputs (collected l)) + Z.of_nat (S k)
      = max_decoder_steps (self w) ->
    (S k <= fuel)%nat ->
    exists l' w',
      inference_loop fuel x e l w = Ok (l', w') /\
      Py.len (outputs (collected l')) = max_decoder_steps (self w) /\
      shaped (fd * rr) n (collected l') /\
      fixed w' = fixed w /\
      stdout w' = stdout w ++ [diagnostic].
Proof.
  induction k as [|k IH];
    intros fuel l w Hsuit Hready Hin Hmem He Hsh Hsil Hcount Hfuel.
  all: destruct fuel as [|fuel]; [lia|]; simpl.
  all: destruct (inference_body_runs Hsuit Hready Hin Hmem He Hsh)
         as (c & l1 & w1 & Eb & Hlen & Hsh1 & Hc).
  all: pose proof (keeps_fixed_inference_body Eb) as Hfix.
  all: rewrite (bind_step _ Eb); destruct c.
  all: try (exfalso; exact (Hsil l w l1 w1 (follows_here x e (l, w)) Eb)).
  all: try (destruct Hc as [Hmx Hout]; now exists l1, w1).
  - destruct Hc as [Hne _]. unfold Py.len in *. lia.
  - destruct Hc as (Hne & Hr1 & Hin1 & Hm1 & Hout).
    pose proof (max_fixed Hfix) as Hmx.
    destruct (IH fuel l1 w1) as (l' & w' & El & Hl & Hs' & Hf' & Ho);
      try assumption.
    + now apply (suited_fixed Hfix).
    + now apply (gate_silent_next Eb).
    + rewrite Hmx. unfold Py.len in *. lia.
    + lia.
    + exists l', w'. rewrite <- Hmx, <- Hout, <- Hfix. auto.
Qed.

Lemma gate_silent_truncated_next (a a1 : Collected) (t t1 : Z) (w w1 : World) :
  inference_truncated_body a t w = Ok ((Continue, (a1, t1)), w1) ->
  gate_silent_truncated (a, t, w) -> gate_silent_truncated (a1, t1, w1).
Proof.
  intros Hb H a2 t2 w2 a' t' w' Hf. apply H.
  eapply follows_truncated_next; eauto.
Qed.

Lemma inference_truncated_loop_ceiling (k : nat) :
  forall fuel acc t w,
    suited fd rr n x w -> ready 1 w -> inputs (self w) = Some x ->
    set_rows 1 (memory_truncated (self w)) ->
    shaped (fd * rr) n acc ->
    gate_silent_truncated (acc, t, w) ->
    Py.len (outputs acc) + Z.of_nat (S k) = max_decoder_steps (self w) ->
    (S k <= fuel)%nat ->
    exists acc' t' w',
      inference_truncated_loop fuel acc t w = Ok ((acc', t'), w') /\
      Py.len (outputs acc') = max_decoder_steps (self w) /\
      shaped (fd * rr) n acc' /\
      fixed w' = fixed w /\
      stdout w' = stdout w ++ [diagnostic].
Proof.
  induction k as [|k IH];
    intros fuel acc t w Hsuit Hready Hin Hmt Hsh Hsil Hcount Hfuel.
  all: destruct fuel as [|fuel]; [lia|]; simpl.
  all: destruct (inference_truncated_body_runs t Hsuit Hready Hin Hmt Hsh)
         as (c & a1 & t1 & w1 & Eb & Hlen & Hsh1 & Hc).
  all: pose proof (keeps_fixed_inference_truncated_body Eb) as Hfix.
  all: rewrite (bind_step _ Eb); destruct c.
  all: try (exfalso;
            exact (Hsil acc t w a1 t1 w1
                     (follows_truncated_here (acc, t, w)) Eb)).
  all: try (destruct Hc as [Hmx Hout]; now exists a1, t1, w1).
  - destruct Hc as [Hne _]. unfold Py.len in *. lia.
  - destruct Hc as (Hne & Hr1 & Hin1 & Hm1 & Hout).
    pose proof (max_fixed Hfix) as Hmx.
    destruct (IH fuel a1 t1 w1) as (a' & t' & w' & El & Hl & Hs' & Hf' & Ho);
      try assumption.
    + now apply (suited_fixed Hfix).
    + now apply (gate_silent_truncated_next Eb).
    + rewrite Hmx. unfold Py.len in *. lia.
    + lia.
    + exists a', t', w'. rewrite <- Hmx, <- Hout, <- Hfix. auto.
Qed.

End Run.

(** On a quiet network the gate is silent on every run. *)
Lemma quiet_gate_silent (x : tensor) (e : option tensor)
      (l : Locals) (w : World) :
  quiet w -> gate_silent x e (l, w).
Proof.
  intros Hq l1 w1 l' w' Hf Hb.
  apply follows_fixed in Hf. simpl in Hf.
  pose proof (quiet_fixed Hf Hq) as Hq1. clear Hf Hq.
  unfold inference_body in Hb.
  unfold bind, get, attr, draw, lift, ret, assign, print in Hb.
  simpl in Hb.
  repeat run_innermost_in Hb; try discriminate.
  all: match goal with
       | Hd : decode _ _ = Ok (_, _, ?s, _),
         Ht : truth_gt (tsigmoid (data ?s)) _ = Ok true |- _ =>
           destruct (decode_stop_token Hd) as (y & ->);
           exact (Hq1 y Ht)
       end.
Qed.

Lemma quiet_gate_silent_truncated (acc : Collected) (t : Z) (w : World) :
  quiet w -> gate_silent_truncated (acc, t, w).
Proof.
  intros Hq a1 t1 w1 a' t' w' Hf Hb.
  apply follows_truncated_fixed in Hf. simpl in Hf.
  pose proof (quiet_fixed Hf Hq) as Hq1. clear Hf Hq.
  unfold inference_truncated_body in Hb.
  unfold bind, get, attr, draw, lift, ret, assign, print in Hb.
  simpl in Hb.
  repeat run_innermost_in Hb; try discriminate.
  all: match goal with
       | Hd : decode _ _ = Ok (_, _, ?s, _),
         Ht : truth_gt (tsigmoid (data ?s)) _ = Ok true |- _ =>
           destruct (decode_stop_token Hd) as (y & ->);
           exact (Hq1 y Ht)
       end.
Qed.

Lemma batch_size0 (k : nat) (x : tensor) : batch k x -> hd O (shape x) = k.
Proof. destruct x; simpl; try contradiction. auto. Qed.

Lemma shaped_nothing (k n : nat) : shaped k n nothing.
Proof. unfold shaped. simpl. repeat split; constructor. Qed.

(** The setup of [inference] on a batch of one. *)
Lemma inference_setup_runs (x : tensor) (w : World) :
  extents_ok w -> batch 1 x ->
  exists l0 w0,
    inference_setup x w = Ok (l0, w0) /\
    ready 1 w0 /\ inputs (self w0) = Some x /\
    rows 1 (memory l0) /\ collected l0 = nothing /\
    fixed w0 = fixed w /\ stdout w0 = stdout w.
Proof.
  intros (H1 & H2 & H3 & H4) Hx.
  unfold inference_setup, get_go_frame, _update_memory, _init_states.
  unfold bind, lift, get, assign, ret. rewrite size0_ok, (batch_size0 Hx).
  unfold zeros_repeat. simpl.
  repeat match goal with
         | |- context [?a <? 0] =>
             destruct (Z.ltb_spec a 0); [lia|]; simpl
         end.
  do 2 eexists. split; [reflexivity|].
  unfold ready. simpl. repeat split; try assumption; discriminate.
Qed.

(** The entry of [inference_truncated] on a batch of one. *)
Lemma inference_truncated_entry_runs (x : tensor) (w : World) :
  startable w -> batch 1 x ->
  exists w0,
    inference_truncated_entry x w = Ok (tt, w0) /\
    ready 1 w0 /\ inputs (self w0) = Some x /\
    set_rows 1 (memory_truncated (self w0)) /\
    fixed w0 = fixed w /\ stdout w0 = stdout w.
Proof.
  unfold startable. intros Hs Hx.
  unfold inference_truncated_entry, get_go_frame, _init_states.
  unfold bind at 1. unfold get at 1.
  destruct (memory_truncated (self w)) as [mt|] eqn:Emt.
  - destruct Hs as (Hmt & Hq & Hc & Hh & Hdc & Hctx).
    unfold bind, lift, get, assign, ret. rewrite size0_ok. simpl.
    eexists. split; [reflexivity|].
    unfold ready. simpl. rewrite Emt.
    repeat split; try assumption; discriminate.
  - destruct Hs as (H1 & H2 & H3 & H4).
    unfold bind, lift, get, assign, ret.
    rewrite size0_ok, (batch_size0 Hx).
    unfold zeros_repeat. simpl.
    repeat match goal with
           | |- context [?a <? 0] =>
               destruct (Z.ltb_spec a 0); [lia|]; simpl
           end.
    eexists. split; [reflexivity|].
    unfold ready. simpl. repeat split; try assumption; discriminate.
Qed.

(** [_parse_outputs] accepts what an inference loop has collected. *)
Lemma parse_collected_runs (fd rr n T : nat) (acc : Collected) (w : World) :
  shaped (fd * rr) n acc -> length (outputs acc) = T ->
  (1 <= T)%nat -> (1 <= fd)%nat -> frame_dim (self w) = Z.of_nat fd ->
  exists res,
    _parse_outputs (outputs acc) (stop_tokens acc) (alignments acc) w
    = Ok (res, w).
Proof.
  intros (Ho & Hs & Ha & Ls & La) HT H1 Hfd Hframe.
  rewrite HT in Ls, La.
  destruct (stack_transpose_matrices H1 (le_n 1) La Ha) as (ca & Ea & _).
  destruct (stack_transpose_matrices H1 (le_n 1) Ls Hs) as (cs & Es & _).
  unfold _parse_outputs, bind, lift, get, ret. rewrite Ea, Es.
  unfold squeezed in Ho.
  destruct (Nat.eqb (fd * rr) 1) eqn:E1.
  - destruct (stack_transpose_vectors H1 HT Ho) as (m & Eo & Hm & Hr).
    rewrite Eo. unfold size. simpl nth_error. rewrite Hm, Hframe.
    assert (fd = 1%nat) as ->
      by (apply Nat.eqb_eq in E1; now apply Nat.eq_mul_1 in E1).
    unfold view_mid, numel. simpl.
    rewrite Z.mod_1_r. simpl. eauto.
  - destruct (stack_transpose_matrices H1 (le_n 1) HT Ho) as (co & Eo & Hc).
    rewrite Eo. unfold size. simpl nth_error.
    destruct Hc as [Hl Hc]. rewrite Hl, Hframe.
    destruct (view_mid_frames (le_n 1) Hfd (conj Hl Hc)) as (c' & Ev & _).
    rewrite Ev. simpl. eauto.
Qed.

End Ceiling.

(** C3.  On a batch of one sequence, without speaker embeddings, with
    layers that keep the batch and the shapes of what they return:
    when [max_decoder_steps] is 1,000,000 and the stop-gate fires at
    no iteration of the run, [inference], given at least that many
    iterations, leaves its loop after exactly 1,000,000 decode steps,
    having printed the diagnostic, and returns; it neither goes on nor
    raises.  So does [inference_truncated] when [r] is 1, where the
    buffer it feeds the prenet has the [frame_dim] columns the prenet
    is built for. *)
Theorem ceiling_ends_silent_runs
  {SC : Scalar} {MD : Modules}
  (fd rr n : nat) (x : tensor) (w : World) (fuel : nat) :
  Batched 1 -> suited fd rr n x w -> (1 <= fd)%nat ->
  batch 1 x ->
  max_decoder_steps (self w) = 1000000 ->
  (Z.to_nat 1000000 <= fuel)%nat ->
  (extents_ok w ->
   (forall l0 w0, inference_setup x w = Ok (l0, w0) ->
                  gate_silent x None (l0, w0)) ->
   exists l w' res,
     inference_run fuel x None w = Ok (l, w') /\
     Py.len (outputs (collected l)) = 1000000 /\
     stdout w' = stdout w ++ [diagnostic] /\
     inference fuel x None w = Ok (res, w')) /\
  (rr = 1%nat -> startable w ->
   (forall w0, inference_truncated_entry x w = Ok (tt, w0) ->
               gate_silent_truncated (nothing, 0, w0)) ->
   exists acc w' res,
     inference_truncated_run fuel x w = Ok (acc, w') /\
     Py.len (outputs acc) = 1000000 /\
     stdout w' = stdout w ++ [diagnostic] /\
     inference_truncated fuel x w = Ok (res, w')).
Proof.
  intros HB Hsuit Hfd Hx Hmax Hfuel. split.
  - intros Hext Hsil.
    destruct (inference_setup_runs Hext Hx)
      as (l0 & w0 & Es & Hr & Hin & Hm & Hc & Hfix & Hout).
    pose proof (max_fixed Hfix) as Hmx. rewrite Hmax in Hmx.
    destruct (@inference_loop_ceiling _ _ HB fd rr n x None (Z.to_nat 999999)
                fuel l0 w0)
      as (l & w' & El & Hl & Hsh & Hfix' & Ho); try assumption.
    + exact (suited_fixed Hfix Hsuit).
    + exact I.
    + rewrite Hc. apply shaped_nothing.
    + exact (Hsil l0 w0 Es).
    + rewrite Hmx, Hc. unfold Py.len. simpl length. lia.
    + assert (Er : inference_run fuel x None w = Ok (l, w'))
        by (unfold inference_run; now rewrite (bind_step _ Es)).
      destruct (@parse_collected_runs _ _ fd rr n
                  (Z.to_nat 1000000) (collected l) w')
        as (res & Ep); try assumption.
      * unfold Py.len in Hl. lia.
      * lia.
      * destruct (suited_fixed Hfix' (suited_fixed Hfix Hsuit)) as [Hf _].
        exact Hf.
      * destruct res as [[o s] a]. exists l, w', (o, a, s).
        split; [exact Er|]. split; [now rewrite Hl|].
        split; [now rewrite Ho, Hout|].
        unfold inference. rewrite (bind_step _ Er). cbv beta zeta.
        now rewrite (bind_step _ Ep).
  - intros _ Hstart Hsil.
    destruct (inference_truncated_entry_runs Hstart Hx)
      as (w0 & Es & Hr & Hin & Hm & Hfix & Hout).
    pose proof (max_fixed Hfix) as Hmx. rewrite Hmax in Hmx.
    destruct (@inference_truncated_loop_ceiling _ _ HB fd rr n x
                (Z.to_nat 999999) fuel nothing 0 w0)
      as (acc & t' & w' & El & Hl & Hsh & Hfix' & Ho); try assumption.
    + exact (suited_fixed Hfix Hsuit).
    + apply shaped_nothing.
    + exact (Hsil w0 Es).
    + rewrite Hmx. unfold Py.len. simpl length. lia.
    + assert (Er : inference_truncated_run fuel x w = Ok (acc, w')).
      { unfold inference_truncated_run. rewrite (bind_step _ Es).
        now rewrite (bind_step _ El). }
      destruct (@parse_collected_runs _ _ fd rr n
                  (Z.to_nat 1000000) acc w')
        as (res & Ep); try assumption.
      * unfold Py.len in Hl. lia.
      * lia.
      * destruct (suited_fixed Hfix' (suited_fixed Hfix Hsuit)) as [Hf _].
        exact Hf.
      * destruct res as [[o s] a]. exists acc, w', (o, a, s).
        split; [exact Er|]. split; [now rewrite Hl|].
        split; [now rewrite Ho, Hout|].
        unfold inference_truncated. rewrite (bind_step _ Er).
        now rewrite (bind_step _ Ep).
Qed.
(* ================================================================== *)
(** ** The small network meets the contracts *)

Section ToyContracts.
Variable logit : Q.
Variable b : nat.

Local Existing Instance Toy.scalar.

Lemma toy_batched : @Batched Toy.scalar (Toy.modules logit) b.
Proof.
  constructor; simpl.
  - intros x p tr g Hx. destruct x; simpl in *; try contradiction.
    destruct tr; simpl; [now rewrite length_map|assumption].
  - intros pn x g Hx. destruct x; simpl in *; try contradiction.
    unfold Toy.zero_rows. now rewrite length_map.
  - intros pn x g n Hx. destruct x; simpl in *; try contradiction.
    destruct Hx as [Hn Hc]. split; [now rewrite length_map|].
    apply Forall_forall. intros m Hm. apply in_map_iff in Hm.
    destruct Hm as (m0 & <- & Hm0). rewrite Forall_forall in Hc.
    unfold Toy.zero_rows. rewrite length_map. now apply Hc.
  - intros cell x h c _ Hh Hc. now split.
  - intros att q x px msk _ Hx. destruct x; simpl in *; try contradiction.
    now rewrite length_map.
  - intros lin x Hx. destruct x; simpl in *; try contradiction.
    now rewrite length_map.
Qed.

Lemma toy_suited :
  @suited Toy.scalar (Toy.modules logit) 2 2 3 (Toy.encoded 1 3)
          (Toy.world logit).
Proof.
  split; [reflexivity|]. split; [reflexivity|]. split; [|split].
  - intros x Hx. destruct x as [|m|]; simpl in *; try contradiction.
    exists 4%nat. split; [apply le_n|]. split; [now rewrite length_map|].
    apply Forall_forall. intros r Hr. apply in_map_iff in Hr.
    now destruct Hr as (? & <- & _).
  - intros att q px msk _. simpl. repeat constructor.
  - intros x Hx. destruct x as [|m|]; simpl in *; try contradiction.
    split; [now rewrite length_map|].
    apply Forall_forall. intros r Hr. apply in_map_iff in Hr.
    now destruct Hr as (? & <- & _).
Qed.

End ToyContracts.

(** With the stop-logit 0 the sigmoid is 1/2 at every step. *)
Lemma toy_quiet : @quiet Toy.scalar (Toy.modules 0) (Toy.world 0).
Proof.
  intros y. unfold truth_gt, data.
  assert (H : Forall (fun v => v = Toy.soft_sigmoid 0)
                (@flatten Toy.scalar
                   (tsigmoid
                      (@Linear_call Toy.scalar (Toy.modules 0)
                         (stop_linear (stopnet (self (Toy.world 0)))) y)))).
  { destruct y as [v|m|c]; simpl.
    - repeat constructor.
    - induction m; simpl; repeat constructor. exact IHm.
    - induction c as [|m c IH]; simpl; [constructor|].
      apply Forall_app. split; [|exact IH].
      clear IH. induction m; simpl; repeat constructor. exact IHm. }
  destruct (flatten _) as [|v [|? ?]]; try discriminate.
  inversion H as [|? ? Hv _]; subst. vm_compute. discriminate.
Qed.

(** After [set_r(1)] the small decoder suits runs with one frame per
    step. *)
Lemma toy_suited_after_set_r :
  @suited Toy.scalar (Toy.modules 0) 2 1 3 (Toy.encoded 1 3)
          toy_after_set_r.
Proof.
  destruct (toy_suited 0) as (_ & _ & H3 & H4 & H5).
  split; [reflexivity|]. split; [reflexivity|]. split; [|split].
  - intros y Hy. destruct (H3 y Hy) as (k' & Hk & Hs).
    exists k'. split; [simpl in Hk; simpl; lia|exact Hs].
  - exact H4.
  - exact H5.
Qed.

Lemma toy_quiet_after_set_r :
  @quiet Toy.scalar (Toy.modules 0) toy_after_set_r.
Proof. exact toy_quiet. Qed.

(** A first call on one sequence of three encoder positions:
    [inference] with [r = 2], [inference_truncated] after
    [set_r(1)]. *)
Lemma ceiling_ends_silent_runs_witness :
  (exists l w' res,
     @inference_run Toy.scalar (Toy.modules 0) (Z.to_nat 1000000)
       (Toy.encoded 1 3) None (Toy.world 0) = Ok (l, w') /\
     Py.len (outputs (collected l)) = 1000000 /\
     stdout w' = stdout (Toy.world 0) ++ [diagnostic] /\
     @inference Toy.scalar (Toy.modules 0) (Z.to_nat 1000000)
       (Toy.encoded 1 3) None (Toy.world 0) = Ok (res, w')) /\
  (exists acc w' res,
     @inference_truncated_run Toy.scalar (Toy.modules 0) (Z.to_nat 1000000)
       (Toy.encoded 1 3) toy_after_set_r = Ok (acc, w') /\
     Py.len (outputs acc) = 1000000 /\
     stdout w' = stdout toy_after_set_r ++ [diagnostic] /\
     @inference_truncated Toy.scalar (Toy.modules 0) (Z.to_nat 1000000)
       (Toy.encoded 1 3) toy_after_set_r = Ok (res, w')).
Proof.
  split.
  - destruct (@ceiling_ends_silent_runs Toy.scalar (Toy.modules 0)
                2%nat 2%nat 3%nat
                (Toy.encoded 1 3) (Toy.world 0) (Z.to_nat 1000000))
      as [H1 _].
    + apply toy_batched.
    + apply toy_suited.
    + lia.
    + reflexivity.
    + reflexivity.
    + apply le_n.
    + apply H1.
      * unfold extents_ok. simpl. lia.
      * intros l0 w0 Hs. apply quiet_gate_silent.
        apply (quiet_fixed (keeps_fixed_inference_setup Hs)).
        exact toy_quiet.
  - destruct (@ceiling_ends_silent_runs Toy.scalar (Toy.modules 0)
                2%nat 1%nat 3%nat
                (Toy.encoded 1 3) toy_after_set_r (Z.to_nat 1000000))
      as [_ H2].
    + apply toy_batched.
    + apply toy_suited_after_set_r.
    + lia.
    + reflexivity.
    + reflexivity.
    + apply le_n.
    + apply H2.
      * reflexivity.
      * unfold startable, extents_ok. simpl. lia.
      * intros w0 Hs. apply quiet_gate_silent_truncated.
        apply (quiet_fixed (keeps_fixed_inference_truncated_entry Hs)).
        exact toy_quiet_after_set_r.
Defined.

(** Two sequences of three encoder positions, on the network whose
    stop layer never predicts above 0.7: the gate fires at no
    iteration, and neither run reaches the ceiling; each raises
    RuntimeError at its first step, where the stop tokens of the two
    sequences are compared with 0.7 as one truth value. *)
Lemma ceiling_unreached_on_two_sequences :
  @quiet Toy.scalar (Toy.modules 0) (Toy.world 0) /\
  (forall l0 w0,
      @inference_setup Toy.scalar (Toy.modules 0) (Toy.encoded 2 3)
        (Toy.world 0) = Ok (l0, w0) ->
      gate_silent (Toy.encoded 2 3) None (l0, w0)) /\
  (forall w0,
      @inference_truncated_entry Toy.scalar (Toy.modules 0) (Toy.encoded 2 3)
        (Toy.world 0) = Ok (tt, w0) ->
      gate_silent_truncated (nothing, 0, w0)) /\
  @inference Toy.scalar (Toy.modules 0) (Z.to_nat 1000000)
    (Toy.encoded 2 3) None (Toy.world 0) = Raise RuntimeError /\
  @inference_truncated Toy.scalar (Toy.modules 0) (Z.to_nat 1000000)
    (Toy.encoded 2 3) (Toy.world 0) = Raise RuntimeError /\
  ~ (exists res w',
       @inference Toy.scalar (Toy.modules 0) (Z.to_nat 1000000)
         (Toy.encoded 2 3) None (Toy.world 0) = Ok (res, w')) /\
  ~ (exists res w',
       @inference_truncated Toy.scalar (Toy.modules 0) (Z.to_nat 1000000)
         (Toy.encoded 2 3) (Toy.world 0) = Ok (res, w')).
Proof.
  assert (G : forall fuel,
             @inference Toy.scalar (Toy.modules 0) (S fuel)
               (Toy.encoded 2 3) None (Toy.world 0) = Raise RuntimeError /\
             @inference_truncated Toy.scalar (Toy.modules 0) (S fuel)
               (Toy.encoded 2 3) (Toy.world 0) = Raise RuntimeError)
    by (intros fuel; split; vm_compute; reflexivity).
  replace (Z.to_nat 1000000) with (S (Z.to_nat 999999)) by lia.
  destruct (G (Z.to_nat 999999)) as [E1 E2]. clear G.
  split; [exact toy_quiet|]. split; [|split].
  - intros l0 w0 Hs. apply quiet_gate_silent.
    apply (quiet_fixed (keeps_fixed_inference_setup Hs)). exact toy_quiet.
  - intros w0 Hs. apply quiet_gate_silent_truncated.
    apply (quiet_fixed (keeps_fixed_inference_truncated_entry Hs)).
    exact toy_quiet.
  - split; [exact E1|]. split; [exact E2|]. split.
    + intros (res & w' & H). rewrite E1 in H. inversion H.
    + intros (res & w' & H). rewrite E2 in H. inversion H.
Qed.

(* ================================================================== *)
(** ** What is fed back *)

Section FedBack.
Context {SC : Scalar} {MD : Modules}.

(** An iteration of the loop of [inference_truncated] that goes on,
    taken apart. *)
Lemma truncated_body_continues
      (acc : Collected) (t : Z) (w : World)
      (acc' : Collected) (t' : Z) (w' : World) :
  inference_truncated_body acc t w = Ok ((Continue, (acc', t')), w') ->
  exists mt o a s w1 raw w2,
    memory_truncated (self w) = Some mt /\
    decode (prenet_out mt w) (prenet_world mt w) = Ok ((o, a, s), w1) /\
    decode_projection (prenet_out mt w) (prenet_world mt w)
      = Ok ((raw, s), w2) /\
    index_1_to (r (self w) * frame_dim (self w)) raw = Ok o /\
    memory_truncated (self w') = Some o /\
    t' = t + 1.
Proof.
  intros H. unfold inference_truncated_body in H.
  unfold bind, get, attr, draw, lift, ret, assign, print in H.
  simpl in H.
  repeat run_innermost_in H; try discriminate.
  injection H as <- <- <-.
  match goal with
  | Hp : Prenet_call _ ?mt _ = (?m, ?g),
    Hd : decode ?m _ = Ok (?o, ?a, ?s, ?w1) |- _ =>
      destruct (decode_Ok Hd) as (raw & Hpr & Hi & _);
      exists mt, o, a, s, w1, raw, w1;
      unfold prenet_out, prenet_world; rewrite Hp; simpl;
      repeat split; assumption
  end.
Qed.

(** An iteration of the loop of [inference] that goes on, taken
    apart. *)
Lemma inference_body_continues
      (inputs : tensor) (speaker_embeddings : option tensor)
      (l : Locals) (w : World) (l' : Locals) (w' : World) :
  inference_body inputs speaker_embeddings l w = Ok ((Continue, l'), w') ->
  exists m o a s w1,
    match speaker_embeddings with
    | Some e => cat (-1) (prenet_out (memory l) w) e
    | None => Ok (prenet_out (memory l) w)
    end = Ok m /\
    decode m (prenet_world (memory l) w) = Ok ((o, a, s), w1) /\
    _update_memory o w1 = Ok (memory l', w') /\
    (ndim o = 2%nat ->
     index_1_from (frame_dim (self w) * (r (self w) - 1)) o
       = Ok (memory l')) /\
    t l' = t l + 1.
Proof.
  intros H. unfold inference_body in H.
  unfold bind, get, attr, draw, lift, ret, assign, print in H.
  simpl in H.
  repeat run_innermost_in H; try discriminate.
  all: injection H as <- <-.
  all: match goal with
       | Hp : Prenet_call _ _ _ = (_, _),
         Hd : decode ?m _ = Ok (?o, ?a, ?s, ?w3),
         Hu : _update_memory ?o ?w3 = Ok (_, _) |- _ =>
           pose proof (keeps_fixed_decode Hd) as Hfix;
           pose proof (f_equal (fun x => snd (fst (fst x))) Hfix) as Hf;
           pose proof (f_equal (fun x => snd (fst x)) Hfix) as Hr;
           cbn [fixed fst snd self with_rng] in Hf, Hr;
           exists m, o, a, s, w3;
           unfold prenet_out, prenet_world; rewrite Hp; cbn [fst snd];
           split; [first [assumption|reflexivity]|];
           split; [exact Hd|]; split; [exact Hu|]; split; [|reflexivity];
           intros Hn; unfold _update_memory, bind, get, lift in Hu;
           simpl in Hu; rewrite Hn in Hu; simpl in Hu;
           rewrite Hf, Hr in Hu; simpl;
           match type of Hu with
           | match ?x with _ => _ end = _ =>
               destruct x; [injection Hu as <- _; reflexivity|discriminate]
           end
       end.
Qed.

(** Under the layers' contract a decode step on one sequence gives
    one row of [fd * rr] columns. *)
Lemma decode_group (fd rr n : nat) (x m : tensor) (w : World) :
  Batched 1 -> suited fd rr n x w -> ready 1 w ->
  inputs (self w) = Some x -> rows 1 m ->
  exists o a s w1,
    decode m w = Ok ((o, a, s), w1) /\
    has_shape o [1%nat; (fd * rr)%nat].
Proof.
  intros HB (Hfd & Hr & Hproj & Hal & Hstop) Hready Hin Hm.
  destruct (@decode_runs_with _ _ 1%nat HB
              (fun o => has_shape o [1%nat; (fd * rr)%nat])
              (fun a => True) x m w)
    as (o & a & y & w1 & Ed & _ & _ & _ & _ & _ & _ & Hos & _);
    try assumption.
  - intros xp o Hxp E. destruct (Hproj xp Hxp) as (k' & Hk & Hs).
    rewrite Hr, Hfd in E. exact (index_1_to_group Hk Hs E).
  - intros. exact I.
  - exists o, a, (Linear_call (stop_linear (stopnet (self w))) y), w1.
    split; assumption.
Qed.

(** [_update_memory] on one row of [fd * rr] columns. *)
Lemma update_memory_group (fd rr : nat) (o : tensor) (w : World) :
  (1 <= rr)%nat ->
  frame_dim (self w) = Z.of_nat fd -> r (self w) = Z.of_nat rr ->
  has_shape o [1%nat; (fd * rr)%nat] ->
  _update_memory o w = Ok (last_columns fd o, w) /\
  has_shape (last_columns fd o) [1%nat; fd].
Proof.
  intros Hrr Hfd Hr Ho.
  destruct o as [v|m|c]; simpl in Ho; try contradiction.
  destruct Ho as [Ha Hrows].
  assert (Hrows' : Forall (fun row => length row
                             = Z.to_nat (Z.of_nat fd * Z.of_nat rr)) m).
  { eapply Forall_impl; [|exact Hrows]. intros row Hrow.
    cbv beta in Hrow. rewrite Hrow. lia. }
  assert (H1 : 1 <= Z.of_nat rr) by lia.
  destruct (map_slice_last_frame (fd:=Z.of_nat fd) H1 Hrows') as [E L].
  rewrite Nat2Z.id in E, L. split.
  - unfold _update_memory, bind, get, lift. simpl. rewrite Hfd, Hr.
    now rewrite E.
  - simpl. split; [now rewrite length_map|exact L].
Qed.

(** C9.  What the two inference loops feed back.  An iteration of
    the loop of [inference_truncated] that goes on feeds the buffer
    [memory_truncated] through the prenet into [decode] and stores in
    the buffer the frame-group [decode] returned, as it is: the
    projection's output cut to [r * frame_dim] columns.  An iteration
    of the loop of [inference] that goes on feeds its local [memory]
    through the prenet (joined to the speaker embedding when one is
    given) into [decode] and keeps as [memory] what [_update_memory]
    makes of the frame-group: its columns from [frame_dim * (r - 1)]
    on.  Such iterations exist: with layers that keep the batch and
    a stop layer that never predicts above 0.7, on one sequence and
    short of the step ceiling, an iteration of [inference] goes on
    with the last [frame_dim] of the [frame_dim * r] columns [decode]
    returned, and for [r = 1] an iteration of [inference_truncated]
    goes on with the buffer holding [decode]'s output. *)
Theorem truncated_feeds_back_whole_group (fd rr n : nat) (x : tensor) :
  (forall acc t w acc' t' w',
      inference_truncated_body acc t w = Ok ((Continue, (acc', t')), w') ->
      exists mt o a s w1 raw w2,
        memory_truncated (self w) = Some mt /\
        decode (prenet_out mt w) (prenet_world mt w) = Ok ((o, a, s), w1) /\
        decode_projection (prenet_out mt w) (prenet_world mt w)
          = Ok ((raw, s), w2) /\
        index_1_to (r (self w) * frame_dim (self w)) raw = Ok o /\
        memory_truncated (self w') = Some o /\
        t' = t + 1) /\
  (forall inputs speaker_embeddings l w l' w',
      inference_body inputs speaker_embeddings l w
        = Ok ((Continue, l'), w') ->
      exists m o a s w1,
        match speaker_embeddings with
        | Some e => cat (-1) (prenet_out (memory l) w) e
        | None => Ok (prenet_out (memory l) w)
        end = Ok m /\
        decode m (prenet_world (memory l) w) = Ok ((o, a, s), w1) /\
        _update_memory o w1 = Ok (memory l', w') /\
        (ndim o = 2%nat ->
         index_1_from (frame_dim (self w) * (r (self w) - 1)) o
           = Ok (memory l')) /\
        t l' = t l + 1) /\
  (Batched 1 ->
   (forall acc t w mt,
       suited fd 1 n x w -> ready 1 w -> inputs (self w) = Some x ->
       memory_truncated (self w) = Some mt -> rows 1 mt ->
       shaped fd n acc -> quiet w ->
       Py.len (outputs acc) + 1 <> max_decoder_steps (self w) ->
       exists o a s w1 acc' w',
         decode (prenet_out mt w) (prenet_world mt w)
           = Ok ((o, a, s), w1) /\
         has_shape o [1%nat; fd] /\
         inference_truncated_body acc t w
           = Ok ((Continue, (acc', t + 1)), w') /\
         memory_truncated (self w') = Some o) /\
   (forall l w,
       (1 <= rr)%nat ->
       suited fd rr n x w -> ready 1 w -> inputs (self w) = Some x ->
       rows 1 (memory l) -> shaped (fd * rr) n (collected l) -> quiet w ->
       Py.len (outputs (collected l)) + 1 <> max_decoder_steps (self w) ->
       exists o a s w1 l' w',
         decode (prenet_out (memory l) w) (prenet_world (memory l) w)
           = Ok ((o, a, s), w1) /\
         has_shape o [1%nat; (fd * rr)%nat] /\
         inference_body x None l w = Ok ((Continue, l'), w') /\
         memory l' = last_columns fd o /\
         has_shape (memory l') [1%nat; fd])).
Proof.
  split; [intros acc t w acc' t' w' H; exact (truncated_body_continues H)|].
  split; [intros i e l w l' w' H; exact (inference_body_continues H)|].
  intros HB. split.
  - intros acc t w mt Hsuit Hready Hin Emt Hmt Hsh Hq Hlen.
    assert (Hsh1 : shaped (fd * 1) n acc) by now rewrite Nat.mul_1_r.
    assert (Hmt' : set_rows 1 (memory_truncated (self w)))
      by (rewrite Emt; exact Hmt).
    destruct (@inference_truncated_body_runs _ _ HB fd 1%nat n x acc t w
                Hsuit Hready Hin Hmt' Hsh1)
      as (c & acc1 & t1 & w1 & Eb & Hl & _ & Hc).
    destruct c.
    + exfalso.
      exact (@quiet_gate_silent_truncated _ _ acc t w Hq acc t w acc1 t1 w1
               (follows_truncated_here (acc, t, w)) Eb).
    + exfalso. destruct Hc as [Hmx _]. unfold Py.len in *. lia.
    + destruct (truncated_body_continues Eb)
        as (mt' & o & a & s & w2 & raw & w3 & Emt' & Ed & _ & _ & Ho & ->).
      rewrite Emt in Emt'. injection Emt' as <-.
      assert (Hp : rows 1 (prenet_out mt w))
        by (apply (prenet_rows HB); exact Hmt).
      destruct (@decode_group fd 1%nat n x (prenet_out mt w)
                  (prenet_world mt w) HB Hsuit Hready Hin Hp)
        as (o' & a' & s' & w4 & Ed' & Hos).
      rewrite Ed in Ed'. injection Ed' as <- _ _ _.
      rewrite Nat.mul_1_r in Hos.
      exists o, a, s, w2, acc1, w1. auto.
  - intros l w Hrr Hsuit Hready Hin Hmem Hsh Hq Hlen.
    destruct (@inference_body_runs _ _ HB fd rr n x None l w
                Hsuit Hready Hin Hmem I Hsh)
      as (c & l1 & w1 & Eb & Hl & _ & Hc).
    destruct c.
    + exfalso.
      exact (@quiet_gate_silent _ _ x None l w Hq l w l1 w1
               (follows_here x None (l, w)) Eb).
    + exfalso. destruct Hc as [Hmx _]. unfold Py.len in *. lia.
    + destruct (inference_body_continues Eb)
        as (m & o & a & s & w2 & Em & Ed & Eu & _ & _).
      injection Em as <-.
      assert (Hp : rows 1 (prenet_out (memory l) w))
        by (apply (prenet_rows HB); exact Hmem).
      destruct (@decode_group fd rr n x (prenet_out (memory l) w)
                  (prenet_world (memory l) w) HB Hsuit Hready Hin Hp)
        as (o' & a' & s' & w4 & Ed' & Hos).
      rewrite Ed in Ed'. injection Ed' as <- _ _ _.
      pose proof (keeps_fixed_decode Ed) as Hfix.
      pose proof (f_equal (fun x => snd (fst (fst x))) Hfix) as Hf.
      pose proof (f_equal (fun x => snd (fst x)) Hfix) as Hr.
      cbn [fixed fst snd self with_rng prenet_world] in Hf, Hr.
      destruct Hsuit as (Hfd & Hrw & _).
      rewrite Hfd in Hf. rewrite Hrw in Hr.
      destruct (update_memory_group Hrr Hf Hr Hos) as [Eu' Hlast].
      rewrite Eu in Eu'. injection Eu' as Em _.
      exists o, a, s, w2, l1, w1. rewrite Em. auto.
Qed.

End FedBack.

Lemma toy_ready_truncated_start :
  exists mt,
    ready 1 toy_truncated_start /\
    inputs (self toy_truncated_start) = Some (Toy.encoded 1 3) /\
    memory_truncated (self toy_truncated_start) = Some mt /\
    rows 1 mt /\
    fixed toy_truncated_start = fixed toy_after_set_r.
Proof.
  destruct (@inference_truncated_entry_runs Toy.scalar (Toy.modules 0)
              (Toy.encoded 1 3) toy_after_set_r)
    as (w0 & Es & Hr & Hin & Hm & Hfix & _).
  - unfold startable, extents_ok. simpl. lia.
  - reflexivity.
  - assert (Ew : toy_truncated_start = w0)
      by (unfold toy_truncated_start; now rewrite Es).
    rewrite Ew. clear Ew Es.
    destruct (memory_truncated (self w0)) as [mt|] eqn:Emt; [|contradiction].
    exists mt. auto.
Qed.

Lemma toy_ready_inference_start :
  ready 1 (snd toy_inference_start) /\
  inputs (self (snd toy_inference_start)) = Some (Toy.encoded 1 3) /\
  rows 1 (memory (fst toy_inference_start)) /\
  collected (fst toy_inference_start) = nothing /\
  fixed (snd toy_inference_start) = fixed (Toy.world 0).
Proof.
  destruct (@inference_setup_runs Toy.scalar (Toy.modules 0)
              (Toy.encoded 1 3) (Toy.world 0))
    as (l0 & w0 & Es & Hr & Hin & Hm & Hc & Hfix & _).
  - unfold extents_ok. simpl. lia.
  - reflexivity.
  - assert (Ew : toy_inference_start = (l0, w0))
      by (unfold toy_inference_start; now rewrite Es).
    rewrite Ew. clear Ew Es. cbn [fst snd]. auto.
Qed.

(** The first iteration of a first call on one sequence of three
    encoder positions, the stop-logit being 0.  After [set_r(1)] the
    loop of [inference_truncated] goes on with the two columns
    [decode] returned in the buffer; with [r = 2] the loop of
    [inference] goes on with the last two of the four columns
    [decode] returned. *)
Lemma truncated_feeds_back_whole_group_witness :
  (exists mt o a s w1 acc' w',
     memory_truncated (self toy_truncated_start) = Some mt /\
     decode (prenet_out mt toy_truncated_start)
            (prenet_world mt toy_truncated_start) = Ok ((o, a, s), w1) /\
     has_shape o [1%nat; 2%nat] /\
     inference_truncated_body nothing 0 toy_truncated_start
       = Ok ((Continue, (acc', 0 + 1)), w') /\
     memory_truncated (self w') = Some o) /\
  (exists o a s w1 l' w',
     decode (prenet_out (memory (fst toy_inference_start))
                        (snd toy_inference_start))
            (prenet_world (memory (fst toy_inference_start))
                          (snd toy_inference_start))
       = Ok ((o, a, s), w1) /\
     has_shape o [1%nat; 4%nat] /\
     inference_body (Toy.encoded 1 3) None (fst toy_inference_start)
                    (snd toy_inference_start)
       = Ok ((Continue, l'), w') /\
     memory l' = last_columns 2 o /\
     has_shape (memory l') [1%nat; 2%nat] /\
     index_1_from (frame_dim (self (snd toy_inference_start))
                   * (r (self (snd toy_inference_start)) - 1)) o
       = Ok (memory l')).
Proof.
  destruct (@truncated_feeds_back_whole_group Toy.scalar (Toy.modules 0)
              2%nat 2%nat 3%nat (Toy.encoded 1 3))
    as (_ & Hinv & Hex).
  destruct (Hex (toy_batched 0 1)) as [Htr Hin]. clear Hex.
  split.
  - destruct toy_ready_truncated_start as (mt & Hr & Hi & Emt & Hmt & Hfix).
    revert Hr Hi Emt Hmt Hfix. generalize toy_truncated_start. intros w.
    intros Hr Hi Emt Hmt Hfix.
    destruct (Htr nothing 0 w mt) as (o & a & s & w1 & acc' & w' & H);
      try assumption.
    + exact (suited_fixed Hfix toy_suited_after_set_r).
    + apply shaped_nothing.
    + exact (quiet_fixed Hfix toy_quiet_after_set_r).
    + rewrite (max_fixed Hfix). intros K. vm_compute in K. discriminate K.
    + exists mt, o, a, s, w1, acc', w'. tauto.
  - destruct toy_ready_inference_start as (Hr & Hi & Hm & Hc & Hfix).
    revert Hr Hi Hm Hc Hfix. generalize toy_inference_start.
    intros [l w]. cbn [fst snd]. intros Hr Hi Hm Hc Hfix.
    destruct (Hin l w) as (o & a & s & w1 & l' & w' & Hd & Ho & Hb & Hl & Hs);
      try assumption.
    + lia.
    + exact (suited_fixed Hfix (toy_suited 0)).
    + rewrite Hc. apply shaped_nothing.
    + exact (quiet_fixed Hfix toy_quiet).
    + rewrite (max_fixed Hfix), Hc. intros K. vm_compute in K. discriminate K.
    + destruct (Hinv _ _ _ _ _ _ Hb) as (m & o' & a' & s' & w2 & Em & Hd' & _ & Hix & _).
      injection Em as <-. rewrite Hd in Hd'. injection Hd' as <- _ _ _.
      exists o, a, s, w1, l', w'.
      repeat (split; [assumption|]). apply Hix.
      destruct o as [v|mm|c]; simpl in Ho; try contradiction. reflexivity.
Defined.

(* ================================================================== *)
(** ** Teacher forcing: one step per group of [r] frames *)

Section Forward.
Context {SC : Scalar} {MD : Modules}.
Variable b : nat.
Hypothesis HB : Batched b.
Hypothesis Hb : (1 <= b)%nat.

(** [memory.view(b, n, -1)] groups [n * rr] frames into [n] groups. *)
Lemma view_last_groups (n rr fd : nat) (c : list (list (list F))) :
  (1 <= n)%nat ->
  cube b (n * rr) fd c ->
  exists c', view_last (Z.of_nat b) (Z.of_nat n) (T3 c) = Ok (T3 c') /\
             cube b n (rr * fd) c'.
Proof.
  intros Hn Hc. unfold view_last, numel. simpl flatten.
  rewrite (cube_numel Hc).
  assert (E : Z.of_nat (b * (n * rr * fd))
              = Z.of_nat (rr * fd) * (Z.of_nat b * Z.of_nat n)) by nia.
  rewrite E, Z_mod_mult, Z_div_mult by nia.
  destruct (Z.leb_spec (Z.of_nat b) 0); [lia|].
  destruct (Z.leb_spec (Z.of_nat n) 0); [lia|].
  simpl. rewrite !Nat2Z.id.
  eexists. split; [reflexivity|]. split.
  - now rewrite length_map, chunks_length.
  - apply Forall_forall. intros m Hm. apply in_map_iff in Hm.
    destruct Hm as (flat & <- & Hflat). split.
    + apply chunks_length.
    + apply chunks_rows.
      assert (Hrows : Forall (fun r : list F => length r = (n * (rr * fd))%nat)
                        (chunks (n * (rr * fd)) b
                                (concat (map (@concat F) c)))).
      { apply chunks_rows. rewrite (cube_numel Hc). nia. }
      rewrite Forall_forall in Hrows. now apply Hrows.
Qed.

Lemma transpose01_cube (n k : nat) (c : list (list (list F))) :
  cube b n k c -> cube n b k (transpose c).
Proof.
  intros Hc. destruct (cube_split Hc) as [H1 H2]. destruct Hc as [Hlen _].
  destruct (transpose_shape Hb Hlen H1) as [L R].
  split; [exact L|]. apply cube_both; [exact R|].
  now apply transpose_elements.
Qed.

Lemma cube_shape (a m k : nat) (c : list (list (list F))) :
  (1 <= a)%nat -> (1 <= m)%nat -> cube a m k c -> shape (T3 c) = [a; m; k].
Proof.
  intros Ha Hm [Hlen H]. simpl.
  destruct c as [|m0 c]; simpl in *; [lia|].
  inversion H as [|? ? Hmr _]; subst. destruct Hmr as [Hm0 Hr].
  rewrite Hm0. do 2 f_equal.
  destruct m0 as [|row m0]; simpl in *; [lia|]. inversion Hr. now f_equal.
Qed.

Lemma cube_groups (n k : nat) (c : list (list (list F))) :
  cube n b k c -> groups n b (T3 c).
Proof.
  intros [Hlen H]. split; [exact Hlen|].
  eapply Forall_impl; [|exact H]. now intros ? [].
Qed.

Lemma cat_last_groups (n : nat) (x y : tensor) :
  (1 <= n)%nat -> groups n b x -> groups n b y ->
  exists z, cat (-1) x y = Ok z /\ groups n b z.
Proof.
  intros Hn Hx Hy.
  destruct x as [| |cx]; simpl in Hx; try contradiction.
  destruct y as [| |cy]; simpl in Hy; try contradiction.
  destruct Hx as [Lx Fx], Hy as [Ly Fy].
  unfold cat, cat_axis, same_but. simpl.
  rewrite Lx, Ly, (width_rows Hn Lx Fx), (width_rows Hn Ly Fy).
  rewrite !Nat.eqb_refl. simpl.
  eexists. split; [reflexivity|]. simpl. split.
  - rewrite length_map, length_combine. lia.
  - apply Forall_forall. intros m Hm. apply in_map_iff in Hm.
    destruct Hm as ([m1 m2] & <- & Hin). simpl.
    rewrite Forall_forall in Fx, Fy.
    unfold app2. rewrite length_map, length_combine.
    rewrite (Fx m1 (in_combine_l _ _ _ _ Hin)).
    rewrite (Fy m2 (in_combine_r _ _ _ _ Hin)). lia.
Qed.

Lemma zeros_repeat_ok (k : Z) :
  0 <= k -> zeros_repeat (Z.of_nat b) k = Ok (zeros b k).
Proof.
  intros Hk. unfold zeros_repeat, zeros.
  destruct (Z.ltb_spec (Z.of_nat b) 0); [lia|].
  destruct (Z.ltb_spec k 0); [lia|]. simpl. now rewrite Nat2Z.id.
Qed.

Lemma rows_zeros_b (k : Z) : rows b (zeros b k).
Proof. simpl. apply repeat_length. Qed.

(** [_init_states] with [keep_states=False] on a batch of [b] *)
Lemma init_states_runs (x : tensor) (mask : option tensor) (w : World) :
  extents_ok w -> batch b x ->
  exists w0,
    _init_states x mask false w = Ok (tt, w0) /\
    (forall att, ready b (touch (with_attention att) w0)) /\
    fixed w0 = fixed w /\ attention (self w0) = attention (self w).
Proof.
  intros (H1 & H2 & H3 & H4) Hx.
  unfold _init_states. unfold bind, lift, get, assign, ret.
  rewrite size0_ok, (batch_size0 Hx). simpl.
  rewrite !zeros_repeat_ok by assumption. simpl.
  eexists. split; [reflexivity|]. split; [|split; reflexivity].
  intros att. unfold ready. simpl.
  repeat split; try apply repeat_length; try assumption; discriminate.
Qed.

(** [_reshape_memory] on [n * rr] frames of width [frame_dim] *)
Lemma reshape_memory_runs (c : list (list (list F))) (w : World)
      (n rr fd : nat) :
  (1 <= n)%nat -> (1 <= rr)%nat ->
  frame_dim (self w) = Z.of_nat fd -> r (self w) = Z.of_nat rr ->
  cube b (n * rr) fd c ->
  exists c', _reshape_memory (T3 c) w = Ok (T3 c', w) /\
             cube n b (rr * fd) c'.
Proof.
  intros Hn Hrr Hfd Hr Hc.
  assert (Hnr : (1 <= n * rr)%nat) by nia.
  unfold _reshape_memory, size_last, size.
  rewrite (cube_shape Hb Hnr Hc).
  unfold bind, get, lift, ret. simpl. rewrite Hfd, Z.eqb_refl, Hr.
  unfold Py.floordiv. destruct (Z.eqb_spec (Z.of_nat rr) 0); [lia|].
  replace (Z.of_nat (n * rr) / Z.of_nat rr) with (Z.of_nat n)
    by (rewrite Nat2Z.inj_mul, Z_div_mult; lia).
  destruct (view_last_groups (rr:=rr) Hn Hc) as (c' & -> & Hc').
  simpl. eexists. split; [reflexivity|]. now apply transpose01_cube.
Qed.

(** [torch.cat((go, memories), dim=0)] *)
Lemma cat_go_frame (n k : nat) (z : F) (c : list (list (list F))) :
  (1 <= n)%nat -> cube n b k c ->
  cat 0 (T3 [repeat (repeat z k) b]) (T3 c)
    = Ok (T3 (repeat (repeat z k) b :: c)) /\
  groups (S n) b (T3 (repeat (repeat z k) b :: c)).
Proof.
  intros Hn Hc. unfold cat, cat_axis, same_but.
  rewrite (cube_shape Hn Hb Hc).
  assert (Hgo : cube 1 b k [repeat (repeat z k) b]).
  { split; [reflexivity|]. constructor; [|constructor].
    split; [apply repeat_length|].
    apply Forall_forall. intros row Hrow. apply repeat_spec in Hrow.
    subst. apply repeat_length. }
  rewrite (cube_shape (le_n 1) Hb Hgo). simpl.
  rewrite !Nat.eqb_refl. simpl. split; [reflexivity|].
  destruct (cube_groups Hc) as [Hl Hf]. split; [simpl; lia|].
  constructor; [apply repeat_length|exact Hf].
Qed.

Lemma update_memory_groups (n : nat) (x : tensor) (w : World) :
  groups n b x -> exists y, _update_memory x w = Ok (y, w) /\ groups n b y.
Proof.
  intros H. destruct x as [| |c]; simpl in H; try contradiction.
  destruct H as [Hl Hf].
  unfold _update_memory, bind, get, lift. simpl.
  eexists. split; [reflexivity|]. split; [now rewrite length_map|].
  apply Forall_forall. intros m Hm. apply in_map_iff in Hm.
  destruct Hm as (m0 & <- & Hm0). rewrite Forall_forall in Hf.
  rewrite length_map. now apply Hf.
Qed.

(** The teacher inputs [forward] prepares: the go frame and one group
    per [rr] frames, [n + 1] in all. *)
Lemma forward_setup_runs
      (x memories : tensor) (mask e : option tensor) (w : World)
      (n rr fd : nat) :
  (1 <= n)%nat -> (1 <= rr)%nat ->
  frame_dim (self w) = Z.of_nat fd -> r (self w) = Z.of_nat rr ->
  extents_ok w -> batch b x ->
  has_shape memories [b; n * rr; fd]%nat ->
  embeddings_ok (S n) b e ->
  exists ms w0,
    forward_setup x memories mask e w = Ok (ms, w0) /\
    groups (S n) b ms /\ ready b w0.
Proof.
  intros Hn Hrr Hfd Hr Hext Hx Hshape He.
  destruct memories as [| |c]; simpl in Hshape; try contradiction.
  assert (Hc : cube b (n * rr) fd c) by exact Hshape.
  destruct (reshape_memory_runs Hn Hrr Hfd Hr Hc) as (c' & Er & Hc').
  unfold forward_setup, get_go_frame.
  unfold bind at 1. unfold bind at 1. unfold lift at 1.
  rewrite size0_ok, (batch_size0 Hx). cbv beta iota.
  unfold bind at 1. unfold get at 1. cbv beta iota.
  unfold bind at 1. unfold get at 1. cbv beta iota.
  unfold lift at 1. rewrite Hfd, Hr.
  rewrite zeros_repeat_ok by nia. cbv beta iota.
  unfold bind at 1. unfold lift at 1. unfold zeros at 1.
  unfold unsqueeze0. cbv beta iota.
  rewrite (bind_step _ Er).
  replace (Z.to_nat (Z.of_nat fd * Z.of_nat rr)) with (rr * fd)%nat by lia.
  destruct (cat_go_frame (const 0%Q) Hn Hc') as [Ec Hg].
  unfold bind at 1. unfold lift at 1. rewrite Ec. cbv beta iota.
  destruct (update_memory_groups w Hg) as (m1 & Eu & Hm1).
  rewrite (bind_step _ Eu).
  assert (Hm2 : exists m2, (match e with
                            | Some e0 => lift (cat (-1) m1 e0)
                            | None => ret m1
                            end) w = Ok (m2, w) /\ groups (S n) b m2).
  { destruct e as [s|]; simpl in He.
    - destruct (@cat_last_groups (S n) m1 s) as (z & Ez & Hz);
        [lia|assumption|assumption|].
      exists z. unfold lift. now rewrite Ez.
    - exists m1. split; [reflexivity|assumption]. }
  destruct Hm2 as (m2 & Em2 & Hm2). rewrite (bind_step _ Em2).
  unfold bind at 1. unfold get at 1. cbv beta iota.
  unfold bind at 1. unfold draw at 1.
  assert (Hp : groups (S n) b (fst (Prenet_call (prenet (self w)) m2 (rng w))))
    by (apply (prenet_groups HB); assumption).
  destruct (Prenet_call (prenet (self w)) m2 (rng w)) as [m3 g].
  simpl in Hp. cbv beta iota.
  assert (Hext' : extents_ok (with_rng g w)) by exact Hext.
  destruct (init_states_runs mask Hext' Hx) as (w0 & Ei & Hready & _ & _).
  rewrite (bind_step _ Ei).
  unfold bind, get, assign, ret. cbv beta iota.
  do 2 eexists. split; [reflexivity|]. split; [exact Hp|]. apply Hready.
Qed.

Lemma index_0_group (n k : nat) (ms : tensor) :
  groups n b ms -> (k < n)%nat ->
  exists m, index_0 k ms = Ok m /\ rows b m.
Proof.
  intros H Hk. destruct ms as [| |c]; simpl in H; try contradiction.
  destruct H as [Hl Hf]. simpl.
  destruct (nth_error c k) as [m|] eqn:E.
  - exists (T2 m). split; [reflexivity|]. simpl.
    rewrite Forall_forall in Hf. apply Hf. eapply nth_error_In; eauto.
  - apply nth_error_None in E. lia.
Qed.

(** With [k] groups still to be fed, the loop of [forward] runs [k]
    more decode steps and stops. *)
Lemma forward_loop_runs (n : nat) (ms : tensor) (k : nat) :
  forall fuel acc w,
    groups (S n) b ms -> ready b w ->
    (length (outputs acc) + k = n)%nat -> (k <= fuel)%nat ->
    exists acc' w',
      forward_loop fuel ms acc w = Ok (acc', w') /\
      length (outputs acc') = n.
Proof.
  induction k as [|k IH]; intros fuel acc w Hms Hready Hcount Hfuel.
  all: assert (Hsize : size 0 ms = Ok (Z.of_nat (S n)))
         by (rewrite size0_ok; destruct ms as [| |c]; simpl in Hms;
             try contradiction; destruct Hms as [Hl _];
             cbn [shape hd]; now rewrite Hl).
  - destruct fuel; simpl; unfold bind at 1, lift at 1; rewrite Hsize;
      cbv beta iota; unfold Py.len;
      (destruct (Z.ltb_spec (Z.of_nat (length (outputs acc)))
                            (Z.of_nat (S n) - 1)); [lia|]);
      exists acc, w; split; [reflexivity|lia|reflexivity|lia].
  - destruct fuel as [|fuel]; [lia|]. simpl.
    unfold bind at 1, lift at 1. rewrite Hsize. cbv beta iota.
    unfold Py.len.
    destruct (Z.ltb_spec (Z.of_nat (length (outputs acc)))
                         (Z.of_nat (S n) - 1)); [|lia].
    destruct (@index_0_group (S n) (length (outputs acc)) ms Hms)
      as (m & Em & Hm); [lia|].
    unfold bind at 1, lift at 1. rewrite Em. cbv beta iota.
    destruct (decode_runs HB Hready Hm)
      as (o & a & y & w1 & Ed & Ho & Hy & Hr1 & _ & _).
    rewrite (bind_step _ Ed). cbv beta iota.
    destruct (squeeze1_rows Ho) as (o' & Eo).
    unfold bind at 1, lift at 1. rewrite Eo. cbv beta iota.
    assert (Hs : rows b (Linear_call (stop_linear (stopnet (self w))) y))
      by (apply (linear_rows HB); assumption).
    destruct (squeeze1_rows Hs) as (s' & Es).
    unfold bind at 1, lift at 1. rewrite Es. cbv beta iota.
    apply IH; try assumption.
    + simpl. rewrite length_app. simpl. lia.
    + lia.
Qed.

End Forward.

(** C5, as the code has it.  For a ground truth of [n * r] frames of
    width [frame_dim], with [n >= 1] and [r >= 1], on a batch of
    [b >= 1] whose layers keep the batch, the teacher-forced run
    returns from its loop after exactly [n] decode steps: the number
    of frames divided by [r]. *)
Theorem forward_steps_per_group
  {SC : Scalar} {MD : Modules}
  (b n rr fd : nat) (x memories : tensor) (mask e : option tensor)
  (w : World) :
  Batched b -> (1 <= b)%nat -> (1 <= n)%nat -> (1 <= rr)%nat ->
  frame_dim (self w) = Z.of_nat fd -> r (self w) = Z.of_nat rr ->
  extents_ok w -> batch b x ->
  has_shape memories [b; n * rr; fd]%nat ->
  embeddings_ok (S n) b e ->
  exists acc w',
    forward_run x memories mask e w = Ok (acc, w') /\
    length (outputs acc) = n /\
    Z.of_nat n = Z.of_nat (n * rr) / r (self w).
Proof.
  intros HB Hb Hn Hrr Hfd Hr Hext Hx Hshape He.
  destruct (@forward_setup_runs _ _ b HB Hb x memories mask e w n rr fd
              Hn Hrr Hfd Hr Hext Hx Hshape He)
    as (ms & w0 & Es & Hms & Hready).
  destruct (@forward_loop_runs _ _ b HB Hb n ms n (hd O (shape ms)) nothing w0)
    as (acc & w' & El & Hl); try assumption.
  - reflexivity.
  - destruct ms as [| |c]; simpl in Hms; try contradiction.
    destruct Hms as [Hlen _]. simpl. lia.
  - exists acc, w'. unfold forward_run. rewrite (bind_step _ Es).
    split; [exact El|]. split; [exact Hl|].
    rewrite Hr, Nat2Z.inj_mul, Z_div_mult; lia.
Qed.

(** Four frames with [r = 2]: two decode steps. *)
Lemma forward_steps_per_group_witness :
  exists acc w',
    @forward_run Toy.scalar (Toy.modules 0) (Toy.encoded 1 3)
      (Toy.frames 1 (2 * 2)) None None (Toy.world 0) = Ok (acc, w') /\
    length (outputs acc) = 2%nat /\
    Z.of_nat 2 = Z.of_nat (2 * 2) / r (self (Toy.world 0)).
Proof.
  apply (@forward_steps_per_group Toy.scalar (Toy.modules 0)
           1%nat 2%nat 2%nat 2%nat (Toy.encoded 1 3)
           (Toy.frames 1 (2 * 2)) None None (Toy.world 0)).
  - apply toy_batched.
  - lia.
  - lia.
  - lia.
  - reflexivity.
  - reflexivity.
  - unfold extents_ok. simpl. lia.
  - reflexivity.
  - simpl. repeat constructor.
  - exact I.
Defined.

(** Five frames with [r = 2]: the frames regroup into two groups of
    five values, which do not fit the go frame of four, and the run
    raises before its first decode step; the claim asks for
    ceil(5 / 2) = 3 steps. *)
Lemma forward_five_frames_raises :
  r (self (Toy.world 0)) = 2 /\
  @forward_run Toy.scalar (Toy.modules 0) (Toy.encoded 1 3)
    (Toy.frames 1 5) None None (Toy.world 0) = Raise RuntimeError /\
  @forward Toy.scalar (Toy.modules 0) (Toy.encoded 1 3)
    (Toy.frames 1 5) None None (Toy.world 0) = Raise RuntimeError /\
  ~ (exists acc w',
       @forward_run Toy.scalar (Toy.modules 0) (Toy.encoded 1 3)
         (Toy.frames 1 5) None None (Toy.world 0) = Ok (acc, w') /\
       Z.of_nat (length (outputs acc)) = (5 + 2 - 1) / 2).
Proof.
  assert (E : @forward_run Toy.scalar (Toy.modules 0) (Toy.encoded 1 3)
                (Toy.frames 1 5) None None (Toy.world 0)
              = Raise RuntimeError) by (vm_compute; reflexivity).
  split; [reflexivity|]. split; [exact E|]. split.
  - unfold forward, bind. now rewrite E.
  - intros (acc & w' & H & _). rewrite E in H. discriminate.
Qed.
(* ================================================================== *)
(** ** Grouping and ungrouping frames *)

Section RoundTrips.
Context {A : Type}.

Lemma chunks_concat (n : nat) (m : list (list A)) :
  Forall (fun r => length r = n) m -> chunks n (length m) (concat m) = m.
Proof.
  induction 1 as [|r m Hr _ IH]; simpl; [reflexivity|].
  assert (E1 : firstn n (r ++ concat m) = r).
  { rewrite <- Hr, firstn_app, Nat.sub_diag, firstn_all. apply app_nil_r. }
  assert (E2 : skipn n (r ++ concat m) = concat m).
  { rewrite <- Hr, skipn_app, Nat.sub_diag, skipn_all. reflexivity. }
  now rewrite E1, E2, IH.
Qed.

Lemma concat_chunks (n k : nat) (l : list A) :
  length l = (k * n)%nat -> concat (chunks n k l) = l.
Proof.
  revert l. induction k as [|k IH]; simpl; intros l Hl.
  - now destruct l.
  - rewrite IH; [apply firstn_skipn|]. rewrite length_skipn. lia.
Qed.

Lemma fold_zip_cons_cons (k : nat) (r : list A) :
  forall X : list (list A),
    length X = length r ->
    fold_right zip_cons (repeat [] (S k)) (zip_cons r X)
    = r :: fold_right zip_cons (repeat [] k) X.
Proof.
  induction r as [|a r IH]; intros [|x X] HX; try discriminate.
  - reflexivity.
  - simpl in HX. injection HX as HX.
    change (zip_cons (a :: r) (x :: X)) with ((a :: x) :: zip_cons r X).
    cbn [fold_right]. rewrite (IH X HX). reflexivity.
Qed.

Lemma fold_zip_cons_twice (n : nat) (m : list (list A)) :
  Forall (fun r => length r = n) m ->
  fold_right zip_cons (repeat [] (length m))
             (fold_right zip_cons (repeat [] n) m) = m.
Proof.
  induction 1 as [|r m Hr Hm IH]; cbn [fold_right length].
  - now destruct n.
  - rewrite fold_zip_cons_cons; [now rewrite IH|].
    destruct (fold_zip_cons Hm) as [L _]. congruence.
Qed.

(** Transposing twice gives the matrix back. *)
Lemma transpose_involutive (b n : nat) (m : list (list A)) :
  (1 <= b)%nat -> (1 <= n)%nat ->
  length m = b -> Forall (fun r => length r = n) m ->
  transpose (transpose m) = m.
Proof.
  intros Hb Hn Hl Hr.
  destruct (transpose_shape Hb Hl Hr) as [L R].
  unfold transpose at 1. rewrite (width_rows Hn L R).
  unfold transpose. rewrite (width_rows Hb Hl Hr), <- Hl.
  now apply fold_zip_cons_twice.
Qed.

End RoundTrips.

Section Regrouping.
Context {SC : Scalar} {MD : Modules}.

Lemma cube_flat_rows (a b k : nat) (c : list (list (list F))) :
  cube a b k c ->
  Forall (fun r => length r = (b * k)%nat) (map (@concat F) c).
Proof.
  intros [_ H]. apply Forall_forall. intros x Hx. apply in_map_iff in Hx.
  destruct Hx as (m & <- & Hm). rewrite Forall_forall in H.
  destruct (H m Hm) as [Hb Hk]. now apply concat_length_rows.
Qed.

(** The storage of a block, cut back into its matrices. *)
Lemma chunks_flat (a b k : nat) (c : list (list (list F))) :
  cube a b k c ->
  chunks (b * k) a (concat (map (@concat F) c)) = map (@concat F) c.
Proof.
  intros Hc. destruct Hc as [Ha H].
  rewrite <- Ha, <- (length_map (@concat F) c).
  apply chunks_concat. now apply (cube_flat_rows (a:=a)).
Qed.

Lemma map_chunks_concat (a b k : nat) (c : list (list (list F))) :
  cube a b k c -> map (fun m => chunks k b (concat m)) c = c.
Proof.
  intros [_ H]. rewrite <- (map_id c) at 2. apply map_ext_in.
  intros m Hm. rewrite Forall_forall in H. destruct (H m Hm) as [Hb Hk].
  rewrite <- Hb. now apply chunks_concat.
Qed.

(** Cutting the storage of each sequence into [n] groups keeps the
    storage. *)
Lemma regroup_flat (a n rr fd : nat) (c : list (list (list F))) :
  cube a (n * rr) fd c ->
  map (@concat F) (map (fun m => chunks (rr * fd) n (concat m)) c)
  = map (@concat F) c.
Proof.
  intros Hc. rewrite map_map. apply map_ext_in. intros m Hm.
  apply concat_chunks.
  pose proof (cube_flat_rows Hc) as Hf. rewrite Forall_forall in Hf.
  rewrite (Hf (concat m)) by now apply in_map. lia.
Qed.

Lemma regroup_cube (a n rr fd : nat) (c : list (list (list F))) :
  cube a (n * rr) fd c ->
  cube a n (rr * fd) (map (fun m => chunks (rr * fd) n (concat m)) c).
Proof.
  intros Hc. split; [rewrite length_map; apply Hc|].
  apply Forall_forall. intros g Hg. apply in_map_iff in Hg.
  destruct Hg as (m & <- & Hm). split; [apply chunks_length|].
  apply chunks_rows.
  pose proof (cube_flat_rows Hc) as Hf. rewrite Forall_forall in Hf.
  rewrite (Hf (concat m)) by now apply in_map. lia.
Qed.

(** [memory.view(b, n, -1)], with the value it has. *)
Lemma view_last_value (b n rr fd : nat) (c : list (list (list F))) :
  (1 <= b)%nat -> (1 <= n)%nat ->
  cube b (n * rr) fd c ->
  view_last (Z.of_nat b) (Z.of_nat n) (T3 c)
  = Ok (T3 (map (fun m => chunks (rr * fd) n (concat m)) c)).
Proof.
  intros Hb Hn Hc. unfold view_last, numel. simpl flatten.
  rewrite (cube_numel Hc).
  assert (E : Z.of_nat (b * (n * rr * fd))
              = Z.of_nat (rr * fd) * (Z.of_nat b * Z.of_nat n)) by nia.
  rewrite E, Z_mod_mult, Z_div_mult by nia.
  destruct (Z.leb_spec (Z.of_nat b) 0); [lia|].
  destruct (Z.leb_spec (Z.of_nat n) 0); [lia|].
  simpl. rewrite !Nat2Z.id.
  replace (n * (rr * fd))%nat with (n * rr * fd)%nat by lia.
  rewrite (chunks_flat Hc), map_map. reflexivity.
Qed.

(** [outputs.view(b, -1, frame_dim)] undoes the grouping. *)
Lemma view_mid_value (b n rr fd : nat) (c : list (list (list F))) :
  (1 <= b)%nat -> (1 <= fd)%nat ->
  cube b (n * rr) fd c ->
  view_mid (Z.of_nat b) (Z.of_nat fd)
           (T3 (map (fun m => chunks (rr * fd) n (concat m)) c))
  = Ok (T3 c).
Proof.
  intros Hb Hfd Hc. unfold view_mid, numel. simpl flatten.
  rewrite (regroup_flat Hc), (cube_numel Hc).
  assert (E : Z.of_nat (b * (n * rr * fd))
              = Z.of_nat (n * rr) * (Z.of_nat b * Z.of_nat fd)) by nia.
  rewrite E, Z_mod_mult, Z_div_mult by nia.
  destruct (Z.leb_spec (Z.of_nat b) 0); [lia|].
  destruct (Z.leb_spec (Z.of_nat fd) 0); [lia|].
  simpl. rewrite !Nat2Z.id.
  rewrite (chunks_flat Hc), map_map, (map_chunks_concat Hc). reflexivity.
Qed.

Lemma rows2_matrices (g : list (list (list F))) : rows2 (map T2 g) = Ok g.
Proof. induction g as [|m g IH]; simpl; [reflexivity|]. now rewrite IH. Qed.

(** [torch.stack] of the matrices of a block gives the block. *)
Lemma stack_block (n b k : nat) (g : list (list (list F))) :
  (1 <= n)%nat -> (1 <= b)%nat -> cube n b k g ->
  stack (map T2 g) = Ok (T3 g).
Proof.
  intros Hn Hb [Hl H]. destruct g as [|m g]; simpl in Hl; [lia|].
  assert (Hs : Forall (fun u => shape u = [b; k]) (map T2 (m :: g))).
  { apply Forall_forall. intros u Hu. apply in_map_iff in Hu.
    destruct Hu as (m' & <- & Hm'). rewrite Forall_forall in H.
    destruct (H m' Hm') as [Lm Rm]. simpl.
    now rewrite Lm, (width_rows Hb Lm Rm). }
  change (map T2 (m :: g)) with (T2 m :: map T2 g) in *.
  unfold stack.
  rewrite (forallb_same_shape (t:=T2 m) (s:=[b; k])); auto.
  - simpl negb. cbv iota.
    change (T2 m :: map T2 g) with (map T2 (m :: g)).
    now rewrite rows2_matrices.
  - now inversion Hs.
Qed.

(** [_reshape_memory], with the value it has: time first, and at each
    step the [rr] frames of every sequence side by side. *)
Lemma reshape_memory_value (b n rr fd : nat) (c : list (list (list F)))
      (w : World) :
  (1 <= b)%nat -> (1 <= n)%nat -> (1 <= rr)%nat ->
  frame_dim (self w) = Z.of_nat fd -> r (self w) = Z.of_nat rr ->
  cube b (n * rr) fd c ->
  _reshape_memory (T3 c) w
  = Ok (T3 (transpose (map (fun m => chunks (rr * fd) n (concat m)) c)), w).
Proof.
  intros Hb Hn Hrr Hfd Hr Hc.
  assert (Hnr : (1 <= n * rr)%nat) by nia.
  unfold _reshape_memory, size_last, size.
  rewrite (cube_shape Hb Hb Hnr Hc).
  unfold bind, get, lift, ret. simpl. rewrite Hfd, Z.eqb_refl, Hr.
  unfold Py.floordiv. destruct (Z.eqb_spec (Z.of_nat rr) 0); [lia|].
  replace (Z.of_nat (n * rr) / Z.of_nat rr) with (Z.of_nat n)
    by (rewrite Nat2Z.inj_mul, Z_div_mult; lia).
  rewrite (view_last_value Hb Hn Hc). reflexivity.
Qed.

(** X1.  [_parse_outputs] undoes [_reshape_memory]: the frame groups
    [_reshape_memory] makes of ground truth of shape
    (batch, n * r, frame_dim), handed to [_parse_outputs] as the
    outputs of [n] steps, come back as the ground truth with its last
    two axes exchanged, shape (batch, frame_dim, n * r). *)
Theorem parse_outputs_inverts_reshape_memory
  (b n rr fd : nat) (c : list (list (list F)))
  (ss als : list tensor) (s' a' : tensor) (w : World) :
  (1 <= b)%nat -> (1 <= n)%nat -> (1 <= rr)%nat -> (1 <= fd)%nat ->
  frame_dim (self w) = Z.of_nat fd -> r (self w) = Z.of_nat rr ->
  cube b (n * rr) fd c ->
  rbind (stack ss) transpose01 = Ok s' ->
  rbind (stack als) transpose01 = Ok a' ->
  exists g,
    _reshape_memory (T3 c) w = Ok (T3 g, w) /\
    cube n b (rr * fd) g /\
    _parse_outputs (map T2 g) ss als w
      = Ok ((T3 (map (@transpose F) c), s', a'), w) /\
    transpose12 (T3 c) = Ok (T3 (map (@transpose F) c)) /\
    cube b fd (n * rr) (map (@transpose F) c).
Proof.
  intros Hb Hn Hrr Hfd Hframe Hr Hc Es Ea.
  pose proof (regroup_cube Hc) as HG.
  set (G := map (fun m => chunks (rr * fd) n (concat m)) c) in *.
  assert (Hg : cube n b (rr * fd) (transpose G)).
  { destruct (cube_split HG) as [H1 H2]. destruct HG as [Hlen _].
    destruct (transpose_shape Hb Hlen H1) as [L R].
    split; [exact L|]. apply cube_both; [exact R|].
    now apply transpose_elements. }
  exists (transpose G). split; [exact (reshape_memory_value Hb Hn Hrr Hframe Hr Hc)|].
  split; [exact Hg|].
  assert (Hnr : (1 <= n * rr)%nat) by nia.
  destruct (transpose12_cube Hnr Hc) as [E12 H12].
  split; [|split; assumption].
  unfold _parse_outputs, bind, lift, get, ret. rewrite Ea, Es.
  rewrite (stack_block Hn Hb Hg). simpl rbind.
  destruct (cube_split HG) as [H1 _]. destruct HG as [Hlen HG'].
  rewrite (transpose_involutive Hb Hn Hlen H1).
  unfold size. simpl nth_error. rewrite Hlen, Hframe.
  unfold G. rewrite (view_mid_value Hb Hfd Hc). reflexivity.
Qed.

End Regrouping.

(** Four frames of width 2 grouped by two: the two groups, parsed as
    the outputs of two steps, give the frames back, channel first. *)
Lemma parse_outputs_inverts_reshape_memory_witness :
  exists g,
    @_reshape_memory Toy.scalar (Toy.modules 0)
      (@T3 Toy.scalar [[[1; 2]; [3; 4]; [5; 6]; [7; 8]]%Q]) (Toy.world 0)
      = Ok (T3 g, Toy.world 0) /\
    g = [[[1; 2; 3; 4]]; [[5; 6; 7; 8]]]%Q /\
    @_parse_outputs Toy.scalar (Toy.modules 0) (map T2 g)
      (repeat (@T1 Toy.scalar [0%Q]) 2)
      (repeat (@T2 Toy.scalar [[1; 0]%Q]) 2) (Toy.world 0)
      = Ok ((@T3 Toy.scalar [[[1; 3; 5; 7]; [2; 4; 6; 8]]%Q],
             @T2 Toy.scalar [[0; 0]%Q],
             @T3 Toy.scalar [[[1; 0]; [1; 0]]%Q]), Toy.world 0).
Proof.
  destruct (@parse_outputs_inverts_reshape_memory Toy.scalar (Toy.modules 0)
              1 2 2 2 [[[1; 2]; [3; 4]; [5; 6]; [7; 8]]%Q]
              (repeat (@T1 Toy.scalar [0%Q]) 2)
              (repeat (@T2 Toy.scalar [[1; 0]%Q]) 2)
              (@T2 Toy.scalar [[0; 0]%Q])
              (@T3 Toy.scalar [[[1; 0]; [1; 0]]%Q])
              (Toy.world 0))
    as (g & Eg & _ & Ep & _); try lia; try reflexivity.
  - split; [reflexivity|]. repeat constructor.
  - exists g. split; [exact Eg|].
    assert (V : match @_reshape_memory Toy.scalar (Toy.modules 0)
                        (@T3 Toy.scalar [[[1; 2]; [3; 4]; [5; 6]; [7; 8]]%Q])
                        (Toy.world 0) with
                | Ok (t, _) => t = @T3 Toy.scalar [[[1; 2; 3; 4]]; [[5; 6; 7; 8]]]%Q
                | Raise _ => False
                end) by (vm_compute; reflexivity).
    rewrite Eg in V. injection V as ->.
    split; [reflexivity|]. exact Ep.
Defined.

(* ================================================================== *)
(** ** Teacher forcing on a length [r] does not divide *)

Section Ragged.
Context {SC : Scalar} {MD : Modules}.

Lemma bind_Raise {A B} (m : M A) (k : A -> M B) (w : World) (e : exn) :
  m w = Raise e -> bind m k w = Raise e.
Proof. intros H. unfold bind. now rewrite H. Qed.

(** What [t.view(b, q, -1)] gives when it gives anything. *)
Lemma view_last_cube (b q : nat) (t y : tensor) :
  view_last (Z.of_nat b) (Z.of_nat q) t = Ok y ->
  exists k c', y = T3 c' /\ cube b q k c' /\ numel t = (b * q * k)%nat.
Proof.
  unfold view_last. intros H.
  destruct ((Z.of_nat b <=? 0) || (Z.of_nat q <=? 0)) eqn:E0;
    [discriminate|].
  apply orb_false_iff in E0. destruct E0 as [E1 E2].
  apply Z.leb_gt in E1, E2.
  destruct (Z.eqb_spec (Z.of_nat (numel t) mod (Z.of_nat b * Z.of_nat q)) 0)
    as [E|E]; simpl in H; [|discriminate].
  injection H as <-.
  set (k := Z.to_nat (Z.of_nat (numel t) / (Z.of_nat b * Z.of_nat q))).
  assert (Hk : numel t = (b * q * k)%nat).
  { apply Nat2Z.inj. rewrite !Nat2Z.inj_mul. unfold k.
    rewrite Z2Nat.id by (apply Z.div_pos; lia).
    rewrite (Z.div_mod (Z.of_nat (numel t)) (Z.of_nat b * Z.of_nat q))
      at 1 by lia.
    rewrite E. lia. }
  exists k. eexists. split; [reflexivity|]. rewrite !Nat2Z.id.
  split; [|exact Hk]. split.
  - now rewrite length_map, chunks_length.
  - apply Forall_forall. intros m Hm. apply in_map_iff in Hm.
    destruct Hm as (flat & <- & Hflat). split; [apply chunks_length|].
    apply chunks_rows.
    assert (Hrows : Forall (fun r : list F => length r = (q * k)%nat)
                      (chunks (q * k) b (flatten t))).
    { apply chunks_rows. unfold numel in Hk. lia. }
    rewrite Forall_forall in Hrows. now apply Hrows.
Qed.

(** On [T] frames with [r] not dividing [T], [_reshape_memory] either
    fails or makes groups that are not [r * frame_dim] wide. *)
Lemma reshape_memory_ragged (b T rr fd : nat) (c : list (list (list F)))
      (w : World) :
  (1 <= b)%nat -> (1 <= fd)%nat -> (1 <= rr)%nat ->
  frame_dim (self w) = Z.of_nat fd -> r (self w) = Z.of_nat rr ->
  cube b T fd c -> (T mod rr <> 0)%nat ->
  _reshape_memory (T3 c) w = Raise RuntimeError \/
  exists q k c',
    _reshape_memory (T3 c) w = Ok (T3 c', w) /\
    (1 <= q)%nat /\ cube q b k c' /\ k <> (fd * rr)%nat.
Proof.
  intros Hb Hfd Hrr Hframe Hr Hc Hmod.
  assert (HT : (1 <= T)%nat).
  { destruct T; [|lia]. rewrite Nat.Div0.mod_0_l in Hmod. congruence. }
  unfold _reshape_memory, size_last, size.
  rewrite (cube_shape Hb Hb HT Hc).
  unfold bind, get, lift, ret. simpl. rewrite Hframe, Z.eqb_refl, Hr.
  unfold Py.floordiv. destruct (Z.eqb_spec (Z.of_nat rr) 0); [lia|].
  rewrite <- Nat2Z.inj_div.
  destruct (view_last (Z.of_nat b) (Z.of_nat (T / rr)) (T3 c)) as [y|ex] eqn:E.
  - destruct (view_last_cube E) as (k & c' & -> & Hc' & Hnum).
    right. exists (T / rr)%nat, k, (transpose c'). simpl.
    split; [reflexivity|].
    assert (Hq : (1 <= T / rr)%nat).
    { destruct (T / rr)%nat eqn:Eq; [|lia].
      unfold view_last in E. simpl in E.
      rewrite orb_true_r in E. discriminate. }
    split; [exact Hq|]. split.
    + destruct (cube_split Hc') as [H1 H2]. destruct Hc' as [Hlen _].
      destruct (transpose_shape Hb Hlen H1) as [L R].
      split; [exact L|]. apply cube_both; [exact R|].
      now apply transpose_elements.
    + intros ->. apply Hmod.
      unfold numel in Hnum. simpl flatten in Hnum.
      rewrite (cube_numel Hc) in Hnum.
      assert (HTq : T = (T / rr * rr)%nat) by nia.
      rewrite HTq. apply Nat.Div0.mod_mul.
  - left. unfold view_last in E.
    destruct ((Z.of_nat b <=? 0) || (Z.of_nat (T / rr) <=? 0));
      [now injection E as <-|].
    destruct (negb _); [now injection E as <-|discriminate].
Qed.

(** X2.  Teacher forcing needs a number of frames [r] divides: on
    ground truth of shape (batch, T, frame_dim) with [T] not a
    multiple of [r], [forward] raises RuntimeError while it prepares
    its inputs, before any decode step. *)
Theorem forward_rejects_ragged_lengths
  (b T rr fd : nat) (x memories : tensor) (mask e : option tensor)
  (w : World) :
  (1 <= b)%nat -> (1 <= fd)%nat -> (1 <= rr)%nat ->
  frame_dim (self w) = Z.of_nat fd -> r (self w) = Z.of_nat rr ->
  batch b x -> has_shape memories [b; T; fd] ->
  (T mod rr <> 0)%nat ->
  forward_setup x memories mask e w = Raise RuntimeError /\
  forward_run x memories mask e w = Raise RuntimeError /\
  forward x memories mask e w = Raise RuntimeError.
Proof.
  intros Hb Hfd Hrr Hframe Hr Hx Hshape Hmod.
  assert (Hs : forward_setup x memories mask e w = Raise RuntimeError).
  { destruct memories as [| |c]; simpl in Hshape; try contradiction.
    assert (Hc : cube b T fd c) by exact Hshape.
    unfold forward_setup, get_go_frame.
    unfold bind at 1. unfold bind at 1. unfold lift at 1.
    rewrite size0_ok, (batch_size0 Hx). cbv beta iota.
    unfold bind at 1. unfold get at 1. cbv beta iota.
    unfold bind at 1. unfold get at 1. cbv beta iota.
    unfold lift at 1. rewrite Hframe, Hr.
    rewrite (zeros_repeat_ok Hb) by nia. cbv beta iota.
    unfold bind at 1. unfold lift at 1. unfold zeros at 1.
    unfold unsqueeze0. cbv beta iota.
    replace (Z.to_nat (Z.of_nat fd * Z.of_nat rr)) with (fd * rr)%nat by lia.
    destruct (reshape_memory_ragged Hb Hfd Hrr Hframe Hr Hc Hmod)
      as [Er|(q & k & c' & Er & Hq & Hc' & Hk)].
    - now apply bind_Raise.
    - rewrite (bind_step _ Er). apply bind_Raise.
      unfold lift, cat, cat_axis, same_but.
      rewrite (cube_shape Hb Hq Hb Hc').
      assert (Hgo : cube 1 b (fd * rr)
                      [repeat (repeat (const 0%Q) (fd * rr)) b]).
      { split; [reflexivity|]. constructor; [|constructor].
        split; [apply repeat_length|].
        apply Forall_forall. intros row Hrow. apply repeat_spec in Hrow.
        subst. apply repeat_length. }
      rewrite (cube_shape Hb (le_n 1) Hb Hgo). simpl.
      rewrite Nat.eqb_refl.
      destruct (Nat.eqb_spec (fd * rr) k); [congruence|]. reflexivity. }
  split; [exact Hs|].
  assert (Hrun : forward_run x memories mask e w = Raise RuntimeError)
    by (unfold forward_run; now apply bind_Raise).
  split; [exact Hrun|]. unfold forward. now apply bind_Raise.
Qed.

End Ragged.

(** Five frames with [r = 2]. *)
Lemma forward_rejects_ragged_lengths_witness :
  @forward Toy.scalar (Toy.modules 0) (Toy.encoded 1 3) (Toy.frames 1 5)
    None None (Toy.world 0) = Raise RuntimeError.
Proof.
  refine (proj2 (proj2 (@forward_rejects_ragged_lengths
                          Toy.scalar (Toy.modules 0) 1 5 2 2
                          (Toy.encoded 1 3) (Toy.frames 1 5) None None
                          (Toy.world 0) _ _ _ _ _ _ _ _))).
  all: try lia; try reflexivity.
  - split; [reflexivity|]. repeat constructor.
  - simpl. discriminate.
Defined.

(* ================================================================== *)
(** ** What a teacher-forced run returns *)

Section Ensures.
Context {SC : Scalar} {MD : Modules}.
Variable Q : World -> Prop.

Lemma ensures_assign (upd : Decoder -> Decoder) :
  (forall w, Q (touch upd w)) -> ensures Q (assign upd).
Proof. intros H w a w' E. injection E as _ <-. apply H. Qed.

Lemma ensures_bind_l {A B} (m : M A) (k : A -> M B) :
  ensures Q m -> (forall a, preserves Q (k a)) -> ensures Q (bind m k).
Proof.
  intros Hm Hk w b w' E. apply bind_Ok in E.
  destruct E as (a & w1 & E1 & E2). eapply Hk; eauto.
Qed.

Lemma ensures_bind_r {A B} (m : M A) (k : A -> M B) :
  (forall a, ensures Q (k a)) -> ensures Q (bind m k).
Proof.
  intros Hk w b w' E. apply bind_Ok in E.
  destruct E as (a & w1 & E1 & E2). eapply Hk; eauto.
Qed.

End Ensures.

Section TeacherShapes.
Context {SC : Scalar} {MD : Modules}.
Variable b : nat.
Hypothesis HB : Batched b.
Hypothesis Hb : (1 <= b)%nat.

Local Ltac side := intros; reflexivity.

Lemma keeps_fixed_reshape_memory x : keeps fixed (_reshape_memory x).
Proof. unfold _reshape_memory. method_frame side. Qed.

Hint Resolve keeps_fixed_get_go_frame keeps_fixed_init_states
  keeps_fixed_update_memory keeps_fixed_reshape_memory : frames.

Lemma keeps_fixed_forward_setup x ms mask e :
  keeps fixed (forward_setup x ms mask e).
Proof. unfold forward_setup. method_frame side. Qed.

Lemma ensures_inputs_init_states x mask k :
  ensures (fun w => inputs (self w) = Some x) (_init_states x mask k).
Proof.
  unfold _init_states. do 2 (apply ensures_bind_r; intros).
  apply ensures_bind_l; [now apply ensures_assign|].
  intros. method_frame ltac:(intros; assumption).
Qed.

Lemma ensures_inputs_forward_setup x ms mask e :
  ensures (fun w => inputs (self w) = Some x) (forward_setup x ms mask e).
Proof.
  unfold forward_setup. do 8 (apply ensures_bind_r; intros).
  apply ensures_bind_l; [apply ensures_inputs_init_states|].
  intros. method_frame ltac:(intros; assumption).
Qed.

Lemma driven_fixed (k n : nat) (x : tensor) (w w1 : World) :
  fixed w1 = fixed w -> driven b k n x w -> driven b k n x w1.
Proof.
  unfold fixed. intros E (H1 & H2 & H3).
  injection E as E1 E2 E3 E4 E5 E6.
  unfold driven, cut_to, stop_single in *.
  rewrite E2, E4, E5, E6. auto.
Qed.

Lemma frame_dim_fixed (w w1 : World) :
  fixed w1 = fixed w -> frame_dim (self w1) = frame_dim (self w).
Proof. unfold fixed. intros E. now injection E. Qed.

(** Cutting rows of [k'] columns to [c] columns at most. *)
Lemma index_1_to_rows_min (c k' : nat) (raw o : tensor) :
  has_shape raw [b; k'] ->
  index_1_to (Z.of_nat c) raw = Ok o ->
  has_shape o [b; Nat.min c k'].
Proof.
  intros H E. apply has_shape2_inv in H.
  destruct H as (m & -> & Hm & Hr). simpl in E. injection E as <-.
  simpl. split; [now rewrite length_map|].
  apply Forall_forall. intros row Hrow. apply in_map_iff in Hrow.
  destruct Hrow as (row0 & <- & Hin). rewrite Forall_forall in Hr.
  unfold Py.slice_to.
  destruct (Z.ltb_spec (Z.of_nat c) 0); [lia|].
  now rewrite length_firstn, (Hr row0 Hin), Nat2Z.id.
Qed.

(** A decoder that suits frames of width [fd] grouped by [rr] gives
    [fd * rr] columns a step. *)
Lemma suited_batch_driven (fd rr n : nat) (x : tensor) (w : World) :
  suited_batch b fd rr n x w -> driven b (fd * rr) n x w.
Proof.
  intros (Hfd & Hr & Hproj & Hal & Hstop). split; [|now split].
  intros xp o Hxp E. destruct (Hproj xp Hxp) as (k' & Hk & Hs).
  rewrite Hr, Hfd, <- Nat2Z.inj_mul in E.
  pose proof (index_1_to_rows_min Hs E) as Ho.
  replace (Nat.min (rr * fd) k') with (fd * rr)%nat in Ho by lia.
  exact Ho.
Qed.

(** With a projection of exactly [fd * ri] columns a step gives the
    columns of [min(rr, ri)] frames. *)
Lemma exact_projection_driven (fd rr ri n : nat) (x : tensor) (w : World) :
  frame_dim (self w) = Z.of_nat fd -> r (self w) = Z.of_nat rr ->
  projection_exact b (fd * ri) w -> weights_cover b n x ->
  stop_single b w ->
  driven b (fd * Nat.min rr ri) n x w.
Proof.
  intros Hfd Hr Hproj Hal Hstop. split; [|now split].
  intros xp o Hxp E.
  rewrite Hr, Hfd, <- Nat2Z.inj_mul in E.
  pose proof (index_1_to_rows_min (Hproj xp Hxp) E) as Ho.
  replace (Nat.min (rr * fd) (fd * ri)) with (fd * Nat.min rr ri)%nat
    in Ho by nia.
  exact Ho.
Qed.

(** [squeeze(1)] of [b] rows of [k] columns *)
Lemma squeeze1_rows_group (k : nat) (o : tensor) :
  has_shape o [b; k] ->
  exists o', squeeze1 o = Ok o' /\ squeezed_rows b k o'.
Proof.
  intros H. pose proof H as H0. apply has_shape2_inv in H.
  destruct H as (m & -> & Hm & Hr).
  unfold squeeze1, squeezed_rows. rewrite (width_rows Hb Hm Hr).
  eexists. split; [reflexivity|].
  destruct (Nat.eqb_spec k 1) as [->|]; [|exact H0].
  simpl. rewrite (concat_length_rows Hm Hr). lia.
Qed.

Lemma taught_collect (k n : nat) (o s a : tensor) (acc : Collected) :
  taught b k n acc -> squeezed_rows b k o -> has_shape s [b] ->
  has_shape a [b; n] -> taught b k n (collect o s a acc).
Proof.
  intros (H1 & H2 & H3 & H4 & H5) Ho Hs Ha. unfold taught. simpl.
  repeat split.
  - apply Forall_app. split; [assumption|now constructor].
  - apply Forall_app. split; [assumption|now constructor].
  - apply Forall_app. split; [assumption|now constructor].
  - rewrite !length_app. simpl. lia.
  - rewrite !length_app. simpl. lia.
Qed.

#[local] Arguments cat : simpl never.
#[local] Arguments squeeze1 : simpl never.

Section Run.
Variables (k n : nat) (x : tensor).

(** The decode step of an iteration of [forward], with what it adds
    to the collected lists. *)
Lemma decode_teaches (m : tensor) (w : World) :
  driven b k n x w -> ready b w -> inputs (self w) = Some x ->
  rows b m ->
  exists o a s w1 o' s',
    decode m w = Ok ((o, a, s), w1) /\
    squeeze1 o = Ok o' /\ squeeze1 s = Ok s' /\
    squeezed_rows b k o' /\ has_shape s' [b] /\
    has_shape a [b; n] /\
    ready b w1 /\ inputs (self w1) = Some x /\ fixed w1 = fixed w.
Proof.
  intros (Hcut & Hal & Hstop) Hready Hin Hm.
  destruct (@decode_runs_with _ _ b HB
              (fun o => has_shape o [b; k])
              (fun a => has_shape a [b; n]) x m w)
    as (o & a & y & w1 & Ed & Ho & Hy & Hr1 & Hout & Hmt & Hin1 & Hos & Has);
    try assumption.
  destruct (squeeze1_rows_group Hos) as (o' & Eo & Ho').
  destruct (squeeze1_rows_group (Hstop y Hy)) as (s' & Es & Hs').
  exists o, a, (Linear_call (stop_linear (stopnet (self w))) y), w1, o', s'.
  repeat (split; [assumption|]).
  exact (keeps_fixed_decode Ed).
Qed.

(** With [j] groups still to be fed, the loop of [forward] runs [j]
    more decode steps and stops, each step adding a frame-group, a
    stop-logit per sequence and the attention weights. *)
Lemma forward_loop_teaches (T : nat) (ms : tensor) (j : nat) :
  forall fuel acc w,
    groups (S T) b ms -> driven b k n x w -> ready b w ->
    inputs (self w) = Some x -> taught b k n acc ->
    (length (outputs acc) + j = T)%nat -> (j <= fuel)%nat ->
    exists acc' w',
      forward_loop fuel ms acc w = Ok (acc', w') /\
      length (outputs acc') = T /\
      taught b k n acc' /\
      fixed w' = fixed w.
Proof.
  induction j as [|j IH];
    intros fuel acc w Hms Hsuit Hready Hin Hacc Hcount Hfuel.
  all: assert (Hsize : size 0 ms = Ok (Z.of_nat (S T)))
         by (rewrite size0_ok; destruct ms as [| |c]; simpl in Hms;
             try contradiction; destruct Hms as [Hl _];
             cbn [shape hd]; now rewrite Hl).
  - destruct fuel; simpl; unfold bind at 1, lift at 1; rewrite Hsize;
      cbv beta iota; unfold Py.len;
      (destruct (Z.ltb_spec (Z.of_nat (length (outputs acc)))
                            (Z.of_nat (S T) - 1)); [lia|]);
      exists acc, w; (split; [reflexivity|]);
      (split; [lia|]); (split; [assumption|reflexivity]).
  - destruct fuel as [|fuel]; [lia|]. simpl.
    unfold bind at 1, lift at 1. rewrite Hsize. cbv beta iota.
    unfold Py.len.
    destruct (Z.ltb_spec (Z.of_nat (length (outputs acc)))
                         (Z.of_nat (S T) - 1)); [|lia].
    destruct (@index_0_group _ b Hb (S T) (length (outputs acc)) ms Hms)
      as (m & Em & Hm); [lia|].
    unfold bind at 1, lift at 1. rewrite Em. cbv beta iota.
    destruct (decode_teaches Hsuit Hready Hin Hm)
      as (o & a & s & w1 & o' & s' & Ed & Eo & Es & Ho' & Hs' & Ha
          & Hr1 & Hin1 & Hfix).
    rewrite (bind_step _ Ed). cbv beta iota.
    unfold bind at 1, lift at 1. rewrite Eo. cbv beta iota.
    unfold bind at 1, lift at 1. rewrite Es. cbv beta iota.
    destruct (IH fuel (collect o' s' a acc) w1) as (acc' & w' & El & H1 & H2 & H3);
      try assumption.
    + now apply (driven_fixed Hfix).
    + now apply taught_collect.
    + simpl. rewrite length_app. simpl. lia.
    + lia.
    + exists acc', w'. repeat (split; [assumption|]). congruence.
Qed.

End Run.

(** [t.view(a, -1, fd)] on [a * (n * fd)] values. *)
Lemma view_mid_cube (a n fd : nat) (t : tensor) :
  (1 <= a)%nat -> (1 <= fd)%nat -> numel t = (a * (n * fd))%nat ->
  exists c', view_mid (Z.of_nat a) (Z.of_nat fd) t = Ok (T3 c') /\
             cube a n fd c'.
Proof.
  clear HB Hb. intros Ha Hfd Hnum. unfold view_mid. rewrite Hnum.
  assert (E : Z.of_nat (a * (n * fd))
              = Z.of_nat n * (Z.of_nat a * Z.of_nat fd)) by nia.
  rewrite E, Z_mod_mult, Z_div_mult by nia.
  destruct (Z.leb_spec (Z.of_nat a) 0); [lia|].
  destruct (Z.leb_spec (Z.of_nat fd) 0); [lia|].
  simpl. rewrite !Nat2Z.id.
  eexists. split; [reflexivity|]. split.
  - now rewrite length_map, chunks_length.
  - apply Forall_forall. intros m Hm. apply in_map_iff in Hm.
    destruct Hm as (flat & <- & Hflat). split; [apply chunks_length|].
    apply chunks_rows.
    assert (Hrows : Forall (fun r : list F => length r = (n * fd)%nat)
                      (chunks (n * fd) a (flatten t))).
    { apply chunks_rows. exact Hnum. }
    rewrite Forall_forall in Hrows. now apply Hrows.
Qed.

(** [_parse_outputs] on what the loop of [forward] has collected. *)
Lemma parse_taught (fd rr n T : nat) (acc : Collected) (w : World) :
  taught b (fd * rr) n acc -> length (outputs acc) = T ->
  (1 <= T)%nat -> (1 <= fd)%nat -> (1 <= rr)%nat ->
  frame_dim (self w) = Z.of_nat fd ->
  exists o s a,
    _parse_outputs (outputs acc) (stop_tokens acc) (alignments acc) w
      = Ok ((o, s, a), w) /\
    has_shape o [b; fd; (T * rr)%nat] /\
    has_shape s [b; T] /\
    has_shape a [b; T; n].
Proof.
  intros (Ho & Hs & Ha & Ls & La) HT H1 Hfd Hrr Hframe.
  rewrite HT in Ls, La.
  destruct (stack_transpose_matrices H1 Hb La Ha) as (ca & Ea & Hca).
  destruct (stack_transpose_vectors H1 Ls Hs) as (ms & Es & Hms).
  assert (Hout : exists t, rbind (stack (outputs acc)) transpose01 = Ok t /\
                           size 0 t = Ok (Z.of_nat b) /\
                           numel t = (b * (T * rr * fd))%nat).
  { unfold squeezed_rows in Ho.
    destruct (Nat.eqb_spec (fd * rr) 1) as [E1|E1].
    - destruct (stack_transpose_vectors H1 HT Ho) as (m & Eo & Hm & Hr).
      exists (T2 m). split; [exact Eo|]. unfold size. simpl nth_error.
      rewrite Hm. split; [reflexivity|].
      apply Nat.eq_mul_1 in E1. destruct E1 as [-> ->].
      unfold numel. simpl flatten. rewrite (concat_length_rows Hm Hr). lia.
    - destruct (stack_transpose_matrices H1 Hb HT Ho) as (co & Eo & Hc).
      exists (T3 co). split; [exact Eo|]. unfold size. simpl nth_error.
      destruct Hc as [Hl Hc]. rewrite Hl. split; [reflexivity|].
      unfold numel. simpl flatten. rewrite (cube_numel (conj Hl Hc)). lia. }
  destruct Hout as (t & Eo & Esz & Hnum).
  destruct (view_mid_cube (n:=T * rr) Hb Hfd Hnum) as (c' & Ev & Hc').
  assert (HTr : (1 <= T * rr)%nat) by nia.
  destruct (transpose12_cube HTr Hc') as [Et Hc''].
  exists (T3 (map (@transpose F) c')), (T2 ms), (T3 ca).
  split; [|split; [exact Hc''|split; [exact Hms|exact Hca]]].
  unfold _parse_outputs, bind, lift, get, ret.
  rewrite Ea, Es, Eo, Esz, Hframe, Ev, Et. reflexivity.
Qed.

(** A teacher-forced run of a driven decoder on [T] groups, and the
    shapes [_parse_outputs] makes of [fr] frames a step. *)
Lemma forward_driven
      (k n T rr fd fr : nat) (x memories : tensor) (mask e : option tensor)
      (w : World) :
  k = (fd * fr)%nat ->
  (1 <= T)%nat -> (1 <= rr)%nat -> (1 <= fd)%nat -> (1 <= fr)%nat ->
  frame_dim (self w) = Z.of_nat fd -> r (self w) = Z.of_nat rr ->
  driven b k n x w -> extents_ok w -> batch b x ->
  has_shape memories [b; T * rr; fd]%nat ->
  embeddings_ok (S T) b e ->
  exists o a s w',
    forward x memories mask e w = Ok ((o, a, s), w') /\
    has_shape o [b; fd; (T * fr)%nat] /\
    has_shape a [b; T; n] /\
    has_shape s [b; T].
Proof.
  intros Hk HT Hrr Hfd Hfr Hframe Hr Hdrv Hext Hx Hshape He.
  destruct (@forward_setup_runs _ _ b HB Hb x memories mask e w T rr fd
              HT Hrr Hframe Hr Hext Hx Hshape He)
    as (ms & w0 & Es & Hms & Hready).
  pose proof (keeps_fixed_forward_setup Es) as Hfix0.
  pose proof (ensures_inputs_forward_setup Es) as Hin0.
  destruct (@forward_loop_teaches k n x T ms T (hd O (shape ms)) nothing w0)
    as (acc & w' & El & Hl & Hacc & Hfix); try assumption.
  - now apply (driven_fixed Hfix0).
  - unfold taught. simpl. repeat split; constructor.
  - reflexivity.
  - destruct ms as [| |c]; simpl in Hms; try contradiction.
    destruct Hms as [Hlen _]. simpl. lia.
  - assert (Hframe' : frame_dim (self w') = Z.of_nat fd).
    { rewrite (frame_dim_fixed Hfix), (frame_dim_fixed Hfix0). exact Hframe. }
    rewrite Hk in Hacc.
    destruct (parse_taught Hacc Hl HT Hfd Hfr Hframe')
      as (o & s & a & Ep & Ho & Hs & Ha).
    exists o, a, s, w'. split; [|auto].
    unfold forward. unfold bind at 1. unfold forward_run.
    rewrite (bind_step _ Es), El. cbv beta iota.
    unfold bind at 1. rewrite Ep. reflexivity.
Qed.

End TeacherShapes.

(** X3.  What a teacher-forced run returns.  On a batch of [b]
    sequences, with ground truth of [n * r] frames of width
    [frame_dim], layers that keep the batch, a projection of at least
    [frame_dim * r] columns, a stop layer of one logit per sequence
    and attention weights over [L] encoder positions, [forward]
    returns outputs of shape (b, frame_dim, n * r), alignments of
    shape (b, n, L) and stop-logits of shape (b, n), in this order. *)
Theorem forward_output_shapes
  {SC : Scalar} {MD : Modules}
  (b n rr fd L : nat) (x memories : tensor) (mask e : option tensor)
  (w : World) :
  Batched b -> (1 <= b)%nat -> (1 <= n)%nat -> (1 <= rr)%nat ->
  (1 <= fd)%nat ->
  suited_batch b fd rr L x w ->
  extents_ok w -> batch b x ->
  has_shape memories [b; n * rr; fd]%nat ->
  embeddings_ok (S n) b e ->
  exists o a s w',
    forward x memories mask e w = Ok ((o, a, s), w') /\
    has_shape o [b; fd; (n * rr)%nat] /\
    has_shape a [b; n; L] /\
    has_shape s [b; n].
Proof.
  intros HB Hb Hn Hrr Hfd Hsuit Hext Hx Hshape He.
  pose proof Hsuit as (Hframe & Hr & _).
  exact (@forward_driven _ _ b HB Hb (fd * rr) L n rr fd rr x memories
           mask e w eq_refl Hn Hrr Hfd Hrr Hframe Hr
           (suited_batch_driven Hb Hsuit) Hext Hx Hshape He).
Qed.

(** X19.  [r] above [r_init] costs frames without a word.  The
    projection is built for [frame_dim * r_init] columns; when it
    gives exactly [frame_dim * ri] columns and [r] is set to [rr], a
    teacher-forced run on [n * rr] frames returns outputs of shape
    (b, frame_dim, n * min(rr, ri)): all [n * rr] frames for [rr] up
    to [ri], and only [n * ri] of them, with no error, for [rr] above
    [ri]. *)
Theorem forward_outputs_capped_by_projection
  {SC : Scalar} {MD : Modules}
  (b n rr ri fd L : nat) (x memories : tensor) (mask e : option tensor)
  (w : World) :
  Batched b -> (1 <= b)%nat -> (1 <= n)%nat -> (1 <= rr)%nat ->
  (1 <= ri)%nat -> (1 <= fd)%nat ->
  frame_dim (self w) = Z.of_nat fd -> r (self w) = Z.of_nat rr ->
  projection_exact b (fd * ri) w -> weights_cover b L x ->
  stop_single b w ->
  extents_ok w -> batch b x ->
  has_shape memories [b; n * rr; fd]%nat ->
  embeddings_ok (S n) b e ->
  exists o a s w',
    forward x memories mask e w = Ok ((o, a, s), w') /\
    has_shape o [b; fd; (n * Nat.min rr ri)%nat] /\
    has_shape a [b; n; L] /\
    has_shape s [b; n].
Proof.
  intros HB Hb Hn Hrr Hri Hfd Hframe Hr Hproj Hal Hstop Hext Hx Hshape He.
  assert (Hmin : (1 <= Nat.min rr ri)%nat) by lia.
  exact (@forward_driven _ _ b HB Hb (fd * Nat.min rr ri) L n rr fd
           (Nat.min rr ri) x memories mask e w eq_refl Hn Hrr Hfd Hmin
           Hframe Hr (exact_projection_driven Hb Hframe Hr Hproj Hal Hstop)
           Hext Hx Hshape He).
Qed.


Section ToyBatch.
Variable logit : Q.
Variables b n : nat.

Local Existing Instance Toy.scalar.

Lemma toy_one_hot_length (k : nat) : length (Toy.one_hot k) = k.
Proof. destruct k; simpl; [reflexivity|]. now rewrite repeat_length. Qed.

Lemma toy_suited_batch :
  @suited_batch Toy.scalar (Toy.modules logit) b 2 2 n (Toy.encoded b n)
                (Toy.world logit).
Proof.
  split; [reflexivity|]. split; [reflexivity|]. split; [|split].
  - intros x Hx. destruct x as [|m|]; simpl in *; try contradiction.
    exists 4%nat. split; [apply le_n|]. split; [now rewrite length_map|].
    apply Forall_forall. intros r Hr. apply in_map_iff in Hr.
    now destruct Hr as (? & <- & _).
  - intros att q px msk _. simpl.
    split; [now rewrite length_map, repeat_length|].
    apply Forall_forall. intros r Hr. apply in_map_iff in Hr.
    destruct Hr as (m & <- & Hm). apply repeat_spec in Hm. subst m.
    now rewrite toy_one_hot_length, repeat_length.
  - intros x Hx. destruct x as [|m|]; simpl in *; try contradiction.
    split; [now rewrite length_map|].
    apply Forall_forall. intros r Hr. apply in_map_iff in Hr.
    now destruct Hr as (? & <- & _).
Qed.

End ToyBatch.

(** A batch of two: four frames each with [r = 2], three encoder
    positions. *)
Lemma forward_output_shapes_witness :
  exists o a s w',
    @forward Toy.scalar (Toy.modules 0) (Toy.encoded 2 3)
      (Toy.frames 2 (2 * 2)) None None (Toy.world 0) = Ok ((o, a, s), w') /\
    has_shape o [2; 2; 2 * 2]%nat /\
    has_shape a [2; 2; 3]%nat /\
    has_shape s [2; 2]%nat.
Proof.
  apply (@forward_output_shapes Toy.scalar (Toy.modules 0)
           2%nat 2%nat 2%nat 2%nat 3%nat (Toy.encoded 2 3)
           (Toy.frames 2 (2 * 2)) None None (Toy.world 0)).
  - apply toy_batched.
  - lia.
  - lia.
  - lia.
  - lia.
  - apply toy_suited_batch.
  - unfold extents_ok. simpl. lia.
  - reflexivity.
  - simpl. repeat constructor.
  - exact I.
Defined.

(** The small network has [r_init = 2]; with [r] set to 3, six frames
    go in and four come out. *)
Lemma forward_outputs_capped_by_projection_witness :
  exists o a s w',
    @forward Toy.scalar (Toy.modules 0) (Toy.encoded 1 3)
      (Toy.frames 1 (2 * 3)) None None (touch (with_r 3) (Toy.world 0))
      = Ok ((o, a, s), w') /\
    has_shape o [1; 2; 2 * Nat.min 3 2]%nat /\
    has_shape a [1; 2; 3]%nat /\
    has_shape s [1; 2]%nat.
Proof.
  apply (@forward_outputs_capped_by_projection Toy.scalar (Toy.modules 0)
           1%nat 2%nat 3%nat 2%nat 2%nat 3%nat (Toy.encoded 1 3)
           (Toy.frames 1 (2 * 3)) None None (touch (with_r 3) (Toy.world 0))).
  - apply toy_batched.
  - lia.
  - lia.
  - lia.
  - lia.
  - lia.
  - reflexivity.
  - reflexivity.
  - intros x Hx. destruct x as [|m|]; simpl in *; try contradiction.
    split; [now rewrite length_map|].
    apply Forall_forall. intros r Hr. apply in_map_iff in Hr.
    now destruct Hr as (? & <- & _).
  - apply (toy_suited_batch 0 1 3).
  - apply (toy_suited_batch 0 1 3).
  - unfold extents_ok. simpl. lia.
  - reflexivity.
  - simpl. repeat constructor.
  - exact I.
Defined.

(* ================================================================== *)
(** ** Free-running inference on more than one sequence *)

Section Batches.
Context {SC : Scalar} {MD : Modules}.
Variable b : nat.
Hypothesis HB : Batched b.
Hypothesis Hb : (2 <= b)%nat.

#[local] Arguments cat : simpl never.
#[local] Arguments truth_gt : simpl never.
#[local] Arguments squeeze1 : simpl never.
#[local] Arguments tsigmoid : simpl never.

(** The truth value of a comparison on two or more stop tokens. *)
Lemma truth_gt_many (s : tensor) (c : F) :
  has_shape s [b; 1%nat] ->
  truth_gt (tsigmoid (data s)) c = Raise RuntimeError.
Proof.
  intros H. apply (tsigmoid_shape (a:=b) (c:=1%nat)) in H.
  apply has_shape2_inv in H. destruct H as (m & -> & Hm & Hr).
  unfold truth_gt. simpl flatten.
  pose proof (concat_length_rows Hm Hr) as Hl.
  destruct (concat m) as [|y [|z rest]]; simpl in Hl; try lia.
  reflexivity.
Qed.

Lemma go_frame_value (x : tensor) (w : World) :
  0 <= frame_dim (self w) * r (self w) -> batch b x ->
  get_go_frame x w = Ok (zeros b (frame_dim (self w) * r (self w)), w).
Proof.
  intros H Hx. unfold get_go_frame, bind, lift, get.
  rewrite size0_ok, (batch_size0 Hx).
  rewrite (@zeros_repeat_ok _ b) by lia. reflexivity.
Qed.

(** The first decode step of a run on [b] sequences ends at the
    stop-gate's comparison. *)
Lemma inference_body_rejects (x : tensor) (e : option tensor) (l : Locals)
      (w : World) :
  ready b w -> rows b (memory l) -> stop_single b w ->
  match e with Some s => rows b s | None => True end ->
  inference_body x e l w = Raise RuntimeError.
Proof.
  intros Hready Hmem Hstop He.
  unfold inference_body.
  unfold bind at 1. unfold get at 1. cbv beta iota.
  unfold bind at 1. unfold draw at 1.
  assert (Hp : rows b (fst (Prenet_call (prenet (self w)) (memory l) (rng w))))
    by (apply (prenet_rows HB); assumption).
  destruct (Prenet_call (prenet (self w)) (memory l) (rng w)) as [m g].
  simpl in Hp. cbv beta iota.
  assert (Hm : exists m', (match e with
                           | Some e0 => lift (cat (-1) m e0)
                           | None => ret m
                           end) (with_rng g w) = Ok (m', with_rng g w)
                          /\ rows b m').
  { destruct e as [s|].
    - destruct (cat_last_rows Hp He) as (z & Ez & Hz).
      exists z. unfold lift. now rewrite Ez.
    - exists m. split; [reflexivity|assumption]. }
  destruct Hm as (m' & Em & Hm').
  rewrite (bind_step _ Em).
  assert (Hr0 : ready b (with_rng g w)) by exact Hready.
  destruct (decode_runs HB Hr0 Hm')
    as (o & a & y & w1 & Ed & Ho & Hy & _).
  rewrite (bind_step _ Ed). cbv beta iota zeta.
  destruct (squeeze1_rows Ho) as (o' & Eo).
  unfold bind at 1. unfold lift at 1. rewrite Eo. cbv beta iota.
  unfold bind at 1. unfold lift at 1.
  now rewrite (truth_gt_many _ (Hstop y Hy)).
Qed.

Lemma inference_truncated_body_rejects (acc : Collected) (t : Z) (w : World) :
  ready b w -> set_rows b (memory_truncated (self w)) -> stop_single b w ->
  inference_truncated_body acc t w = Raise RuntimeError.
Proof.
  intros Hready Hmem Hstop.
  unfold inference_truncated_body.
  unfold bind at 1. unfold get at 1. cbv beta iota.
  unfold bind at 1. unfold attr at 1.
  destruct (memory_truncated (self w)) as [mt|]; [|contradiction].
  simpl in Hmem. cbv beta iota.
  unfold bind at 1. unfold draw at 1.
  assert (Hp : rows b (fst (Prenet_call (prenet (self w)) mt (rng w))))
    by (apply (prenet_rows HB); assumption).
  destruct (Prenet_call (prenet (self w)) mt (rng w)) as [m g].
  simpl in Hp. cbv beta iota.
  assert (Hr0 : ready b (with_rng g w)) by exact Hready.
  destruct (decode_runs HB Hr0 Hp)
    as (o & a & y & w1 & Ed & Ho & Hy & _).
  rewrite (bind_step _ Ed). cbv beta iota zeta.
  destruct (squeeze1_rows Ho) as (o' & Eo).
  unfold bind at 1. unfold lift at 1. rewrite Eo. cbv beta iota.
  unfold bind at 1. unfold lift at 1.
  now rewrite (truth_gt_many _ (Hstop y Hy)).
Qed.

Lemma stop_single_fixed (w w1 : World) :
  fixed w1 = fixed w -> stop_single b w -> stop_single b w1.
Proof.
  unfold fixed, stop_single. intros E H. injection E as _ E _ _ _ _.
  now rewrite E.
Qed.

(** The setup of [inference] on a batch of [b]. *)
Lemma inference_setup_batch (x : tensor) (w : World) :
  extents_ok w -> batch b x ->
  exists l0 w0,
    inference_setup x w = Ok (l0, w0) /\
    ready b w0 /\ rows b (memory l0) /\ fixed w0 = fixed w.
Proof.
  intros Hext Hx. pose proof Hext as (H1 & _).
  assert (Hb1 : (1 <= b)%nat) by lia.
  unfold inference_setup.
  rewrite (bind_step _ (go_frame_value H1 Hx)).
  destruct (update_memory_rows w (rows_zeros_b b (frame_dim (self w) * r (self w))))
    as (y & Eu & Hy).
  rewrite (bind_step _ Eu).
  destruct (init_states_runs Hb1 None Hext Hx) as (w0 & Ei & Hready & Hfix & _).
  rewrite (bind_step _ Ei).
  unfold bind, get, assign, ret. cbv beta iota.
  do 2 eexists. split; [reflexivity|].
  split; [apply Hready|]. split; [exact Hy|exact Hfix].
Qed.

(** The entry of a first call of [inference_truncated] on a batch of
    [b]. *)
Lemma inference_truncated_entry_batch (x : tensor) (w : World) :
  extents_ok w -> batch b x -> memory_truncated (self w) = None ->
  exists w0,
    inference_truncated_entry x w = Ok (tt, w0) /\
    ready b w0 /\ set_rows b (memory_truncated (self w0)) /\
    fixed w0 = fixed w.
Proof.
  intros Hext Hx Hnone. pose proof Hext as (H1 & _).
  assert (Hb1 : (1 <= b)%nat) by lia.
  unfold inference_truncated_entry.
  unfold bind at 1. unfold bind at 1. unfold get at 1. rewrite Hnone.
  rewrite (bind_step _ (go_frame_value H1 Hx)).
  unfold bind at 1. unfold assign at 1. cbv beta iota.
  set (w1 := with_self _ w).
  assert (Hext1 : extents_ok w1) by exact Hext.
  destruct (init_states_runs Hb1 None Hext1 Hx)
    as (w0 & Ei & Hready & Hfix & _).
  rewrite Ei. cbv beta iota.
  unfold bind, get, assign, ret. cbv beta iota.
  eexists. split; [reflexivity|].
  split; [apply Hready|]. split; [|exact Hfix].
  assert (Hk : keeps (fun w => memory_truncated (self w))
                     (_init_states x None false))
    by (unfold _init_states; method_frame ltac:(intros; reflexivity)).
  simpl. rewrite (Hk _ _ _ Ei). simpl. apply repeat_length.
Qed.

End Batches.

(** X4.  Free-running inference takes one sequence at a time.  On a
    batch of two or more sequences, with layers that keep the batch
    and a stop layer of one logit per sequence, [inference] and a
    first call of [inference_truncated] raise RuntimeError at their
    first step, where the stop tokens of the whole batch are
    compared with 0.7 as one truth value. *)
Theorem inference_rejects_batches
  {SC : Scalar} {MD : Modules}
  (b : nat) (x : tensor) (e : option tensor) (w : World) (fuel : nat) :
  Batched b -> (2 <= b)%nat -> extents_ok w -> batch b x ->
  stop_single b w ->
  match e with Some s => rows b s | None => True end ->
  (1 <= fuel)%nat ->
  inference_run fuel x e w = Raise RuntimeError /\
  inference fuel x e w = Raise RuntimeError /\
  (memory_truncated (self w) = None ->
   inference_truncated_run fuel x w = Raise RuntimeError /\
   inference_truncated fuel x w = Raise RuntimeError).
Proof.
  intros HB Hb Hext Hx Hstop He Hfuel.
  destruct fuel as [|fuel]; [lia|].
  assert (Hrun : inference_run (S fuel) x e w = Raise RuntimeError).
  { destruct (inference_setup_batch Hb Hext Hx)
      as (l0 & w0 & Es & Hready & Hmem & Hfix).
    unfold inference_run. rewrite (bind_step _ Es). simpl.
    apply bind_Raise. apply (inference_body_rejects HB Hb); try assumption.
    now apply (stop_single_fixed Hfix). }
  split; [exact Hrun|]. split.
  - unfold inference. now apply bind_Raise.
  - intros Hnone.
    assert (Htr : inference_truncated_run (S fuel) x w = Raise RuntimeError).
    { destruct (inference_truncated_entry_batch Hb Hext Hx Hnone)
        as (w0 & Es & Hready & Hmem & Hfix).
      unfold inference_truncated_run. rewrite (bind_step _ Es).
      apply bind_Raise. simpl. apply bind_Raise.
      apply (inference_truncated_body_rejects HB Hb); try assumption.
      now apply (stop_single_fixed Hfix). }
    split; [exact Htr|]. unfold inference_truncated. now apply bind_Raise.
Qed.

(** Two sequences of three encoder positions. *)
Lemma inference_rejects_batches_witness :
  @inference Toy.scalar (Toy.modules 0) 1 (Toy.encoded 2 3) None
    (Toy.world 0) = Raise RuntimeError /\
  @inference_truncated Toy.scalar (Toy.modules 0) 1 (Toy.encoded 2 3)
    (Toy.world 0) = Raise RuntimeError.
Proof.
  destruct (@inference_rejects_batches Toy.scalar (Toy.modules 0)
              2%nat (Toy.encoded 2 3) None (Toy.world 0) 1%nat)
    as (_ & H1 & H2).
  - apply toy_batched.
  - lia.
  - unfold extents_ok. simpl. lia.
  - reflexivity.
  - apply (toy_suited_batch 0 2 3).
  - exact I.
  - lia.
  - split; [exact H1|]. now apply H2.
Defined.

(* ================================================================== *)
(** ** The state an earlier run has left *)

Section StaleState.
Context {SC : Scalar} {MD : Modules}.
Variables q c h dc ctx inp pin : option tensor.
Variable msk : option (option tensor).

Local Abbreviation u := (stale q c h dc ctx inp pin msk).
Local Ltac side := intros; reflexivity.

Lemma forgets_bind {A B} (m : M A) (k : A -> M B) :
  forgets u m -> forgets u (bind m k).
Proof. intros H w. unfold bind. now rewrite H. Qed.

Lemma forgets_bind_blind {A B} (m : M A) (k : A -> M B) :
  blind u m -> (forall a, forgets u (k a)) -> forgets u (bind m k).
Proof.
  intros Hm Hk w. unfold bind. rewrite Hm.
  destruct (m w) as [[a w1]|ex]; simpl; [apply Hk|reflexivity].
Qed.

(** [_init_states] overwrites all of it. *)
Lemma forgets_init_states (x : tensor) (mask : option tensor) :
  forgets u (_init_states x mask false).
Proof.
  intros w. unfold _init_states, bind, lift, get, assign, ret.
  rewrite size0_ok. simpl.
  repeat match goal with
         | |- context [zeros_repeat ?a ?k] => destruct (zeros_repeat a k); simpl
         end; reflexivity.
Qed.

Local Ltac forget_prefix :=
  repeat lazymatch goal with
         | |- forgets _ (bind (_init_states _ _ _) _) => fail
         | |- forgets _ (bind _ _) =>
             apply forgets_bind_blind; [method_frame side|intros]
         end;
  apply forgets_bind; apply forgets_init_states.

Lemma forgets_forward_setup x ms mask e :
  forgets u (forward_setup x ms mask e).
Proof.
  unfold forward_setup, get_go_frame, _reshape_memory, _update_memory.
  forget_prefix.
Qed.

Lemma forgets_inference_setup x : forgets u (inference_setup x).
Proof.
  unfold inference_setup, get_go_frame, _update_memory. forget_prefix.
Qed.

Lemma forgets_first_entry x :
  forgets u (go <- get_go_frame x ;;
             assign (with_memory_truncated (Some go)) ;;;
             _init_states x None false).
Proof.
  unfold get_go_frame.
  repeat lazymatch goal with
         | |- forgets _ (_init_states _ _ _) => fail
         | |- forgets _ (bind _ _) =>
             apply forgets_bind_blind; [method_frame side|intros]
         end.
  apply forgets_init_states.
Qed.

Lemma bind_at {A B} (m : M A) (k : A -> M B) (w1 w2 : World) :
  m w1 = m w2 -> bind m k w1 = bind m k w2.
Proof. intros H. unfold bind. now rewrite H. Qed.

Lemma bind_get {A B} (f : Decoder -> A) (k : A -> M B) (w : World) :
  bind (get f) k w = k (f (self w)) w.
Proof. reflexivity. Qed.

(** A first call of [inference_truncated] starts from scratch. *)
Lemma forgets_first_call (x : tensor) (w : World) :
  memory_truncated (self w) = None ->
  inference_truncated_entry x (touch u w) = inference_truncated_entry x w.
Proof.
  intros Hnone. unfold inference_truncated_entry. rewrite !bind_get.
  change (memory_truncated (self (touch u w)))
    with (memory_truncated (self w)).
  rewrite Hnone. apply forgets_bind, forgets_first_entry.
Qed.

(** X5.  The entry points that reset the state do not depend on what
    an earlier run has left in it.  Whatever the recurrent state,
    the stored inputs and the mask hold on entry, [forward],
    [inference], [inference_step] with [t = 0] and a first call of
    [inference_truncated] (no buffer yet) run exactly as they do
    without: same result, same decoder afterwards. *)
Theorem entry_points_forget_stale_state
  (x memories : tensor) (mask e m : option tensor) (fuel : nat) (w : World) :
  forward x memories mask e (touch u w) = forward x memories mask e w /\
  inference fuel x e (touch u w) = inference fuel x e w /\
  inference_step x 0 m (touch u w) = inference_step x 0 m w /\
  inference_truncated fuel x (touch u (touch (with_memory_truncated None) w))
    = inference_truncated fuel x (touch (with_memory_truncated None) w).
Proof.
  split; [|split; [|split]].
  - unfold forward, forward_run.
    apply forgets_bind, forgets_bind, forgets_forward_setup.
  - unfold inference, inference_run.
    apply forgets_bind, forgets_bind, forgets_inference_setup.
  - unfold inference_step. change (0 =? 0) with true. cbv iota.
    apply forgets_bind. unfold get_go_frame.
    repeat lazymatch goal with
           | |- forgets _ (bind (_init_states _ _ _) _) => fail
           | |- forgets _ (bind _ _) =>
               apply forgets_bind_blind; [method_frame side|intros]
           end.
    apply forgets_bind, forgets_init_states.
  - unfold inference_truncated, inference_truncated_run.
    apply bind_at, bind_at, forgets_first_call. reflexivity.
Qed.

End StaleState.

(* ================================================================== *)
(** ** How the loop of [inference] counts its steps *)

Section Counting.
Context {SC : Scalar} {MD : Modules}.

Local Ltac side := intros; reflexivity.

Lemma keeps_kept_call_stopnet x : keeps kept (call_stopnet x).
Proof. unfold call_stopnet. method_frame side. Qed.

Lemma keeps_kept_update_memory x : keeps kept (_update_memory x).
Proof. unfold _update_memory. method_frame side. Qed.

Hint Resolve keeps_kept_call_stopnet keeps_kept_update_memory : frames.

Lemma keeps_kept_decode x : keeps kept (decode x).
Proof. unfold decode. method_frame side. Qed.

Lemma keeps_kept_get_go_frame x : keeps kept (get_go_frame x).
Proof. unfold get_go_frame. method_frame side. Qed.

Lemma keeps_kept_init_states x m k : keeps kept (_init_states x m k).
Proof. unfold _init_states. method_frame side. Qed.

Hint Resolve keeps_kept_decode keeps_kept_get_go_frame
  keeps_kept_init_states : frames.

Lemma keeps_kept_inference_setup x : keeps kept (inference_setup x).
Proof. unfold inference_setup. method_frame side. Qed.

Lemma keeps_kept_inference_truncated_entry x :
  keeps kept (inference_truncated_entry x).
Proof. unfold inference_truncated_entry. method_frame side. Qed.

#[local] Arguments decode : simpl never.
#[local] Arguments _update_memory : simpl never.
#[local] Arguments cat : simpl never.
#[local] Arguments truth_gt : simpl never.
#[local] Arguments squeeze1 : simpl never.
#[local] Arguments tsigmoid : simpl never.

Lemma inference_body_outcome
  (x : tensor) (e : option tensor) (l l1 : Locals) (w w1 : World) (c : ctl) :
  inference_body x e l w = Ok ((c, l1), w1) ->
  length (outputs (collected l1)) = S (length (outputs (collected l))) /\
  length (stop_tokens (collected l1))
    = S (length (stop_tokens (collected l))) /\
  length (alignments (collected l1))
    = S (length (alignments (collected l))) /\
  fixed w1 = fixed w /\
  match c with
  | Break_gate =>
      t l1 = t l /\ stdout w1 = stdout w /\
      Z.of_nat (hd O (shape x)) < 2 * t l
  | Break_ceiling =>
      t l1 = t l /\ stdout w1 = stdout w ++ [diagnostic] /\
      Py.len (outputs (collected l1)) = max_decoder_steps (self w)
  | Continue =>
      t l1 = t l + 1 /\ stdout w1 = stdout w /\
      Py.len (outputs (collected l1)) <> max_decoder_steps (self w)
  end.
Proof.
  intros H. unfold inference_body in H.
  unfold bind, get, attr, draw, lift, ret, assign, print in H.
  simpl in H. rewrite size0_ok in H.
  repeat run_innermost_in H; try discriminate.
  all: injection H as <- <- <-.
  all: match goal with
       | H : decode _ _ = Ok _ |- _ =>
           let K := fresh "K" in
           pose proof (keeps_kept_decode H) as K; unfold kept in K;
           pose proof (f_equal fst K) as Kf;
           pose proof (f_equal snd K) as Ks; cbn [fst snd] in Kf, Ks
       end.
  all: try match goal with
       | H : _update_memory _ _ = Ok _ |- _ =>
           let K := fresh "K" in
           pose proof (keeps_kept_update_memory H) as K; unfold kept in K;
           pose proof (f_equal fst K) as Kf';
           pose proof (f_equal snd K) as Ks'; cbn [fst snd] in Kf', Ks';
           rewrite Kf in Kf'; rewrite Ks in Ks'
       end.
  all: match goal with
       | K : fixed _ = fixed (with_rng ?g ?w0) |- _ =>
           change (fixed (with_rng g w0)) with (fixed w0) in *;
           change (stdout (with_rng g w0)) with (stdout w0) in *
       end.
  all: pose proof (max_fixed Kf) as Kmax.
  all: repeat match goal with
       | H : (_ =? _) = true |- _ => apply Z.eqb_eq in H
       | H : (_ =? _) = false |- _ => apply Z.eqb_neq in H
       | H : gt_half _ _ = true |- _ => apply gt_half_spec in H
       end.
  all: simpl; rewrite ?length_app; simpl.
  all: repeat split; try lia; try assumption; try congruence.
Qed.

Lemma inference_loop_outcome (x : tensor) (e : option tensor) :
  forall fuel l w l' w',
    inference_loop fuel x e l w = Ok (l', w') ->
    (length (stop_tokens (collected l)) = length (outputs (collected l)) ->
     length (stop_tokens (collected l')) = length (outputs (collected l'))) /\
    (length (alignments (collected l)) = length (outputs (collected l)) ->
     length (alignments (collected l')) = length (outputs (collected l'))) /\
    t l' - t l
      = Py.len (outputs (collected l')) - Py.len (outputs (collected l)) - 1 /\
    (length (outputs (collected l)) < length (outputs (collected l')))%nat /\
    fixed w' = fixed w /\
    (stdout w' = stdout w /\ Z.of_nat (hd O (shape x)) < 2 * t l' \/
     stdout w' = stdout w ++ [diagnostic] /\
     Py.len (outputs (collected l')) = max_decoder_steps (self w)) /\
    (Py.len (outputs (collected l)) < max_decoder_steps (self w) ->
     Py.len (outputs (collected l')) <= max_decoder_steps (self w)).
Proof.
  induction fuel as [|fuel IH]; intros l w l' w' H; [discriminate|].
  simpl in H. apply bind_Ok in H.
  destruct H as ([c l1] & w1 & Eb & H).
  destruct (inference_body_outcome Eb) as (Ho & Hs & Ha & Hf & Hc).
  pose proof (max_fixed Hf) as Hmx. unfold Py.len in *.
  destruct c.
  - injection H as <- <-. destruct Hc as (Ht & Hout & Hg).
    repeat split; try lia; try assumption. left. split; [assumption|].
    now rewrite Ht.
  - injection H as <- <-. destruct Hc as (Ht & Hout & Hm).
    repeat split; try lia; try assumption. right. now split.
  - destruct Hc as (Ht & Hout & Hm).
    destruct (IH _ _ _ _ H) as (I1 & I2 & I3 & I4 & I5 & I6 & I7).
    rewrite Hmx in *.
    repeat split; try lia; try congruence.
Qed.

Lemma inference_setup_outcome (x : tensor) (w w0 : World) (l0 : Locals) :
  inference_setup x w = Ok (l0, w0) ->
  collected l0 = nothing /\ t l0 = 0 /\ kept w0 = kept w.
Proof.
  intros H. pose proof (keeps_kept_inference_setup H) as K.
  unfold inference_setup in H.
  repeat (apply bind_Ok in H; destruct H as (? & ? & _ & H)).
  injection H as <- <-. auto.
Qed.

(** X6.  How [inference] counts.  When the loop of [inference]
    returns, [t] is one less than the number of decode steps done,
    the three collected lists have that many entries, at least one,
    and no more than [max_decoder_steps] when that is positive; the
    output stream is as it was, or has gained the one diagnostic line
    with exactly [max_decoder_steps] steps done. *)
Theorem inference_counts_steps
  (fuel : nat) (x : tensor) (e : option tensor) (w w' : World) (l : Locals) :
  inference_run fuel x e w = Ok (l, w') ->
  t l = Py.len (outputs (collected l)) - 1 /\
  length (stop_tokens (collected l)) = length (outputs (collected l)) /\
  length (alignments (collected l)) = length (outputs (collected l)) /\
  (1 <= length (outputs (collected l)))%nat /\
  (1 <= max_decoder_steps (self w) ->
   Py.len (outputs (collected l)) <= max_decoder_steps (self w)) /\
  (stdout w' = stdout w \/
   stdout w' = stdout w ++ [diagnostic] /\
   Py.len (outputs (collected l)) = max_decoder_steps (self w)).
Proof.
  intros H. unfold inference_run in H. apply bind_Ok in H.
  destruct H as (l0 & w0 & Es & H).
  destruct (inference_setup_outcome Es) as (Hc & Ht & K).
  unfold kept in K.
  pose proof (f_equal fst K) as Kf. pose proof (f_equal snd K) as Ks.
  cbn [fst snd] in Kf, Ks. pose proof (max_fixed Kf) as Hmx.
  destruct (inference_loop_outcome H) as (I1 & I2 & I3 & I4 & I5 & I6 & I7).
  rewrite Hc, Ht, Hmx, Ks in *. unfold Py.len in *. simpl in *.
  repeat split; try lia; try (now auto).
  destruct I6 as [[I6 _]|I6]; [now left|now right].
Qed.

(** X7.  The stop-gate of [inference] never ends a run at its first
    step.  A run that returns without the diagnostic line was ended
    by the gate, at a step [t] with [2 * t] above [inputs.shape[0]],
    the number of sequences: at least two decode steps were done. *)
Theorem gate_never_ends_first_step
  (fuel : nat) (x : tensor) (e : option tensor) (w w' : World) (l : Locals) :
  inference_run fuel x e w = Ok (l, w') ->
  stdout w' = stdout w ->
  Z.of_nat (hd O (shape x)) < 2 * t l /\
  2 <= Py.len (outputs (collected l)).
Proof.
  intros H Hout. unfold inference_run in H. apply bind_Ok in H.
  destruct H as (l0 & w0 & Es & H).
  destruct (inference_setup_outcome Es) as (Hc & Ht & K).
  unfold kept in K. pose proof (f_equal snd K) as Ks. cbn [fst snd] in Ks.
  destruct (inference_loop_outcome H) as (_ & _ & I3 & _ & _ & I6 & _).
  rewrite Hc, Ht, Ks in *. unfold Py.len in *.
  cbn [outputs nothing length Z.of_nat] in *.
  destruct I6 as [[_ I6]|[I6 _]].
  - split; [exact I6|]. lia.
  - rewrite Hout in I6. apply (f_equal (@length _)) in I6.
    rewrite length_app in I6. simpl in I6. lia.
Qed.

End Counting.

(** A run the gate ends: stop-logit 20 on one sequence of three
    positions. *)
Lemma inference_counts_steps_witness :
  exists l w',
    @inference_run Toy.scalar (Toy.modules 20) 2 (Toy.encoded 1 3) None
      (Toy.world 20) = Ok (l, w') /\
    t l = Py.len (outputs (collected l)) - 1 /\
    length (stop_tokens (collected l)) = length (outputs (collected l)) /\
    length (alignments (collected l)) = length (outputs (collected l)).
Proof.
  assert (V : match @inference_run Toy.scalar (Toy.modules 20) 2
                      (Toy.encoded 1 3) None (Toy.world 20) with
              | Ok _ => True
              | Raise _ => False
              end) by (vm_compute; exact I).
  destruct (@inference_run Toy.scalar (Toy.modules 20) 2 (Toy.encoded 1 3)
              None (Toy.world 20)) as [[l w']|ex] eqn:E; [|contradiction].
  exists l, w'. split; [reflexivity|].
  destruct (inference_counts_steps E) as (H1 & H2 & H3 & _).
  auto.
Defined.

Lemma gate_never_ends_first_step_witness :
  exists l w',
    @inference_run Toy.scalar (Toy.modules 20) 2 (Toy.encoded 1 3) None
      (Toy.world 20) = Ok (l, w') /\
    1 < 2 * t l /\
    2 <= Py.len (outputs (collected l)).
Proof.
  assert (V : match @inference_run Toy.scalar (Toy.modules 20) 2
                      (Toy.encoded 1 3) None (Toy.world 20) with
              | Ok (_, w1) => stdout w1 = stdout (Toy.world 20)
              | Raise _ => False
              end) by (vm_compute; reflexivity).
  destruct (@inference_run Toy.scalar (Toy.modules 20) 2 (Toy.encoded 1 3)
              None (Toy.world 20)) as [[l w']|ex] eqn:E; [|contradiction].
  exists l, w'. split; [reflexivity|].
  exact (gate_never_ends_first_step E V).
Defined.

(* ================================================================== *)
(** ** What a call of [inference_truncated] leaves in the buffer *)

Section TruncatedBuffer.
Context {SC : Scalar} {MD : Modules}.

Local Ltac side := intros; reflexivity.

Lemma keeps_buffer_call_stopnet x :
  keeps (fun w => memory_truncated (self w)) (call_stopnet x).
Proof. unfold call_stopnet. method_frame side. Qed.

Hint Resolve keeps_buffer_call_stopnet : frames.

Lemma keeps_buffer_decode x :
  keeps (fun w => memory_truncated (self w)) (decode x).
Proof. unfold decode. method_frame side. Qed.

#[local] Arguments decode : simpl never.
#[local] Arguments truth_gt : simpl never.
#[local] Arguments squeeze1 : simpl never.
#[local] Arguments tsigmoid : simpl never.

(** One iteration: the frame-group it adds, and what it does to the
    buffer. *)
Lemma inference_truncated_body_buffer
  (acc acc1 : Collected) (t t1 : Z) (w w1 : World) (c : ctl) :
  inference_truncated_body acc t w = Ok ((c, (acc1, t1)), w1) ->
  exists o o',
    squeeze1 o = Ok o' /\ outputs acc1 = outputs acc ++ [o'] /\
    match c with
    | Continue => memory_truncated (self w1) = Some o
    | _ => memory_truncated (self w1) = memory_truncated (self w)
    end.
Proof.
  intros H. unfold inference_truncated_body in H.
  unfold bind, get, attr, draw, lift, ret, assign, print in H.
  simpl in H.
  repeat run_innermost_in H; try discriminate.
  all: injection H as <- <- <- <-.
  all: match goal with
       | H : decode _ _ = Ok _ |- _ =>
           pose proof (keeps_buffer_decode H) as K; simpl in K
       end.
  all: do 2 eexists; (split; [eassumption|]); (split; [reflexivity|]).
  all: simpl; first [reflexivity | congruence].
Qed.

Lemma inference_truncated_loop_buffer :
  forall fuel acc t w acc' t' w',
    inference_truncated_loop fuel acc t w = Ok ((acc', t'), w') ->
    exists pre o',
      outputs acc' = pre ++ [o'] /\
      (pre = outputs acc /\
       memory_truncated (self w') = memory_truncated (self w) \/
       exists o prev before,
         pre = before ++ [prev] /\
         memory_truncated (self w') = Some o /\ squeeze1 o = Ok prev).
Proof.
  induction fuel as [|fuel IH]; intros acc t w acc' t' w' H; [discriminate|].
  simpl in H. apply bind_Ok in H.
  destruct H as ([c [acc1 t1]] & w1 & Eb & H).
  destruct (inference_truncated_body_buffer Eb) as (o & o1 & Eo & Ho & Hc).
  destruct c.
  - injection H as <- <- <-. exists (outputs acc), o1. auto.
  - injection H as <- <- <-. exists (outputs acc), o1. auto.
  - destruct (IH _ _ _ _ _ _ H) as (pre & o' & Hpre & [[-> Hm]|Hm]).
    + exists (outputs acc1), o'. split; [exact Hpre|]. right.
      exists o, o1, (outputs acc). rewrite Hm. auto.
    + exists pre, o'. auto.
Qed.

(** X8.  [inference_truncated] never stores the frame-group of its
    last step.  After a call that did two or more decode steps the
    buffer [memory_truncated] holds the output of the step before the
    last; after a call that did one step it holds what the call
    started from (the go frame on a first call, the earlier buffer
    otherwise).  A call does at least one step. *)
Theorem truncated_buffer_lags_one_step
  (fuel : nat) (x : tensor) (w w' : World) (acc : Collected) :
  inference_truncated_run fuel x w = Ok (acc, w') ->
  match rev (outputs acc) with
  | [] => False
  | [_] =>
      exists w0,
        inference_truncated_entry x w = Ok (tt, w0) /\
        memory_truncated (self w') = memory_truncated (self w0)
  | _ :: prev :: _ =>
      exists o, memory_truncated (self w') = Some o /\ squeeze1 o = Ok prev
  end.
Proof.
  intros H. unfold inference_truncated_run in H. apply bind_Ok in H.
  destruct H as ([] & w0 & Ee & H). apply bind_Ok in H.
  destruct H as ([acc1 t1] & w1 & El & H). injection H as <- <-.
  destruct (inference_truncated_loop_buffer El)
    as (pre & o' & -> & [[-> Hm]|(o & prev & before & -> & Hm & Ho)]).
  - simpl. eauto.
  - rewrite !rev_app_distr. simpl. eauto.
Qed.

End TruncatedBuffer.

(** A first call the gate ends at its first step (stop-logit 20): the
    buffer still holds the go frame. *)
Lemma truncated_buffer_lags_one_step_witness :
  exists acc w' w0,
    @inference_truncated_run Toy.scalar (Toy.modules 20) 1 (Toy.encoded 1 3)
      (Toy.world 20) = Ok (acc, w') /\
    inference_truncated_entry (Toy.encoded 1 3) (Toy.world 20)
      = Ok (tt, w0) /\
    memory_truncated (self w') = memory_truncated (self w0).
Proof.
  assert (V : match @inference_truncated_run Toy.scalar (Toy.modules 20) 1
                      (Toy.encoded 1 3) (Toy.world 20) with
              | Ok (acc, _) => length (outputs acc) = 1%nat
              | Raise _ => False
              end) by (vm_compute; reflexivity).
  destruct (@inference_truncated_run Toy.scalar (Toy.modules 20) 1
              (Toy.encoded 1 3) (Toy.world 20)) as [[acc w']|ex] eqn:E;
    [|contradiction].
  pose proof (truncated_buffer_lags_one_step E) as H.
  destruct (outputs acc) as [|o [|o2 rest]];
    [exfalso; simpl in V; lia| |exfalso; simpl in V; lia].
  cbn [rev app] in H. destruct H as (w0 & H1 & H2).
  exists acc, w', w0. split; [reflexivity|]. split; assumption.
Defined.

(* ================================================================== *)
(** ** What the methods leave alone *)

Section LeftAlone.
Context {SC : Scalar} {MD : Modules}.

Local Ltac side := intros; reflexivity.

Lemma keeps_beyond_call_stopnet x : keeps beyond_decode (call_stopnet x).
Proof. unfold call_stopnet. method_frame side. Qed.

Hint Resolve keeps_beyond_call_stopnet : frames.

Lemma keeps_beyond_decode x : keeps beyond_decode (decode x).
Proof. unfold decode. method_frame side. Qed.

(** X9.  A decode step assigns the recurrent state (query, the two
    cell states, the decoder's hidden state, the context) and the
    attention object, and draws dropout masks; it changes no
    hyper-parameter, no layer, not the truncated-memory buffer, not
    the stored encoder outputs, their processed form or the mask, and
    prints nothing. *)
Theorem decode_assigns_only_state
  (memory : tensor) (w w' : World) (res : tensor * tensor * tensor) :
  decode memory w = Ok (res, w') ->
  beyond_decode w' = beyond_decode w.
Proof. apply keeps_beyond_decode. Qed.

Lemma keeps_configuration_call_stopnet x :
  keeps configuration (call_stopnet x).
Proof. unfold call_stopnet. method_frame side. Qed.

Lemma keeps_configuration_get_go_frame x :
  keeps configuration (get_go_frame x).
Proof. unfold get_go_frame. method_frame side. Qed.

Lemma keeps_configuration_init_states x m k :
  keeps configuration (_init_states x m k).
Proof. unfold _init_states. method_frame side. Qed.

Lemma keeps_configuration_reshape_memory x :
  keeps configuration (_reshape_memory x).
Proof. unfold _reshape_memory. method_frame side. Qed.

Lemma keeps_configuration_update_memory x :
  keeps configuration (_update_memory x).
Proof. unfold _update_memory. method_frame side. Qed.

Lemma keeps_configuration_parse_outputs a b c :
  keeps configuration (_parse_outputs a b c).
Proof. unfold _parse_outputs. method_frame side. Qed.

Hint Resolve keeps_configuration_call_stopnet
  keeps_configuration_get_go_frame keeps_configuration_init_states
  keeps_configuration_reshape_memory keeps_configuration_update_memory
  keeps_configuration_parse_outputs : frames.

Lemma keeps_configuration_decode x : keeps configuration (decode x).
Proof. unfold decode. method_frame side. Qed.

Hint Resolve keeps_configuration_decode : frames.

Lemma keeps_configuration_forward_loop fuel ms acc :
  keeps configuration (forward_loop fuel ms acc).
Proof.
  revert acc. induction fuel as [|fuel IH]; intros acc; simpl;
    method_frame side.
Qed.

Lemma keeps_configuration_inference_loop fuel x e l :
  keeps configuration (inference_loop fuel x e l).
Proof.
  revert l. induction fuel as [|fuel IH]; intros l; simpl.
  - apply keeps_raise.
  - unfold inference_body. method_frame side.
Qed.

Lemma keeps_configuration_inference_truncated_loop fuel a t :
  keeps configuration (inference_truncated_loop fuel a t).
Proof.
  revert a t. induction fuel as [|fuel IH]; intros a t; simpl.
  - apply keeps_raise.
  - unfold inference_truncated_body. method_frame side.
Qed.

Hint Resolve keeps_configuration_forward_loop
  keeps_configuration_inference_loop
  keeps_configuration_inference_truncated_loop : frames.

(** X10.  No run changes the configuration.  [forward],
    [inference], [inference_truncated] and [inference_step] leave
    every hyper-parameter (among them [r], [r_init],
    [max_decoder_steps] and the training flag) and every learned layer
    as they found them; of the methods only [set_r] assigns one. *)
Theorem runs_keep_configuration
  (x memories : tensor) (mask e m : option tensor) (fuel : nat) (t : Z) :
  keeps configuration (forward x memories mask e) /\
  keeps configuration (inference fuel x e) /\
  keeps configuration (inference_truncated fuel x) /\
  keeps configuration (inference_step x t m).
Proof.
  split; [|split; [|split]].
  - unfold forward, forward_run, forward_setup. method_frame side.
  - unfold inference, inference_run, inference_setup. method_frame side.
  - unfold inference_truncated, inference_truncated_run,
      inference_truncated_entry. method_frame side.
  - unfold inference_step. method_frame side.
Qed.

(** X11.  The recurrent state exists only after [_init_states]: on a
    decoder whose [context] has not been assigned, as [__init__]
    leaves it, [decode] raises AttributeError whatever its input, and
    so does [inference_step] with [t] other than 0, which skips the
    initialisation. *)
Theorem decode_needs_init_states
  (memory x : tensor) (t : Z) (w : World) :
  context (self w) = None -> t <> 0 ->
  decode memory w = Raise AttributeError /\
  inference_step x t (Some memory) w = Raise AttributeError /\
  (forall input_dim frame_dim r attn_type attn_win attn_norm prenet_type
          prenet_dropout forward_attn trans_agent forward_attn_mask
          location_attn attn_K separate_stopnet speaker_embedding_dim,
      context
        (__init__ input_dim frame_dim r attn_type attn_win attn_norm
           prenet_type prenet_dropout forward_attn trans_agent
           forward_attn_mask location_attn attn_K separate_stopnet
           speaker_embedding_dim) = None).
Proof.
  intros Hc Ht.
  assert (Hd : forall m w0, context (self w0) = None ->
                 decode m w0 = Raise AttributeError).
  { intros m w0 H0. unfold decode. unfold bind at 1. unfold attr at 1.
    now rewrite H0. }
  split; [now apply Hd|]. split; [|reflexivity].
  unfold inference_step. destruct (Z.eqb_spec t 0) as [|_]; [contradiction|].
  unfold bind at 1. unfold bind at 1. unfold ret at 1. cbv beta iota.
  unfold bind at 1. unfold bind at 1. unfold get at 1. cbv beta iota.
  unfold draw at 1.
  destruct (Prenet_call (prenet (self w)) memory (rng w)) as [m g].
  cbv beta iota. now rewrite Hd.
Qed.

End LeftAlone.

(** A decode step of the small network, at the top of the loop of a
    first call of [inference_truncated]. *)
Lemma decode_assigns_only_state_witness :
  exists res w',
    @decode Toy.scalar (Toy.modules 0) (@T2 Toy.scalar [[0; 0]%Q])
      (Toy.started 0) = Ok (res, w') /\
    beyond_decode w' = beyond_decode (Toy.started 0).
Proof.
  assert (V : match @decode Toy.scalar (Toy.modules 0)
                      (@T2 Toy.scalar [[0; 0]%Q]) (Toy.started 0) with
              | Ok _ => True
              | Raise _ => False
              end) by (vm_compute; exact I).
  destruct (@decode Toy.scalar (Toy.modules 0) (@T2 Toy.scalar [[0; 0]%Q])
              (Toy.started 0)) as [[res w']|ex] eqn:E; [|contradiction].
  exists res, w'. split; [reflexivity|].
  exact (decode_assigns_only_state E).
Defined.

(** A teacher-forced run of the small network. *)
Lemma runs_keep_configuration_witness :
  exists res w',
    @forward Toy.scalar (Toy.modules 0) (Toy.encoded 1 3)
      (Toy.frames 1 4) None None (Toy.world 0) = Ok (res, w') /\
    configuration w' = configuration (Toy.world 0).
Proof.
  assert (V : match @forward Toy.scalar (Toy.modules 0) (Toy.encoded 1 3)
                      (Toy.frames 1 4) None None (Toy.world 0) with
              | Ok _ => True
              | Raise _ => False
              end) by (vm_compute; exact I).
  destruct (@forward Toy.scalar (Toy.modules 0) (Toy.encoded 1 3)
              (Toy.frames 1 4) None None (Toy.world 0))
    as [[res w']|ex] eqn:E; [|contradiction].
  exists res, w'. split; [reflexivity|].
  exact (proj1 (@runs_keep_configuration Toy.scalar (Toy.modules 0)
                  (Toy.encoded 1 3) (Toy.frames 1 4) None None None
                  O 0) _ _ _ E).
Defined.

(** The decoder as [__init__] leaves it, and [t = 1]. *)
Lemma decode_needs_init_states_witness :
  @decode Toy.scalar (Toy.modules 0) (@T2 Toy.scalar [[0; 0]%Q])
    (Toy.world 0) = Raise AttributeError /\
  @inference_step Toy.scalar (Toy.modules 0) (Toy.encoded 1 3) 1
    (Some (@T2 Toy.scalar [[0; 0]%Q])) (Toy.world 0) = Raise AttributeError.
Proof.
  destruct (@decode_needs_init_states Toy.scalar (Toy.modules 0)
              (@T2 Toy.scalar [[0; 0]%Q]) (Toy.encoded 1 3) 1 (Toy.world 0))
    as (H1 & H2 & _).
  - reflexivity.
  - lia.
  - split; assumption.
Defined.

(* ================================================================== *)
(** ** The convolution blocks *)

Section Blocks.
Context {SC : Scalar} {FN : functional.Functional}.

Lemma kernel_parity (k : Z) : ((k - 1) mod 2 =? 0) = Z.odd k.
Proof.
  rewrite Zmod_odd, Z.sub_1_r, Z.odd_pred, <- Z.negb_even.
  now destruct (Z.even k).
Qed.

Lemma odd_kernel_padding (k : Z) :
  Z.odd k = true -> 2 * ((k - 1) / 2) + 1 = k.
Proof.
  intros H. rewrite <- kernel_parity in H. apply Z.eqb_eq in H.
  pose proof (Z.div_mod (k - 1) 2). lia.
Qed.

(** X12.  [ConvBNBlock] takes odd kernel sizes only, and pads so that
    a convolution keeps the length of its input.  On an even
    [kernel_size] its constructor raises AssertionError, before it
    builds any layer.  On an odd [kernel_size >= 1], with
    [in_channels >= 1] and [out_channels >= 1], the convolution it
    builds has the given channels and kernel size and a padding
    [p >= 0] with [2 * p + 1 = kernel_size], so that
    [L + 2 * p - (kernel_size - 1)], the output length of a
    convolution of stride 1, is [L]; the normalisation is over the
    output channels; the activation is ReLU for 'relu', Tanh for
    'tanh' and the identity for anything else. *)
Theorem convbn_block_asserts_odd_kernel
  (i o k : Z) (act : option string) (g : functional.Gen) :
  (Z.even k = true -> ConvBNBlock.__init__ i o k act g = AssertionError) /\
  (Z.odd k = true -> 1 <= k -> 1 <= i -> 1 <= o ->
   exists b g',
     ConvBNBlock.__init__ i o k act g = Built (b, g') /\
     nn.in_channels (ConvBNBlock.convolution1d b) = i /\
     nn.out_channels (ConvBNBlock.convolution1d b) = o /\
     nn.kernel_size (ConvBNBlock.convolution1d b) = k /\
     0 <= nn.padding (ConvBNBlock.convolution1d b) /\
     2 * nn.padding (ConvBNBlock.convolution1d b) + 1 = k /\
     (forall L, L + 2 * nn.padding (ConvBNBlock.convolution1d b) - (k - 1)
                = L) /\
     nn.num_features (ConvBNBlock.batch_normalization b) = o /\
     ConvBNBlock.activation b
       = match act with
         | Some "relu"%string => nn.ReLU
         | Some "tanh"%string => nn.Tanh
         | _ => nn.Identity
         end).
Proof.
  unfold ConvBNBlock.__init__. rewrite kernel_parity. split.
  - intros E. rewrite <- Z.negb_odd in E.
    destruct (Z.odd k); [discriminate|reflexivity].
  - intros E Hk Hi Ho. rewrite E. cbv [negb].
    unfold nn.Conv1d_new.
    destruct (functional.Conv1d_init i o k g) as [ps g'].
    eexists. exists g'. split; [reflexivity|].
    cbn [fst snd nn.in_channels nn.out_channels nn.kernel_size nn.padding
         nn.num_features ConvBNBlock.convolution1d
         ConvBNBlock.batch_normalization ConvBNBlock.activation
         nn.BatchNorm1d_new].
    pose proof (odd_kernel_padding E) as Hp.
    repeat split; try lia.
    destruct act as [s|]; [|reflexivity].
    destruct (String.eqb_spec s "relu") as [->|H1]; [reflexivity|].
    destruct (String.eqb_spec s "tanh") as [->|H2]; [reflexivity|].
    repeat match goal with
           | |- context [match ?x with _ => _ end] =>
               destruct x; try reflexivity; try congruence
           end.
Qed.

(** What [ConvBNBlock(i, o, 5, act)] builds. *)
Lemma block_init_five (i o : Z) (act : option string) (g : functional.Gen) :
  exists b,
    ConvBNBlock.__init__ i o 5 act g
      = Built (b, snd (functional.Conv1d_init i o 5 g)) /\
    fresh_block i o
      match act with
      | Some s =>
          if String.eqb s "relu" then nn.ReLU
          else if String.eqb s "tanh" then nn.Tanh else nn.Identity
      | None => nn.Identity
      end b.
Proof.
  unfold ConvBNBlock.__init__. change ((5 - 1) mod 2 =? 0) with true.
  change ((5 - 1) / 2) with 2. cbv [negb].
  destruct (nn.Conv1d_new i o 5 2 g) as [c g'] eqn:E.
  eexists. split.
  - f_equal. f_equal. unfold nn.Conv1d_new in E.
    destruct (functional.Conv1d_init i o 5 g). now injection E.
  - unfold fresh_block. simpl. repeat split.
    exists g. now rewrite E.
Qed.

Lemma fresh_block_channels (i o : Z) (a : nn.Activation) (b : ConvBNBlock.t) :
  fresh_block i o a b ->
  nn.in_channels (ConvBNBlock.convolution1d b) = i /\
  nn.out_channels (ConvBNBlock.convolution1d b) = o /\
  nn.kernel_size (ConvBNBlock.convolution1d b) = 5 /\
  nn.padding (ConvBNBlock.convolution1d b) = 2 /\
  nn.num_features (ConvBNBlock.batch_normalization b) = o.
Proof.
  intros ((g & Hc) & Hn & _). rewrite Hc, Hn. unfold nn.Conv1d_new.
  destruct (functional.Conv1d_init i o 5 g). simpl. auto.
Qed.

Lemma fresh_block_fits (fits : Fits) (i o : Z) (a : nn.Activation)
      (b : ConvBNBlock.t) :
  Shapely fits -> 1 <= i -> 1 <= o ->
  fresh_block i o a b -> block_fits fits b.
Proof.
  intros HS Hi Ho ((g & Hc) & Hn & _). unfold block_fits.
  rewrite Hc, Hn. unfold nn.Conv1d_new.
  pose proof (conv_init_fits HS i o 5 g) as Hf.
  destruct (functional.Conv1d_init i o 5 g). simpl in *.
  repeat split; try lia; try assumption. apply (norm_init_fits HS).
Qed.

Lemma chained_app (a b c : Z) (l1 l2 : list ConvBNBlock.t) :
  chained a b l1 -> chained b c l2 -> chained a c (l1 ++ l2).
Proof.
  revert a. induction l1 as [|x l1 IH]; simpl; intros a H1 H2.
  - now subst.
  - destruct H1 as [Hx H1]. split; [exact Hx|]. now apply IH.
Qed.

Lemma chained_fresh (d : Z) (a : nn.Activation) (l : list ConvBNBlock.t) :
  Forall (fresh_block d d a) l -> chained d d l.
Proof.
  induction 1 as [|b l Hb _ IH]; simpl; [reflexivity|].
  destruct (fresh_block_channels Hb) as (Hi & Ho & _).
  rewrite Hi, Ho. now split.
Qed.

End Blocks.

(* ================================================================== *)
(** ** The post-net *)

Section PostnetFacts.
Context {SC : Scalar} {FN : functional.Functional}.

(** The loop of [Postnet.__init__] appends [n] blocks of 512 channels
    with Tanh. *)
Lemma append_inner_spec (n : nat) :
  forall acc g,
    exists l g',
      Postnet.append_inner n acc g = Built (acc ++ l, g') /\
      length l = n /\
      Forall (fresh_block 512 512 nn.Tanh) l.
Proof.
  induction n as [|n IH]; intros acc g; simpl.
  - exists [], g. rewrite app_nil_r. auto.
  - destruct (block_init_five 512 512 (Some "tanh"%string) g)
      as (b & -> & Hb).
    simpl bbind.
    destruct (IH (acc ++ [b]) (snd (functional.Conv1d_init 512 512 5 g)))
      as (l & g' & -> & Hl & Hf).
    exists (b :: l), g'. rewrite <- app_assoc. simpl.
    split; [reflexivity|]. split; [now rewrite Hl|]. now constructor.
Qed.

(** What [Postnet.__init__] builds. *)
Lemma postnet_init_spec (d n : Z) (g : functional.Gen) :
  exists first inner last g',
    Postnet.__init__ d n g
      = Built ({| Postnet.convolutions := first :: inner ++ [last] |}, g') /\
    fresh_block d 512 nn.Tanh first /\
    length inner = Z.to_nat (n - 2) /\
    Forall (fresh_block 512 512 nn.Tanh) inner /\
    fresh_block 512 d nn.Identity last.
Proof.
  unfold Postnet.__init__.
  destruct (block_init_five d 512 (Some "tanh"%string) g) as (b1 & -> & H1).
  simpl bbind.
  destruct (append_inner_spec (Z.to_nat (n - 1 - 1)) [b1]
              (snd (functional.Conv1d_init d 512 5 g)))
    as (l & g1 & -> & Hl & Hf).
  simpl bbind.
  destruct (block_init_five 512 d None g1) as (b2 & -> & H2).
  simpl bbind.
  exists b1, l, b2, (snd (functional.Conv1d_init 512 d 5 g1)).
  split; [reflexivity|]. split; [exact H1|].
  split; [rewrite Hl; f_equal; lia|]. split; assumption.
Qed.

Lemma postnet_row (d : Z) (first last : ConvBNBlock.t)
      (inner : list ConvBNBlock.t) :
  fresh_block d 512 nn.Tanh first ->
  Forall (fresh_block 512 512 nn.Tanh) inner ->
  fresh_block 512 d nn.Identity last ->
  chained d d (first :: inner ++ [last]).
Proof.
  intros H1 Hf H2.
  destruct (fresh_block_channels H1) as (Hi & Ho & _).
  destruct (fresh_block_channels H2) as (Hi' & Ho' & _).
  simpl. split; [exact Hi|]. rewrite Ho.
  apply chained_app with (b := 512);
    [exact (chained_fresh Hf)|].
  simpl. now rewrite Ho'.
Qed.

(** X13.  [Postnet(output_dim, num_convs)] builds a chain.  For
    [output_dim >= 1] and any [num_convs] it has [max(2, num_convs)]
    blocks, two even for [num_convs] below 2; the first takes
    [output_dim] channels, the last gives [output_dim] channels, each
    block in between takes the channels the one before it gives;
    every block has kernel size 5 and padding 2 and normalises its
    own output channels; every block but the last applies Tanh, the
    last nothing. *)
Theorem postnet_builds_a_chain (d n : Z) (g : functional.Gen) :
  1 <= d ->
  exists net g',
    Postnet.__init__ d n g = Built (net, g') /\
    Z.of_nat (length (Postnet.convolutions net)) = Z.max 2 n /\
    chained d d (Postnet.convolutions net) /\
    Forall (fun b =>
              1 <= nn.in_channels (ConvBNBlock.convolution1d b) /\
              1 <= nn.out_channels (ConvBNBlock.convolution1d b) /\
              nn.kernel_size (ConvBNBlock.convolution1d b) = 5 /\
              nn.padding (ConvBNBlock.convolution1d b) = 2 /\
              nn.num_features (ConvBNBlock.batch_normalization b)
                = nn.out_channels (ConvBNBlock.convolution1d b))
           (Postnet.convolutions net) /\
    map ConvBNBlock.activation (Postnet.convolutions net)
      = repeat nn.Tanh (Z.to_nat (Z.max 2 n) - 1) ++ [nn.Identity].
Proof.
  intros Hd.
  destruct (postnet_init_spec d n g)
    as (first & inner & last & g' & E & H1 & Hl & Hf & H2).
  exists {| Postnet.convolutions := first :: inner ++ [last] |}, g'.
  split; [exact E|]. cbn [Postnet.convolutions].
  split; [|split; [|split]].
  - cbn [length]. rewrite length_app, Hl. cbn [length]. lia.
  - now apply postnet_row.
  - assert (Hk : forall i o a b, 1 <= i -> 1 <= o -> fresh_block i o a b ->
                   1 <= nn.in_channels (ConvBNBlock.convolution1d b) /\
                   1 <= nn.out_channels (ConvBNBlock.convolution1d b) /\
                   nn.kernel_size (ConvBNBlock.convolution1d b) = 5 /\
                   nn.padding (ConvBNBlock.convolution1d b) = 2 /\
                   nn.num_features (ConvBNBlock.batch_normalization b)
                     = nn.out_channels (ConvBNBlock.convolution1d b)).
    { intros i o a b Hi1 Ho1 Hb.
      destruct (fresh_block_channels Hb) as (Hi & Ho & Hk & Hp & Hn).
      rewrite Hi, Ho. auto. }
    assert (H512 : 1 <= 512) by lia.
    constructor; [now apply (Hk _ _ _ _ Hd H512 H1)|].
    apply Forall_app. split.
    + eapply Forall_impl; [|exact Hf]. intros b Hb.
      now apply (Hk _ _ _ _ H512 H512 Hb).
    + constructor; [now apply (Hk _ _ _ _ H512 Hd H2)|constructor].
  - assert (Ha : forall i o a b, fresh_block i o a b ->
                   ConvBNBlock.activation b = a)
      by (intros i o a b (_ & _ & _ & Ha & _); exact Ha).
    replace (Z.to_nat (Z.max 2 n) - 1)%nat with (S (length inner)) by lia.
    cbn [map repeat app]. rewrite (Ha _ _ _ _ H1). f_equal.
    rewrite map_app. cbn [map]. rewrite (Ha _ _ _ _ H2). f_equal.
    clear Hl E. induction Hf as [|b l Hb _ IH]; [reflexivity|].
    cbn [map length repeat app]. now rewrite (Ha _ _ _ _ Hb), IH.
Qed.

End PostnetFacts.

(* ================================================================== *)
(** ** Shapes through the convolution blocks *)

Section BlockShapes.
Context {SC : Scalar} {FN : functional.Functional}.
Variable fits : Fits.
Hypothesis HS : Shapely fits.

(** An elementwise function keeps the shape. *)
Lemma tmap_shape (f : F -> F) (t : tensor) (s : list nat) :
  has_shape t s -> has_shape (tmap f t) s.
Proof.
  destruct t as [v|m|c]; destruct s as [|a [|b [|k [|? ?]]]]; simpl;
    try contradiction.
  - now rewrite length_map.
  - intros [Hl Hr]. split; [now rewrite length_map|].
    apply Forall_forall. intros r Hin. apply in_map_iff in Hin.
    destruct Hin as (r0 & <- & Hin). rewrite length_map.
    rewrite Forall_forall in Hr. now apply Hr.
  - intros [Hl Hc]. split; [now rewrite length_map|].
    apply Forall_forall. intros m Hin. apply in_map_iff in Hin.
    destruct Hin as (m0 & <- & Hin). rewrite Forall_forall in Hc.
    destruct (Hc m0 Hin) as [Hm Hr]. split; [now rewrite length_map|].
    apply Forall_forall. intros r Hr'. apply in_map_iff in Hr'.
    destruct Hr' as (r0 & <- & Hr'). rewrite length_map.
    rewrite Forall_forall in Hr. now apply Hr.
Qed.

Lemma activation_shape (a : nn.Activation) (t : tensor) (s : list nat) :
  has_shape t s -> has_shape (nn.Activation_call a t) s.
Proof. destruct a; simpl; auto using tmap_shape. Qed.

(** A fitting block maps (B, in_channels, L) to (B, out_channels, L)
    and still fits. *)
Lemma block_forward_shape (b : ConvBNBlock.t) (x : tensor)
      (g : functional.Gen) (B L : nat) :
  block_fits fits b -> (1 <= B)%nat -> (2 <= B * L)%nat ->
  has_shape x [B; Z.to_nat (nn.in_channels (ConvBNBlock.convolution1d b)); L] ->
  exists y b' g',
    ConvBNBlock.forward b x g = Ok (y, b', g') /\
    has_shape y
      [B; Z.to_nat (nn.out_channels (ConvBNBlock.convolution1d b)); L] /\
    block_fits fits b' /\
    ConvBNBlock.convolution1d b' = ConvBNBlock.convolution1d b.
Proof.
  intros (Hc & Hn & Hno & Hp & Hp0 & Hi & Ho) HB HBL Hx.
  assert (HL : (1 <= L)%nat) by nia.
  unfold ConvBNBlock.forward, nn.Conv1d_call, nn.BatchNorm1d_call.
  assert (Hk : 1 <= nn.kernel_size (ConvBNBlock.convolution1d b)) by lia.
  assert (Hlen : 1 <= Z.of_nat L
                      + 2 * nn.padding (ConvBNBlock.convolution1d b)
                      - (nn.kernel_size (ConvBNBlock.convolution1d b) - 1))
    by lia.
  destruct (conv1d_shape HS Hc Hi Ho Hk Hp0 HB Hlen Hx) as (y1 & -> & Hy1).
  replace (Z.to_nat
             (Z.of_nat L + 2 * nn.padding (ConvBNBlock.convolution1d b)
              - (nn.kernel_size (ConvBNBlock.convolution1d b) - 1)))
    with L in Hy1 by lia.
  cbn [rbind]. rewrite <- Hno in Hy1.
  assert (Hn1 : 1 <= nn.num_features (ConvBNBlock.batch_normalization b))
    by lia.
  destruct (batch_norm_shape HS (ConvBNBlock.training b)
              (nn.momentum (ConvBNBlock.batch_normalization b))
              (nn.eps (ConvBNBlock.batch_normalization b))
              Hn Hn1 HBL Hy1) as (y2 & s' & -> & Hy2 & Hs').
  cbn [rbind fst snd].
  pose proof (dropout_shape HS
                (nn.p (ConvBNBlock.dropout b)) (ConvBNBlock.training b) g
                (activation_shape (ConvBNBlock.activation b) Hy2)) as Hd.
  unfold nn.Dropout_call.
  destruct (functional.dropout _ _ _ _) as [y3 g'].
  cbn [fst] in Hd. rewrite Hno in Hd.
  do 3 eexists. split; [reflexivity|]. split; [exact Hd|].
  split; [|reflexivity].
  unfold block_fits. cbn. repeat split; assumption.
Qed.

(** A row of fitting blocks from [d_in] to [d_out] channels keeps the
    batch and the length. *)
Lemma through_shape (l : list ConvBNBlock.t) :
  forall (d_in d_out : Z) (x : tensor) (g : functional.Gen) (B L : nat),
    row_fits fits d_in d_out l -> (1 <= B)%nat -> (2 <= B * L)%nat ->
    has_shape x [B; Z.to_nat d_in; L] ->
    exists y l' g',
      ConvBNBlock.through l x g = Ok (y, l', g') /\
      has_shape y [B; Z.to_nat d_out; L] /\
      row_fits fits d_in d_out l'.
Proof.
  induction l as [|b l IH]; intros d_in d_out x g B L [Hf Hc] HB HBL Hx.
  - simpl in Hc. subst d_out. exists x, [], g.
    split; [reflexivity|]. split; [exact Hx|]. split; [constructor|reflexivity].
  - inversion Hf as [|? ? Hb Hl]; subst. destruct Hc as [Hin Hc].
    rewrite <- Hin in Hx.
    destruct (block_forward_shape g Hb HB HBL Hx)
      as (y1 & b' & g1 & E1 & Hy1 & Hb' & Hconv).
    destruct (IH _ _ y1 g1 B L (conj Hl Hc) HB HBL Hy1)
      as (y2 & l' & g2 & E2 & Hy2 & Hl' & Hc').
    exists y2, (b' :: l'), g2. cbn [ConvBNBlock.through].
    rewrite E1. cbn [rbind fst snd]. rewrite E2. cbn [rbind fst snd].
    split; [reflexivity|]. split; [exact Hy2|]. split.
    + now constructor.
    + simpl. rewrite Hconv. now split.
Qed.

(** X14.  The post-net keeps the shape of its input.  Under the
    shape contract of the layers of [torch.nn], a [Postnet] built for
    [output_dim >= 1] channels, whatever [num_convs], maps a batch of
    shape (B, output_dim, L) holding more than one value per channel
    to the same shape, on its first call and on every later one: the
    padding of each block makes up for its kernel, and each block
    takes the channels the one before it gives. *)
Theorem postnet_forward_keeps_shape (d n : Z) (g : functional.Gen) :
  1 <= d ->
  exists net g',
    Postnet.__init__ d n g = Built (net, g') /\
    row_fits fits d d (Postnet.convolutions net) /\
    forall net0 x g0 (B L : nat),
      row_fits fits d d (Postnet.convolutions net0) ->
      (1 <= B)%nat -> (2 <= B * L)%nat ->
      has_shape x [B; Z.to_nat d; L] ->
      exists y net1 g1,
        Postnet.forward net0 x g0 = Ok (y, net1, g1) /\
        has_shape y [B; Z.to_nat d; L] /\
        row_fits fits d d (Postnet.convolutions net1).
Proof.
  intros Hd.
  destruct (postnet_init_spec d n g)
    as (first & inner & last & g' & E & H1 & Hl & Hf & H2).
  exists {| Postnet.convolutions := first :: inner ++ [last] |}, g'.
  split; [exact E|]. split.
  - split; [|now apply postnet_row]. cbn [Postnet.convolutions].
    assert (H512 : 1 <= 512) by lia.
    constructor; [apply (fresh_block_fits HS Hd H512 H1)|].
    apply Forall_app. split.
    + eapply Forall_impl; [|exact Hf]. intros b Hb.
      apply (fresh_block_fits HS H512 H512 Hb).
    + constructor; [|constructor].
      apply (fresh_block_fits HS H512 Hd H2).
  - intros net0 x g0 B L Hrow HB HBL Hx.
    destruct (through_shape g0 Hrow HB HBL Hx)
      as (y & l' & g1 & Et & Hy & Hrow').
    exists y, {| Postnet.convolutions := l' |}, g1.
    unfold Postnet.forward. rewrite Et. cbn [rbind fst snd].
    split; [reflexivity|]. split; assumption.
Qed.

(** The loop of [Encoder.__init__] appends [n] blocks of [d] channels
    with ReLU. *)
Lemma append_blocks_spec (d : Z) (n : nat) :
  forall acc g,
    exists l g',
      Encoder.append_blocks d n acc g = Built (acc ++ l, g') /\
      length l = n /\
      Forall (fresh_block d d nn.ReLU) l.
Proof.
  induction n as [|n IH]; intros acc g; simpl.
  - exists [], g. rewrite app_nil_r. auto.
  - destruct (block_init_five d d (Some "relu"%string) g) as (b & -> & Hb).
    simpl bbind.
    destruct (IH (acc ++ [b]) (snd (functional.Conv1d_init d d 5 g)))
      as (l & g' & -> & Hl & Hf).
    exists (b :: l), g'. rewrite <- app_assoc. simpl.
    split; [reflexivity|]. split; [now rewrite Hl|]. now constructor.
Qed.

(** What [Encoder.__init__] builds. *)
Lemma encoder_init_spec (d : Z) (g : functional.Gen) :
  exists l rnn g',
    Encoder.__init__ d g
      = Built ({| Encoder.convolutions := l; Encoder.lstm := rnn;
                  Encoder.rnn_state := None |}, g') /\
    length l = 3%nat /\
    Forall (fresh_block d d nn.ReLU) l /\
    (exists g0, rnn = fst (nn.LSTM_new d (int_half d) 1 true true true g0)).
Proof.
  unfold Encoder.__init__.
  destruct (append_blocks_spec d 3 [] g) as (l & g1 & -> & Hl & Hf).
  cbn [bbind app fst snd].
  destruct (nn.LSTM_new d (int_half d) 1 true true true g1)
    as [rnn g2] eqn:E.
  exists l, rnn, g2. split; [reflexivity|]. split; [exact Hl|].
  split; [exact Hf|]. exists g1. now rewrite E.
Qed.

(** X15.  What [Encoder(output_input_dim)] builds, for a width from
    2 to 2^53, where the halved width is at least 1 and the quotient
    is exact.  Three blocks of [output_input_dim] channels in and out,
    kernel size 5, padding 2 and ReLU, then a one-layer batch-first
    bidirectional LSTM of hidden size [int(output_input_dim / 2)] per
    direction; no recurrent state is kept.  The two directions
    together give [output_input_dim] features when that is even and
    one feature fewer when it is odd. *)
Theorem encoder_halves_its_width (d : Z) (g : functional.Gen) :
  2 <= d <= 2 ^ 53 ->
  exists enc g',
    Encoder.__init__ d g = Built (enc, g') /\
    length (Encoder.convolutions enc) = 3%nat /\
    chained d d (Encoder.convolutions enc) /\
    Forall (fun b =>
              nn.kernel_size (ConvBNBlock.convolution1d b) = 5 /\
              nn.padding (ConvBNBlock.convolution1d b) = 2 /\
              ConvBNBlock.activation b = nn.ReLU)
           (Encoder.convolutions enc) /\
    nn.input_size (Encoder.lstm enc) = d /\
    nn.hidden_size (Encoder.lstm enc) = int_half d /\
    1 <= nn.hidden_size (Encoder.lstm enc) /\
    nn.num_layers (Encoder.lstm enc) = 1 /\
    nn.batch_first (Encoder.lstm enc) = true /\
    nn.bidirectional (Encoder.lstm enc) = true /\
    Encoder.rnn_state enc = None /\
    2 * nn.hidden_size (Encoder.lstm enc) = d - d mod 2.
Proof.
  intros Hd.
  destruct (encoder_init_spec d g) as (l & rnn & g' & E & Hl & Hf & g0 & Hr).
  eexists. exists g'. split; [exact E|]. cbn [Encoder.convolutions
    Encoder.lstm Encoder.rnn_state].
  assert (Hrnn : nn.input_size rnn = d /\ nn.hidden_size rnn = int_half d /\
                 nn.num_layers rnn = 1 /\ nn.batch_first rnn = true /\
                 nn.bidirectional rnn = true).
  { rewrite Hr. unfold nn.LSTM_new.
    destruct (functional.LSTM_init d (int_half d) 1 true true g0).
    simpl. auto. }
  destruct Hrnn as (R1 & R2 & R3 & R4 & R5).
  assert (Hhalf : 2 * int_half d = d - d mod 2).
  { unfold int_half. rewrite Z.quot_div_nonneg by lia.
    pose proof (Z.div_mod d 2). lia. }
  assert (Hh1 : 1 <= int_half d).
  { pose proof (Z.mod_pos_bound d 2). lia. }
  split; [exact Hl|]. split; [exact (chained_fresh Hf)|]. split.
  - eapply Forall_impl; [|exact Hf]. intros b Hb.
    destruct (fresh_block_channels Hb) as (_ & _ & Hk & Hp & _).
    destruct Hb as (_ & _ & _ & Ha & _). auto.
  - split; [exact R1|]. split; [exact R2|]. rewrite R2.
    split; [exact Hh1|]. repeat (split; [assumption|]).
    split; [reflexivity|exact Hhalf].
Qed.

Lemma encoder_init_fits (d : Z) (g : functional.Gen) :
  1 <= d ->
  exists enc g',
    Encoder.__init__ d g = Built (enc, g') /\ encoder_fits fits d enc.
Proof.
  intros Hd.
  destruct (encoder_init_spec d g) as (l & rnn & g' & E & Hl & Hf & g0 & Hr).
  eexists. exists g'. split; [exact E|].
  unfold encoder_fits. cbn [Encoder.convolutions Encoder.lstm].
  split.
  - split; [|exact (chained_fresh Hf)].
    eapply Forall_impl; [|exact Hf]. intros b Hb.
    apply (fresh_block_fits HS Hd Hd Hb).
  - rewrite Hr. unfold nn.LSTM_new.
    pose proof (lstm_init_fits HS d (int_half d) g0) as Hfit.
    destruct (functional.LSTM_init d (int_half d) 1 true true g0).
    simpl in *. auto.
Qed.

(** X16.  The encoder's inference path puts time before features and
    gives twice the hidden size.  Under the shape contract of the
    layers, an [Encoder] built for [d] channels, [d] from 2 to 2^53,
    maps a batch of shape (B, d, L) holding more than one value per
    channel to shape (B, L, 2 * int(d / 2)): the [d] features of its
    input for an even [d], one fewer for an odd [d]. *)
Theorem encoder_inference_shape (d : Z) (g : functional.Gen) :
  2 <= d <= 2 ^ 53 ->
  exists enc g',
    Encoder.__init__ d g = Built (enc, g') /\
    encoder_fits fits d enc /\
    forall enc0 x g0 (B L : nat),
      encoder_fits fits d enc0 ->
      (1 <= B)%nat -> (2 <= B * L)%nat ->
      has_shape x [B; Z.to_nat d; L] ->
      exists y enc1 g1,
        Encoder.inference enc0 x g0 = Ok (y, enc1, g1) /\
        has_shape y [B; L; Z.to_nat (d - d mod 2)] /\
        encoder_fits fits d enc1.
Proof.
  intros [Hd Hdmax].
  assert (Hd1 : 1 <= d) by lia.
  destruct (encoder_init_fits g Hd1) as (enc & g' & E & Hfit).
  exists enc, g'. split; [exact E|]. split; [exact Hfit|].
  intros enc0 x g0 B L (Hrow & Hin & Hh & Hbf & Hl) HB HBL Hx.
  assert (HL : (1 <= L)%nat) by nia.
  destruct (through_shape g0 Hrow HB HBL Hx)
    as (y & l' & g1 & Et & Hy & Hrow').
  unfold Encoder.inference. rewrite Et. cbn [rbind fst snd].
  destruct y as [| |c]; simpl in Hy; try contradiction.
  assert (Hc : cube B (Z.to_nat d) L c) by exact Hy.
  assert (Hdn : (1 <= Z.to_nat d)%nat) by lia.
  destruct (transpose12_cube Hdn Hc) as [-> Hc'].
  cbn [rbind]. unfold nn.LSTM_call. rewrite Hbf.
  assert (Hhalf : 2 * int_half d = d - d mod 2).
  { unfold int_half. rewrite Z.quot_div_nonneg by lia.
    pose proof (Z.div_mod d 2). lia. }
  assert (Hh1 : 1 <= int_half d).
  { pose proof (Z.mod_pos_bound d 2). lia. }
  destruct (lstm_shape HS (x := T3 (map (@transpose F) c))
              Hl Hd1 Hh1 HB HL Hc') as (o & st & -> & Ho).
  cbn [rbind fst snd]. rewrite Hhalf in Ho.
  do 3 eexists. split; [reflexivity|]. split; [exact Ho|].
  unfold encoder_fits. cbn [Encoder.convolutions Encoder.lstm].
  auto.
Qed.

End BlockShapes.

(* ================================================================== *)
(** ** The small layers meet the contract *)

Lemma toy_shapely : @Shapely Toy.scalar ToyBlocks.layers ToyBlocks.fits.
Proof.
  constructor.
  - reflexivity.
  - intros i o k ps p x B L Hps Hi Ho Hk Hp HB HL Hx.
    simpl in Hps. subst ps.
    destruct x as [| |c]; simpl in Hx; try contradiction.
    destruct Hx as [Hlen Hc]. simpl. eexists. split; [reflexivity|].
    simpl. split; [now rewrite length_map|].
    apply Forall_forall. intros m Hm. apply in_map_iff in Hm.
    destruct Hm as (m0 & <- & Hm0). rewrite Forall_forall in Hc.
    destruct (Hc m0 Hm0) as [Hrows Hcols].
    assert (Hw : width m0 = L).
    { apply (@width_rows _ (Z.to_nat i) L m0); [lia|assumption|assumption]. }
    rewrite Hw. split; [apply repeat_length|].
    apply Forall_forall. intros r Hr. apply repeat_spec in Hr. subst r.
    apply repeat_length.
  - exact (fun _ => I).
  - intros n s tr m e x B L _ _ _ Hx. exists x, s. simpl. auto.
  - intros x p tr g s Hx. exact Hx.
  - reflexivity.
  - intros i h ps x B L Hps Hi Hh HB HL Hx. simpl in Hps. subst ps.
    destruct x as [| |c]; simpl in Hx; try contradiction.
    destruct Hx as [Hlen Hc]. simpl. do 2 eexists. split; [reflexivity|].
    simpl. split; [now rewrite length_map|].
    apply Forall_forall. intros m Hm. apply in_map_iff in Hm.
    destruct Hm as (m0 & <- & Hm0). rewrite Forall_forall in Hc.
    destruct (Hc m0 Hm0) as [Hrows Hcols].
    split; [now rewrite length_map|].
    apply Forall_forall. intros r Hr. apply in_map_iff in Hr.
    destruct Hr as (r0 & <- & _). apply repeat_length.
Qed.

(** A post-net of five blocks over two channels, on one sequence of
    length four. *)
Lemma postnet_forward_keeps_shape_witness :
  exists net g' y net1 g1,
    @Postnet.__init__ Toy.scalar ToyBlocks.layers 2 5 O = Built (net, g') /\
    Postnet.forward net (ToyBlocks.signal 1 2 4) O = Ok (y, net1, g1) /\
    has_shape y [1; 2; 4]%nat.
Proof.
  destruct (@postnet_forward_keeps_shape Toy.scalar ToyBlocks.layers
              ToyBlocks.fits toy_shapely 2 5 O)
    as (net & g' & E & Hrow & Hfw); [lia|].
  destruct (Hfw net (ToyBlocks.signal 1 2 4) O 1%nat 4%nat Hrow)
    as (y & net1 & g1 & Ef & Hy & _).
  - lia.
  - lia.
  - simpl. repeat constructor.
  - exists net, g', y, net1, g1. auto.
Defined.

(** An encoder over three channels, on one sequence of length four:
    two features come out. *)
Lemma encoder_inference_shape_witness :
  exists enc g' y enc1 g1,
    @Encoder.__init__ Toy.scalar ToyBlocks.layers 3 O = Built (enc, g') /\
    Encoder.inference enc (ToyBlocks.signal 1 3 4) O = Ok (y, enc1, g1) /\
    has_shape y [1; 4; 2]%nat.
Proof.
  destruct (@encoder_inference_shape Toy.scalar ToyBlocks.layers
              ToyBlocks.fits toy_shapely 3 O)
    as (enc & g' & E & Hfit & Hinf); [lia|].
  destruct (Hinf enc (ToyBlocks.signal 1 3 4) O 1%nat 4%nat Hfit)
    as (y & enc1 & g1 & Ef & Hy & _).
  - lia.
  - lia.
  - simpl. repeat constructor.
  - exists enc, g', y, enc1, g1. auto.
Defined.

(** A kernel of four is refused; a kernel of five on two channels in
    and three out is padded by two. *)
Lemma convbn_block_asserts_odd_kernel_witness :
  @ConvBNBlock.__init__ Toy.scalar ToyBlocks.layers 2 3 4
    (Some "relu"%string) O = AssertionError /\
  exists b g',
    @ConvBNBlock.__init__ Toy.scalar ToyBlocks.layers 2 3 5
      (Some "relu"%string) O = Built (b, g') /\
    nn.padding (ConvBNBlock.convolution1d b) = 2 /\
    nn.num_features (ConvBNBlock.batch_normalization b) = 3 /\
    ConvBNBlock.activation b = nn.ReLU.
Proof.
  split.
  - apply (proj1 (@convbn_block_asserts_odd_kernel Toy.scalar
                    ToyBlocks.layers 2 3 4 (Some "relu"%string) O)).
    reflexivity.
  - destruct (proj2 (@convbn_block_asserts_odd_kernel Toy.scalar
                       ToyBlocks.layers 2 3 5 (Some "relu"%string) O))
      as (b & g' & E & _ & _ & _ & _ & Hp & _ & Hn & Ha);
      [reflexivity|lia|lia|lia|].
    exists b, g'. split; [exact E|]. split; [lia|]. split; assumption.
Defined.

(** A post-net of five blocks over two channels, and one asked for
    a single block, which has two. *)
Lemma postnet_builds_a_chain_witness :
  (exists net g',
     @Postnet.__init__ Toy.scalar ToyBlocks.layers 2 5 O = Built (net, g') /\
     length (Postnet.convolutions net) = 5%nat /\
     map ConvBNBlock.activation (Postnet.convolutions net)
       = [nn.Tanh; nn.Tanh; nn.Tanh; nn.Tanh; nn.Identity]) /\
  (exists net g',
     @Postnet.__init__ Toy.scalar ToyBlocks.layers 2 1 O = Built (net, g') /\
     length (Postnet.convolutions net) = 2%nat /\
     map ConvBNBlock.activation (Postnet.convolutions net)
       = [nn.Tanh; nn.Identity]).
Proof.
  split.
  - destruct (@postnet_builds_a_chain Toy.scalar ToyBlocks.layers 2 5 O)
      as (net & g' & E & Hl & _ & _ & Ha); [lia|].
    exists net, g'. split; [exact E|]. split; [lia|exact Ha].
  - destruct (@postnet_builds_a_chain Toy.scalar ToyBlocks.layers 2 1 O)
      as (net & g' & E & Hl & _ & _ & Ha); [lia|].
    exists net, g'. split; [exact E|]. split; [lia|exact Ha].
Defined.

(** An encoder over five channels: the LSTM has two hidden units per
    direction, four features in all. *)
Lemma encoder_halves_its_width_witness :
  exists enc g',
    @Encoder.__init__ Toy.scalar ToyBlocks.layers 5 O = Built (enc, g') /\
    length (Encoder.convolutions enc) = 3%nat /\
    nn.hidden_size (Encoder.lstm enc) = 2 /\
    2 * nn.hidden_size (Encoder.lstm enc) = 4.
Proof.
  destruct (@encoder_halves_its_width Toy.scalar ToyBlocks.layers 5 O)
    as (enc & g' & E & Hl & _ & _ & _ & Hh & _ & _ & _ & _ & _ & H2);
    [lia|].
  exists enc, g'. split; [exact E|]. split; [exact Hl|].
  split; [exact Hh|exact H2].
Defined.

(* ================================================================== *)
(** ** What free-running inference returns *)

Section FreeShapes.
Context {SC : Scalar} {MD : Modules}.
Hypothesis HB : Batched 1.
Variables (fd rr n : nat) (x : tensor).

(** A loop of [inference] that returns has collected well-shaped
    steps. *)
Lemma inference_loop_shaped (e : option tensor) :
  forall fuel l w l' w',
    suited fd rr n x w -> ready 1 w -> inputs (self w) = Some x ->
    rows 1 (memory l) -> embedding_ok e ->
    shaped (fd * rr) n (collected l) ->
    inference_loop fuel x e l w = Ok (l', w') ->
    shaped (fd * rr) n (collected l') /\
    (1 <= length (outputs (collected l')))%nat /\
    fixed w' = fixed w.
Proof.
  induction fuel as [|fuel IH];
    intros l w l' w' Hsuit Hready Hin Hmem He Hsh H; [discriminate|].
  simpl in H.
  destruct (inference_body_runs HB Hsuit Hready Hin Hmem He Hsh)
    as (c & l1 & w1 & Eb & Hlen & Hsh1 & Hc).
  rewrite (bind_step _ Eb) in H.
  pose proof (keeps_fixed_inference_body Eb) as Hfix.
  destruct c.
  - injection H as <- <-. split; [exact Hsh1|]. split; [lia|exact Hfix].
  - injection H as <- <-. split; [exact Hsh1|]. split; [lia|exact Hfix].
  - destruct Hc as (_ & Hr1 & Hin1 & Hmem1 & _).
    destruct (IH _ _ _ _ (suited_fixed Hfix Hsuit) Hr1 Hin1 Hmem1 He Hsh1 H)
      as (I1 & I2 & I3).
    split; [exact I1|]. split; [exact I2|]. congruence.
Qed.

Lemma inference_truncated_loop_shaped :
  forall fuel acc t w acc' t' w',
    suited fd rr n x w -> ready 1 w -> inputs (self w) = Some x ->
    set_rows 1 (memory_truncated (self w)) ->
    shaped (fd * rr) n acc ->
    inference_truncated_loop fuel acc t w = Ok ((acc', t'), w') ->
    shaped (fd * rr) n acc' /\
    (1 <= length (outputs acc'))%nat /\
    fixed w' = fixed w.
Proof.
  induction fuel as [|fuel IH];
    intros acc t w acc' t' w' Hsuit Hready Hin Hmem Hsh H; [discriminate|].
  simpl in H.
  destruct (inference_truncated_body_runs HB t Hsuit Hready Hin Hmem Hsh)
    as (c & acc1 & t1 & w1 & Eb & Hlen & Hsh1 & Hc).
  rewrite (bind_step _ Eb) in H.
  pose proof (keeps_fixed_inference_truncated_body Eb) as Hfix.
  destruct c.
  - injection H as <- <- <-. split; [exact Hsh1|]. split; [lia|exact Hfix].
  - injection H as <- <- <-. split; [exact Hsh1|]. split; [lia|exact Hfix].
  - destruct Hc as (_ & Hr1 & Hin1 & Hmem1 & _).
    destruct (IH _ _ _ _ _ _ (suited_fixed Hfix Hsuit) Hr1 Hin1 Hmem1 Hsh1 H)
      as (I1 & I2 & I3).
    split; [exact I1|]. split; [exact I2|]. congruence.
Qed.

(** [_parse_outputs] on what an inference loop has collected, with
    the shapes it gives. *)
Lemma parse_collected_shapes (T : nat) (acc : Collected) (w : World) :
  shaped (fd * rr) n acc -> length (outputs acc) = T ->
  (1 <= T)%nat -> (1 <= fd)%nat -> (1 <= rr)%nat ->
  frame_dim (self w) = Z.of_nat fd ->
  exists o s a,
    _parse_outputs (outputs acc) (stop_tokens acc) (alignments acc) w
      = Ok ((o, s, a), w) /\
    has_shape o [1%nat; fd; (T * rr)%nat] /\
    has_shape s [1%nat; T; 1%nat] /\
    has_shape a [1%nat; T; n].
Proof.
  intros (Ho & Hs & Ha & Ls & La) HT H1 Hfd Hrr Hframe.
  rewrite HT in Ls, La.
  destruct (stack_transpose_matrices H1 (le_n 1) La Ha) as (ca & Ea & Hca).
  destruct (stack_transpose_matrices H1 (le_n 1) Ls Hs) as (cs & Es & Hcs).
  assert (Hout : exists t, rbind (stack (outputs acc)) transpose01 = Ok t /\
                           size 0 t = Ok 1 /\
                           numel t = (1 * (T * rr * fd))%nat).
  { unfold squeezed in Ho.
    destruct (Nat.eqb_spec (fd * rr) 1) as [E1|E1].
    - destruct (stack_transpose_vectors H1 HT Ho) as (m & Eo & Hm & Hr).
      exists (T2 m). split; [exact Eo|]. unfold size. simpl nth_error.
      rewrite Hm. split; [reflexivity|].
      apply Nat.eq_mul_1 in E1. destruct E1 as [-> ->].
      unfold numel. simpl flatten. rewrite (concat_length_rows Hm Hr). lia.
    - destruct (stack_transpose_matrices H1 (le_n 1) HT Ho)
        as (co & Eo & Hc).
      exists (T3 co). split; [exact Eo|]. unfold size. simpl nth_error.
      destruct Hc as [Hl Hc]. rewrite Hl. split; [reflexivity|].
      unfold numel. simpl flatten. rewrite (cube_numel (conj Hl Hc)). lia. }
  destruct Hout as (t & Eo & Esz & Hnum).
  destruct (view_mid_cube (n:=T * rr) (le_n 1) Hfd Hnum) as (c' & Ev & Hc').
  assert (HTr : (1 <= T * rr)%nat) by nia.
  destruct (transpose12_cube HTr Hc') as [Et Hc''].
  exists (T3 (map (@transpose F) c')), (T3 cs), (T3 ca).
  split; [|split; [exact Hc''|split; [exact Hcs|exact Hca]]].
  unfold _parse_outputs, bind, lift, get, ret.
  rewrite Ea, Es, Eo, Esz, Hframe. change (Z.of_nat 1) with 1 in Ev.
  rewrite Ev, Et. reflexivity.
Qed.

End FreeShapes.

(** X17.  What free-running inference returns.  On one sequence, with
    layers that keep the batch, a projection of at least
    [frame_dim * r] columns, one stop-logit and attention weights
    over [L] encoder positions, a call of [inference] or
    [inference_truncated] whose loop returns after [T] decode steps
    returns outputs of shape (1, frame_dim, T * r), alignments of
    shape (1, T, L) and stop tokens of shape (1, T, 1), in this
    order, with [T >= 1]. *)
Theorem inference_output_shapes
  {SC : Scalar} {MD : Modules}
  (fd rr L : nat) (x : tensor) (e : option tensor) (w : World) (fuel : nat) :
  Batched 1 -> suited fd rr L x w -> (1 <= fd)%nat -> (1 <= rr)%nat ->
  batch 1 x -> embedding_ok e ->
  (extents_ok w ->
   forall l w1,
     inference_run fuel x e w = Ok (l, w1) ->
     exists o a s,
       inference fuel x e w = Ok ((o, a, s), w1) /\
       (1 <= length (outputs (collected l)))%nat /\
       has_shape o [1%nat; fd; (length (outputs (collected l)) * rr)%nat] /\
       has_shape a [1%nat; length (outputs (collected l)); L] /\
       has_shape s [1%nat; length (outputs (collected l)); 1%nat]) /\
  (startable w ->
   forall acc w1,
     inference_truncated_run fuel x w = Ok (acc, w1) ->
     exists o a s,
       inference_truncated fuel x w = Ok ((o, a, s), w1) /\
       (1 <= length (outputs acc))%nat /\
       has_shape o [1%nat; fd; (length (outputs acc) * rr)%nat] /\
       has_shape a [1%nat; length (outputs acc); L] /\
       has_shape s [1%nat; length (outputs acc); 1%nat]).
Proof.
  intros HB Hsuit Hfd Hrr Hx He. pose proof Hsuit as (Hframe & _). split.
  - intros Hext l w1 Hrun.
    destruct (inference_setup_runs Hext Hx)
      as (l0 & w0 & Es & Hready & Hin & Hmem & Hc0 & Hfix0 & _).
    unfold inference_run in Hrun. rewrite (bind_step _ Es) in Hrun.
    assert (Hsh0 : shaped (fd * rr) L (collected l0))
      by (rewrite Hc0; apply shaped_nothing).
    destruct (inference_loop_shaped HB (suited_fixed Hfix0 Hsuit) Hready Hin
                Hmem He Hsh0 Hrun) as (Hsh & Hlen & Hfix).
    assert (Hframe1 : frame_dim (self w1) = Z.of_nat fd).
    { apply (suited_fixed (w1:=w1)) in Hsuit; [apply Hsuit|congruence]. }
    destruct (parse_collected_shapes Hsh eq_refl Hlen Hfd Hrr Hframe1)
      as (o & s & a & Ep & Ho & Hs & Ha).
    exists o, a, s. split; [|auto].
    unfold inference. unfold bind at 1. unfold inference_run.
    rewrite (bind_step _ Es), Hrun. cbv beta iota zeta.
    unfold bind at 1. rewrite Ep. reflexivity.
  - intros Hstart acc w1 Hrun.
    destruct (inference_truncated_entry_runs Hstart Hx)
      as (w0 & Es & Hready & Hin & Hmem & Hfix0 & _).
    unfold inference_truncated_run in Hrun.
    rewrite (bind_step _ Es) in Hrun. apply bind_Ok in Hrun.
    destruct Hrun as ([acc1 t1] & w2 & El & Hret).
    injection Hret as <- <-.
    destruct (inference_truncated_loop_shaped HB (suited_fixed Hfix0 Hsuit)
                Hready Hin Hmem (shaped_nothing (fd * rr) L) El)
      as (Hsh & Hlen & Hfix).
    assert (Hframe1 : frame_dim (self w2) = Z.of_nat fd).
    { apply (suited_fixed (w1:=w2)) in Hsuit; [apply Hsuit|congruence]. }
    destruct (parse_collected_shapes Hsh eq_refl Hlen Hfd Hrr Hframe1)
      as (o & s & a & Ep & Ho & Hs & Ha).
    exists o, a, s. split; [|auto].
    unfold inference_truncated. unfold bind at 1.
    unfold inference_truncated_run.
    rewrite (bind_step _ Es). unfold bind at 1. rewrite El.
    cbv beta iota zeta. unfold ret at 1. cbv beta iota.
    unfold bind at 1. rewrite Ep. reflexivity.
Qed.

(** A run of two steps on one sequence of three positions, ended by
    the gate (stop-logit 20). *)
Lemma inference_output_shapes_witness :
  exists o a s w1,
    @inference Toy.scalar (Toy.modules 20) 2 (Toy.encoded 1 3) None
      (Toy.world 20) = Ok ((o, a, s), w1) /\
    has_shape o [1; 2; 2 * 2]%nat /\
    has_shape a [1; 2; 3]%nat /\
    has_shape s [1; 2; 1]%nat.
Proof.
  assert (V : match @inference_run Toy.scalar (Toy.modules 20) 2
                      (Toy.encoded 1 3) None (Toy.world 20) with
              | Ok (l, _) => length (outputs (collected l)) = 2%nat
              | Raise _ => False
              end) by (vm_compute; reflexivity).
  destruct (@inference_run Toy.scalar (Toy.modules 20) 2 (Toy.encoded 1 3)
              None (Toy.world 20)) as [[l w1]|ex] eqn:E; [|contradiction].
  assert (G : forall x w fuel l w1,
             x = Toy.encoded 1 3 -> w = Toy.world 20 ->
             @inference_run Toy.scalar (Toy.modules 20) fuel x None w
               = Ok (l, w1) ->
             exists o a s,
               inference fuel x None w = Ok ((o, a, s), w1) /\
               (1 <= length (outputs (collected l)))%nat /\
               has_shape o [1%nat; 2%nat;
                            (length (outputs (collected l)) * 2)%nat] /\
               has_shape a [1%nat; length (outputs (collected l)); 3%nat] /\
               has_shape s [1%nat; length (outputs (collected l)); 1%nat]).
  { intros x w fuel l0 w0 -> -> Hrun.
    refine (proj1 (@inference_output_shapes Toy.scalar (Toy.modules 20)
                     2 2 3 (Toy.encoded 1 3) None (Toy.world 20) fuel
                     _ _ _ _ _ _) _ l0 w0 Hrun).
    - apply toy_batched.
    - apply toy_suited.
    - lia.
    - lia.
    - reflexivity.
    - exact I.
    - unfold extents_ok. simpl. lia. }
  destruct (G _ _ _ _ _ eq_refl eq_refl E) as (o & a & s & Ei & _ & Ho & Ha & Hs).
  rewrite V in Ho, Ha, Hs.
  exists o, a, s, w1. auto.
Defined.

(* ================================================================== *)
(** ** The attention state at the start of a run *)

Section AttentionStart.
Context {SC : Scalar} {MD : Modules}.

Local Ltac side := intros; reflexivity.

Local Ltac keep_attention H :=
  repeat lazymatch type of H with
         | bind (get attention) _ _ = Ok _ => fail
         | bind ?m _ ?w0 = Ok _ =>
             let a := fresh "a" in
             let w1 := fresh "w" in
             let E := fresh "E" in
             apply bind_Ok in H; destruct H as (a & w1 & E & H);
             assert (attention (self w1) = attention (self w0))
               by (refine ((_ : keeps (fun w => attention (self w)) m)
                             _ _ _ E);
                   unfold get_go_frame, _reshape_memory, _update_memory,
                     _init_states;
                   method_frame side);
             clear E
         end.

(** X18.  Which entry point re-initialises the attention.  [forward]
    and [inference] start their loop with the attention object
    [init_states(inputs)] makes of the one found on entry;
    [inference_truncated] first resets its window index as well, on
    every call, also when it keeps the recurrent state;
    [inference_step] hands the attention object to [decode] as it
    found it, without either. *)
Theorem attention_state_at_start
  (x memories : tensor) (mask e m : option tensor) (t : Z) (w w0 : World) :
  (forall ms, forward_setup x memories mask e w = Ok (ms, w0) ->
     attention (self w0) = init_states (attention (self w)) x) /\
  (forall l0, inference_setup x w = Ok (l0, w0) ->
     attention (self w0) = init_states (attention (self w)) x) /\
  (inference_truncated_entry x w = Ok (tt, w0) ->
     attention (self w0)
       = init_states (init_win_idx (attention (self w))) x) /\
  (forall res, inference_step x t m w = Ok (res, w0) ->
     exists mem w1 out,
       decode mem w1 = Ok (out, w0) /\
       attention (self w1) = attention (self w)).
Proof.
  split; [|split; [|split]].
  - intros ms H. unfold forward_setup in H. keep_attention H.
    unfold bind, get, assign, ret in H. injection H as _ <-.
    simpl. congruence.
  - intros l0 H. unfold inference_setup in H. keep_attention H.
    unfold bind, get, assign, ret in H. injection H as _ <-.
    simpl. congruence.
  - intros H. unfold inference_truncated_entry in H.
    apply bind_Ok in H. destruct H as (mt & w1 & E & H).
    injection E as <- <-.
    apply bind_Ok in H. destruct H as (u & w2 & E & H).
    assert (K : attention (self w2) = attention (self w)).
    { refine ((_ : keeps (fun w => attention (self w))
                     (match memory_truncated (self w) with
                      | Some _ => _init_states x None true
                      | None =>
                          go <- get_go_frame x ;;
                          assign (with_memory_truncated (Some go)) ;;;
                          _init_states x None false
                      end)) _ _ _ E).
      unfold get_go_frame, _init_states. method_frame side. }
    unfold bind, get, assign, ret in H. injection H as <-.
    simpl. congruence.
  - intros res H. unfold inference_step in H.
    apply bind_Ok in H. destruct H as (m1 & w1 & E1 & H).
    assert (K1 : attention (self w1) = attention (self w)).
    { refine ((_ : keeps (fun w => attention (self w))
                     (if t =? 0
                      then go <- get_go_frame x ;;
                           _init_states x None false ;;; ret (Some go)
                      else ret m)) _ _ _ E1).
      unfold get_go_frame, _init_states. method_frame side. }
    apply bind_Ok in H. destruct H as (m2 & w2 & E2 & H).
    assert (K2 : attention (self w2) = attention (self w1)).
    { refine ((_ : keeps (fun w => attention (self w))
                     (match m1 with
                      | Some m0 => pn <- get prenet ;; draw (Prenet_call pn m0)
                      | None => raise TypeError
                      end)) _ _ _ E2).
      method_frame side. }
    apply bind_Ok in H. destruct H as (out & w3 & Ed & H).
    destruct out as [[o s] a]. injection H as _ <-.
    exists m2, w2, (o, s, a). split; [exact Ed|]. congruence.
Qed.

End AttentionStart.

(** The first call of [inference_truncated] on the small network. *)
Lemma attention_state_at_start_witness :
  exists w0,
    @inference_truncated_entry Toy.scalar (Toy.modules 0) (Toy.encoded 1 3)
      (Toy.world 0) = Ok (tt, w0) /\
    attention (self w0)
      = init_states (init_win_idx (attention (self (Toy.world 0))))
                    (Toy.encoded 1 3).
Proof.
  assert (V : match @inference_truncated_entry Toy.scalar (Toy.modules 0)
                      (Toy.encoded 1 3) (Toy.world 0) with
              | Ok _ => True
              | Raise _ => False
              end) by (vm_compute; exact I).
  destruct (@inference_truncated_entry Toy.scalar (Toy.modules 0)
              (Toy.encoded 1 3) (Toy.world 0)) as [[[] w0]|ex] eqn:E;
    [|contradiction].
  exists w0. split; [reflexivity|].
  exact (proj1 (proj2 (proj2
           (@attention_state_at_start Toy.scalar (Toy.modules 0)
              (Toy.encoded 1 3) (Toy.encoded 1 3) None None None 0
              (Toy.world 0) w0))) E).
Defined.
